(** * Smart LeadMailer Pro: the job progression engine, embedded and verified

    A shallow embedding of the campaign pipeline of the repository: the
    scheduler tick ([src/app/api/cron/process/route.ts]), the document-store
    helpers and the email inference ([src/lib/firebase/firestore.ts] and the
    email discovery service that follows it in the same file), the outreach
    sender ([src/lib/services/sendgrid.ts]), the business finder
    ([src/lib/services/places.ts]), the input sanitizers
    ([src/lib/utils/sanitize.ts]) and the HTTP handlers for job creation,
    manual send and unsubscribe.

    Modelling conventions.
    - A JavaScript string is a [string] of 8-bit characters: the code units
      U+0000 to U+00FF.  [toLowerCase] maps these into themselves;
      [toUpperCase] does not (the capital of a character can be two
      characters, or lie above U+00FF) and says so in its result.
    - A JavaScript [number] that the code only compares and rounds is a
      [JsNumber]: NaN, the two infinities, or a rational (every finite double
      is one).  Counters and sanitized sizes are integers ([Z]).
    - [async] code is sequential state passing over a [World] (the three
      Firestore collections, a clock, the plan of store faults and the log of
      messages handed to the mail provider).  A thrown exception is the
      [Throw] outcome; [try]/[catch] is [try_catch].
    - Platform and provider behaviour that is not code of the repository (the
      WHATWG URL parser, [Buffer], the environment variables, the HTTP
      responses of the Places and SendGrid services) is a [Platform] record
      the development is parametric in.
    - A document is a typed record.  Its key in the collection ([doc.id],
      [docRef.id]) is the field [job_id] or [p_id]; the statements name
      documents by it.  The data of the document ([doc.data()]) holds an
      [id] field only when [job_id_stored] or [p_id_stored] says so: no
      writer of the repository stores one, and a document that was put into
      the store with one repeats its key there.  What the code reads as
      [job.id] or [prospect.id] is that field of the data ([job_dot_id],
      [p_dot_id]), [undefined] when the data has none.
    - The Firestore client is the one [src/lib/firebase/admin.ts] creates,
      without [ignoreUndefinedProperties]: it throws, before any request is
      sent, when it is handed [undefined] as a document path, as the value of
      a query or as the value of a field to write. *)

From Stdlib Require Import List String Ascii Bool Arith ZArith QArith Qround Lia.
From Stdlib Require Import Relations Permutation.
From Stdlib Require Import Sorted.
Import ListNotations.

Local Open Scope string_scope.
Local Open Scope list_scope.

(* ================================================================== *)
(** ** JavaScript string primitives used by the code *)

Module Js.

Definition is_upper (c : ascii) : bool :=
  (65 <=? nat_of_ascii c)%nat && (nat_of_ascii c <=? 90)%nat.

Definition is_lower (c : ascii) : bool :=
  (97 <=? nat_of_ascii c)%nat && (nat_of_ascii c <=? 122)%nat.

Definition is_digit (c : ascii) : bool :=
  (48 <=? nat_of_ascii c)%nat && (nat_of_ascii c <=? 57)%nat.

(** The capital letters U+00C0 to U+00DE (without the multiplication sign)
    and the small letters U+00E0 to U+00FE (without the division sign). *)
Definition is_upper_latin1 (c : ascii) : bool :=
  (192 <=? nat_of_ascii c)%nat && (nat_of_ascii c <=? 222)%nat
  && negb (nat_of_ascii c =? 215)%nat.

Definition is_lower_latin1 (c : ascii) : bool :=
  (224 <=? nat_of_ascii c)%nat && (nat_of_ascii c <=? 254)%nat
  && negb (nat_of_ascii c =? 247)%nat.

Definition lower_char (c : ascii) : ascii :=
  if is_upper c || is_upper_latin1 c then ascii_of_nat (nat_of_ascii c + 32) else c.

(** The upper-case form of one character: a small letter gives its capital,
    the sharp s (U+00DF) gives [SS]; [None] for the two characters whose
    capital lies above U+00FF, the micro sign (U+00B5) and the y with
    diaeresis (U+00FF). *)
Definition upper_char (c : ascii) : option string :=
  if is_lower c || is_lower_latin1 c
  then Some (String (ascii_of_nat (nat_of_ascii c - 32)) EmptyString)
  else if (nat_of_ascii c =? 223)%nat then Some "SS"
  else if (nat_of_ascii c =? 181)%nat || (nat_of_ascii c =? 255)%nat then None
  else Some (String c EmptyString).

Fixpoint map_chars (f : ascii -> ascii) (s : string) : string :=
  match s with
  | EmptyString => EmptyString
  | String c r => String (f c) (map_chars f r)
  end.

(** [s.toLowerCase()]. *)
Definition toLowerCase (s : string) : string := map_chars lower_char s.

(** [s.toUpperCase()]; [None] when the result holds a character above
    U+00FF. *)
Fixpoint toUpperCase (s : string) : option string :=
  match s with
  | EmptyString => Some EmptyString
  | String c r =>
      match upper_char c, toUpperCase r with
      | Some u, Some t => Some (u ++ t)%string
      | _, _ => None
      end
  end.

(** [!s] for a string: only the empty string is falsy. *)
Definition falsy (s : string) : bool :=
  match s with EmptyString => true | _ => false end.

(** [!o] for an optional string ([undefined], [null] or the empty string). *)
Definition falsy_opt (o : option string) : bool :=
  match o with None => true | Some s => falsy s end.

(** [s.split(c)] for a one-character separator. *)
Fixpoint split (c : ascii) (s : string) : list string :=
  match s with
  | EmptyString => [EmptyString]
  | String a r =>
      if Ascii.eqb a c then EmptyString :: split c r
      else match split c r with
           | h :: t => String a h :: t
           | [] => [String a EmptyString]
           end
  end.

(** [s.startsWith(p)]. *)
Definition startsWith (p s : string) : bool := String.prefix p s.

Fixpoint drop (n : nat) (s : string) : string :=
  match n, s with
  | O, _ => s
  | S k, String _ r => drop k r
  | S _, EmptyString => EmptyString
  end.

(** [s.substring(0, n)]. *)
Definition substring0 (n : nat) (s : string) : string := String.substring 0 n s.

(** First occurrence of [pat] in [s]: the text before it and the text after. *)
Fixpoint find_first (pat s : string) : option (string * string) :=
  if String.prefix pat s then Some (EmptyString, drop (String.length pat) s)
  else match s with
       | EmptyString => None
       | String a r =>
           match find_first pat r with
           | Some (b, t) => Some (String a b, t)
           | None => None
           end
       end.

(** ECMAScript GetSubstitution for a string search value (no captures): in
    the replacement text [$$] is a dollar sign, [$&] the matched text,
    [$`] the text before the match and [$'] the text after it; any other
    use of [$] stands for itself. *)
Fixpoint getSubstitution (matched before after templ : string) : string :=
  match templ with
  | EmptyString => EmptyString
  | String a r =>
      if Ascii.eqb a "$" then
        match r with
        | String c rest =>
            if Ascii.eqb c "$" then
              String "$" (getSubstitution matched before after rest)
            else if Ascii.eqb c "&" then
              matched ++ getSubstitution matched before after rest
            else if Ascii.eqb c "`" then
              before ++ getSubstitution matched before after rest
            else if Ascii.eqb c "'" then
              after ++ getSubstitution matched before after rest
            else String "$" (getSubstitution matched before after r)
        | EmptyString => String "$" EmptyString
        end
      else String a (getSubstitution matched before after r)
  end.

(** [s.replace(pat, repl)] with a string pattern: the first occurrence only. *)
Definition replace (pat repl s : string) : string :=
  match find_first pat s with
  | None => s
  | Some (b, t) => b ++ getSubstitution pat b t repl ++ t
  end.

(** [s.replace(/c/g, d)] for single characters. *)
Definition replace_char_all (c d : ascii) (s : string) : string :=
  map_chars (fun a => if Ascii.eqb a c then d else a) s.

(** [s.replace(/[^...]/g, '')]: keep the characters of the class. *)
Fixpoint keep_chars (keep : ascii -> bool) (s : string) : string :=
  match s with
  | EmptyString => EmptyString
  | String a r => if keep a then String a (keep_chars keep r) else keep_chars keep r
  end.

(** The regular-expression classes [\w] and [\s] on 8-bit characters. *)
Definition is_word (c : ascii) : bool :=
  is_upper c || is_lower c || is_digit c || Ascii.eqb c "_".

Definition is_space (c : ascii) : bool :=
  let n := nat_of_ascii c in
  ((9 <=? n)%nat && (n <=? 13)%nat) || (n =? 32)%nat || (n =? 160)%nat.

Fixpoint trimStart (s : string) : string :=
  match s with
  | String a r => if is_space a then trimStart r else s
  | EmptyString => EmptyString
  end.

Fixpoint trimEnd (s : string) : string :=
  match s with
  | EmptyString => EmptyString
  | String a r =>
      match trimEnd r with
      | EmptyString => if is_space a then EmptyString else String a EmptyString
      | t => String a t
      end
  end.

(** [s.trim()]. *)
Definition trim (s : string) : string := trimEnd (trimStart s).

Fixpoint all_chars (p : ascii -> bool) (s : string) : bool :=
  match s with
  | EmptyString => true
  | String a r => p a && all_chars p r
  end.

Fixpoint repeat_char (c : ascii) (n : nat) : string :=
  match n with O => EmptyString | S k => String c (repeat_char c k) end.

End Js.

(* ================================================================== *)
(** ** Data model ([src/lib/types]) *)

Inductive JobStatus : Type :=
  draft | prospecting | discovering | sending | completed | failed.

Inductive ProspectStatus : Type :=
  found | no_website | no_email | email_found | sent | bounced | unsubscribed.

Inductive EmailSource : Type := inferred | scraped | verified.

Definition JobStatus_eqb (a b : JobStatus) : bool :=
  match a, b with
  | draft, draft | prospecting, prospecting | discovering, discovering
  | sending, sending | completed, completed | failed, failed => true
  | _, _ => false
  end.

Definition ProspectStatus_eqb (a b : ProspectStatus) : bool :=
  match a, b with
  | found, found | no_website, no_website | no_email, no_email
  | email_found, email_found | sent, sent | bounced, bounced
  | unsubscribed, unsubscribed => true
  | _, _ => false
  end.

(** [Job['stats']]: the six counters. *)
Record Stats : Type := mkStats {
  s_found : Z;
  s_withWebsite : Z;
  s_withEmail : Z;
  s_sent : Z;
  s_bounced : Z;
  s_unsubscribed : Z
}.

(** [keyof Job['stats']]. *)
Inductive StatField : Type :=
  F_found | F_withWebsite | F_withEmail | F_sent | F_bounced | F_unsubscribed.

Definition zero_stats : Stats := mkStats 0 0 0 0 0 0.

(** A job document.  [job_id] is the key of the document; [job_id_stored]
    says whether its data holds an [id] field (which then repeats the
    key). *)
Record Job : Type := mkJob {
  job_id : string;
  job_id_stored : bool;
  job_userId : string;
  job_status : JobStatus;
  job_createdAt : nat;
  job_updatedAt : nat;
  job_niche : string;
  job_targetZip : string;
  job_targetCountry : string;
  job_radiusKm : Z;
  job_maxBusinesses : Z;
  job_stats : Stats
}.

(** [job.id], read on the data of a job document. *)
Definition job_dot_id (job : Job) : option string :=
  if job_id_stored job then Some (job_id job) else None.

(** A prospect document, with its key [p_id] and [p_id_stored] as for a
    job. *)
Record Prospect : Type := mkProspect {
  p_id : string;
  p_id_stored : bool;
  p_jobId : string;
  p_status : ProspectStatus;
  p_createdAt : nat;
  p_updatedAt : nat;
  p_name : string;
  p_address : string;
  p_website : option string;
  p_phone : option string;
  p_rating : option Q;
  p_reviewCount : option Z;
  p_placeId : string;
  p_discoveredEmail : option string;
  p_emailSource : EmailSource;
  p_sendGridMessageId : option string;
  p_sentAt : option nat;
  p_bouncedAt : option nat;
  p_bounceReason : option string;
  p_unsubscribedAt : option nat
}.

(** [prospect.id], read on the data of a prospect document. *)
Definition p_dot_id (prospect : Prospect) : option string :=
  if p_id_stored prospect then Some (p_id prospect) else None.

(** A property of an object literal: left out, written with the value
    [undefined], or written with a value. *)
Inductive prop (A : Type) : Type :=
| absent
| undefined
| value (a : A).
Arguments absent {A}.
Arguments undefined {A}.
Arguments value {A} a.

(** What reading the property gives. *)
Definition prop_value {A} (p : prop A) : option A :=
  match p with
  | value a => Some a
  | _ => None
  end.

Definition is_undefined {A} (p : prop A) : bool :=
  match p with
  | undefined => true
  | _ => false
  end.

(** [key: e] in an object literal, for an expression that may evaluate to
    [undefined]: the property is written in both cases. *)
Definition written {A} (e : option A) : prop A :=
  match e with
  | Some a => value a
  | None => undefined
  end.

(** [Omit<Prospect, 'id' | 'status' | 'createdAt' | 'updatedAt'>]: the
    object handed to [batchCreateProspects], property by property. *)
Record ProspectData : Type := mkProspectData {
  pd_jobId : prop string;
  pd_placeId : string;
  pd_name : string;
  pd_address : string;
  pd_website : prop string;
  pd_phone : prop string;
  pd_rating : prop Q;
  pd_reviewCount : prop Z;
  pd_discoveredEmail : prop string;
  pd_emailSource : EmailSource;
  pd_sendGridMessageId : prop string;
  pd_sentAt : prop nat;
  pd_bouncedAt : prop nat;
  pd_bounceReason : prop string;
  pd_unsubscribedAt : prop nat
}.

Record Unsubscribe : Type := mkUnsubscribe {
  u_id : string;
  u_email : string;
  u_domain : string;
  u_unsubscribedAt : nat;
  u_jobId : option string
}.

(** A JavaScript error value, as far as the code inspects it:
    [error.message], [error.code] and [error.response.statusCode]. *)
Record JsError : Type := mkError {
  err_message : option string;
  err_code : option Z;
  err_statusCode : option Z
}.

Definition Error (msg : string) : JsError := mkError (Some msg) None None.

(** What a failing Firestore call throws: a gRPC status (codes 0 to 16), never
    an HTTP response. *)
Definition store_unavailable : JsError := mkError (Some "UNAVAILABLE") (Some 14%Z) None.
Definition store_not_found : JsError := mkError (Some "NOT_FOUND") (Some 5%Z) None.

(** The [TypeError] of reading a property of [undefined]. *)
Definition TypeError : JsError :=
  mkError (Some "Cannot read properties of undefined") None None.

(** The [ReferenceError] of evaluating an identifier that is bound
    nowhere. *)
Definition ReferenceError (name : string) : JsError :=
  mkError (Some (name ++ " is not defined")%string) None None.

(** What the Firestore client throws, before it sends anything, when it is
    handed [undefined]: as the path of [doc()], as the value of [where()],
    or as the value of a field of the data to write. *)
Definition invalid_path : JsError :=
  mkError (Some "Value for argument documentPath is not a valid resource path") None None.
Definition invalid_query_value : JsError :=
  mkError (Some "Value for argument value is not a valid query constraint") None None.
Definition invalid_field_value : JsError :=
  mkError (Some "Value for argument data is not a valid Firestore document") None None.

(** The message handed to [sgMail.send], without its html and text bodies. *)
Record MailMsg : Type := mkMail {
  m_to : string;
  m_subject : string;
  m_listUnsubscribe : string;
  m_jobId : option string;
  m_prospectId : option string
}.

(** The state the handlers run over. [w_faults] plans the outcome of the
    coming store calls, one entry a call ([true]: the call throws); when the
    plan is used up every call succeeds.  [w_outbox] logs the calls of
    [sgMail.send], oldest first. *)
Record World : Type := mkWorld {
  w_jobs : list Job;
  w_prospects : list Prospect;
  w_unsubscribes : list Unsubscribe;
  w_now : nat;
  w_fresh : nat;
  w_faults : list bool;
  w_outbox : list MailMsg
}.

Definition set_jobs (js : list Job) (w : World) : World :=
  mkWorld js (w_prospects w) (w_unsubscribes w) (w_now w) (w_fresh w) (w_faults w) (w_outbox w).
Definition set_prospects (ps : list Prospect) (w : World) : World :=
  mkWorld (w_jobs w) ps (w_unsubscribes w) (w_now w) (w_fresh w) (w_faults w) (w_outbox w).
Definition set_unsubscribes (us : list Unsubscribe) (w : World) : World :=
  mkWorld (w_jobs w) (w_prospects w) us (w_now w) (w_fresh w) (w_faults w) (w_outbox w).
Definition set_fresh (n : nat) (w : World) : World :=
  mkWorld (w_jobs w) (w_prospects w) (w_unsubscribes w) (w_now w) n (w_faults w) (w_outbox w).
Definition set_faults (fs : list bool) (w : World) : World :=
  mkWorld (w_jobs w) (w_prospects w) (w_unsubscribes w) (w_now w) (w_fresh w) fs (w_outbox w).
Definition set_outbox (ms : list MailMsg) (w : World) : World :=
  mkWorld (w_jobs w) (w_prospects w) (w_unsubscribes w) (w_now w) (w_fresh w) (w_faults w) ms.

(* ================================================================== *)
(** ** Exceptions and state: the monad of the handlers *)

Inductive outcome (A : Type) : Type :=
| Ok (a : A)
| Throw (e : JsError).
Arguments Ok {A} a.
Arguments Throw {A} e.

Definition M (A : Type) : Type := World -> outcome A * World.

Definition ret {A} (a : A) : M A := fun w => (Ok a, w).
Definition throw {A} (e : JsError) : M A := fun w => (Throw e, w).
Definition bind {A B} (m : M A) (k : A -> M B) : M B :=
  fun w => match m w with
           | (Ok a, w1) => k a w1
           | (Throw e, w1) => (Throw e, w1)
           end.

(** [try { m } catch (error) { h error }]. *)
Definition try_catch {A} (m : M A) (h : JsError -> M A) : M A :=
  fun w => match m w with
           | (Ok a, w1) => (Ok a, w1)
           | (Throw e, w1) => h e w1
           end.

Notation "x <- m ;; k" := (bind m (fun x => k))
  (at level 61, m at next level, right associativity).
Notation "m ;; k" := (bind m (fun _ => k))
  (at level 61, right associativity).

(** A pure computation that may throw, run inside the monad. *)
Definition lift {A} (o : outcome A) : M A := fun w => (o, w).

(** One call of the document store: it throws when the fault plan says so,
    and otherwise runs [op]. *)
Definition store_call {A} (op : M A) : M A :=
  fun w => match w_faults w with
           | true :: fs => (Throw store_unavailable, set_faults fs w)
           | false :: fs => op (set_faults fs w)
           | [] => op w
           end.

(** The evaluation of an identifier that no declaration, parameter or
    import of the module binds. *)
Definition unbound_identifier {A} (name : string) : M A :=
  throw (ReferenceError name).

(** [coll.doc(path)]: the reference of the document with this key. *)
Definition doc_path (path : option string) : M string :=
  match path with
  | Some key => ret key
  | None => throw invalid_path
  end.

(** [query.where(field, '==', v)]: the value compared with. *)
Definition query_value (v : option string) : M string :=
  match v with
  | Some s => ret s
  | None => throw invalid_query_value
  end.

(** A field of the data of a write. *)
Definition field_value (v : option string) : M string :=
  match v with
  | Some s => ret s
  | None => throw invalid_field_value
  end.

(** [for (const x of xs) { await body(x) }]. *)
Fixpoint for_each {A} (body : A -> M unit) (xs : list A) : M unit :=
  match xs with
  | [] => ret tt
  | x :: r => body x ;; for_each body r
  end.

(* ================================================================== *)
(** ** The platform and the external providers *)

(** [new URL(s)]: the two properties the code reads. *)
Record ParsedUrl : Type := mkUrl {
  url_protocol : string;
  url_hostname : string
}.

Record GeocodingResult : Type := mkGeo {
  geo_lat : Q;
  geo_lng : Q;
  geo_formattedAddress : string
}.

(** The body of a Geocoding API answer: [data.status] and [data.results]. *)
Record GeocodeData : Type := mkGeocodeData {
  gd_status : string;
  gd_results : option (list GeocodingResult)
}.

(** One entry of [data.places] in a Places answer. *)
Record RawPlace : Type := mkRawPlace {
  rp_displayName_text : option string;
  rp_formattedAddress : option string;
  rp_websiteUri : option string;
  rp_nationalPhoneNumber : option string;
  rp_rating : option Q;
  rp_userRatingCount : option Z;
  rp_id : string
}.

(** A Places answer: [res.ok], [data.places], [data.nextPageToken]. *)
Record PlacesResponse : Type := mkPlacesResponse {
  res_ok : bool;
  res_places : option (list RawPlace);
  res_nextPageToken : option string
}.

Record Platform : Type := mkPlatform {
  (** [new URL(s)]; [None] when the constructor throws. *)
  new_URL : string -> option ParsedUrl;
  (** [Buffer.from(s).toString('base64')]. *)
  base64_encode : string -> string;
  (** [Buffer.from(s, 'base64').toString('utf-8')]. *)
  base64_decode : string -> string;
  (** The document ids the store generates, by creation rank. *)
  auto_id : nat -> string;
  NODE_ENV : option string;
  CRON_SECRET : option string;
  DEBUG_API_KEY : option string;
  GOOGLE_PLACES_API_KEY : option string;
  NEXT_PUBLIC_BASE_URL : option string;
  (** The Geocoding API, by query text; [Throw] when [fetch] or
      [res.json()] rejects. *)
  geocode_fetch : string -> outcome GeocodeData;
  (** The first Places text search: query text, centre, radius in metres
      and page size. *)
  places_searchText : string -> Q -> Q -> Z -> Z -> outcome PlacesResponse;
  (** A Places continuation request: page token and page size. *)
  places_nextPage : string -> Z -> outcome PlacesResponse;
  (** [sgMail.send(msg)], by the number of earlier sends and the message:
      the [x-message-id] of the answer, or the error it rejects with. *)
  sgMail_send : nat -> MailMsg -> outcome string
}.

(* ================================================================== *)
(** ** Typed store helpers ([src/lib/firebase/firestore.ts]) *)

Definition set_job_status (st : JobStatus) (now : nat) (j : Job) : Job :=
  mkJob (job_id j) (job_id_stored j) (job_userId j) st (job_createdAt j) now (job_niche j)
        (job_targetZip j) (job_targetCountry j) (job_radiusKm j)
        (job_maxBusinesses j) (job_stats j).

Definition stats_increment (f : StatField) (n : Z) (s : Stats) : Stats :=
  match f with
  | F_found => mkStats (s_found s + n) (s_withWebsite s) (s_withEmail s) (s_sent s) (s_bounced s) (s_unsubscribed s)
  | F_withWebsite => mkStats (s_found s) (s_withWebsite s + n) (s_withEmail s) (s_sent s) (s_bounced s) (s_unsubscribed s)
  | F_withEmail => mkStats (s_found s) (s_withWebsite s) (s_withEmail s + n) (s_sent s) (s_bounced s) (s_unsubscribed s)
  | F_sent => mkStats (s_found s) (s_withWebsite s) (s_withEmail s) (s_sent s + n) (s_bounced s) (s_unsubscribed s)
  | F_bounced => mkStats (s_found s) (s_withWebsite s) (s_withEmail s) (s_sent s) (s_bounced s + n) (s_unsubscribed s)
  | F_unsubscribed => mkStats (s_found s) (s_withWebsite s) (s_withEmail s) (s_sent s) (s_bounced s) (s_unsubscribed s + n)
  end.

Definition set_job_stats (f : Stats -> Stats) (now : nat) (j : Job) : Job :=
  mkJob (job_id j) (job_id_stored j) (job_userId j) (job_status j) (job_createdAt j) now (job_niche j)
        (job_targetZip j) (job_targetCountry j) (job_radiusKm j)
        (job_maxBusinesses j) (f (job_stats j)).

(** [docRef.update(...)] on the job document with key [jobId]: the update of
    a document that does not exist is rejected by the store. *)
Definition update_job (jobId : string) (f : nat -> Job -> Job) : M unit :=
  store_call (fun w =>
    if existsb (fun j => job_id j =? jobId) (w_jobs w)
    then (Ok tt, set_jobs (map (fun j => if job_id j =? jobId then f (w_now w) j else j)
                               (w_jobs w)) w)
    else (Throw store_not_found, w)).

Definition update_prospect (prospectId : string) (f : nat -> Prospect -> Prospect) : M unit :=
  store_call (fun w =>
    if existsb (fun p => p_id p =? prospectId) (w_prospects w)
    then (Ok tt, set_prospects (map (fun p => if p_id p =? prospectId then f (w_now w) p else p)
                                    (w_prospects w)) w)
    else (Throw store_not_found, w)).

(** [updateJobStatus(jobId, status)]; the handlers never pass the optional
    [stats] argument.  The argument is declared a string; the handlers pass
    [job.id], which can be [undefined]. *)
Definition updateJobStatus (jobId : option string) (status : JobStatus) : M unit :=
  key <- doc_path jobId ;;
  update_job key (set_job_status status).

(** [incrementJobStat(jobId, statField, amount)]. *)
Definition incrementJobStat (jobId : option string) (statField : StatField) (amount : Z)
  : M unit :=
  key <- doc_path jobId ;;
  update_job key (set_job_stats (stats_increment statField amount)).

(** [getJob(jobId)]. *)
Definition getJob (jobId : string) : M (option Job) :=
  store_call (fun w => (Ok (find (fun j => job_id j =? jobId) (w_jobs w)), w)).

(** [createJob(data)]: the data carries the status and the stats, the
    helper adds the two dates and the store generates the key; no [id]
    field is written. *)
Definition createJob (P : Platform) (data : Job) : M string :=
  store_call (fun w =>
    let id := auto_id P (w_fresh w) in
    (Ok id,
     set_fresh (S (w_fresh w))
       (set_jobs (w_jobs w ++
                  [mkJob id false (job_userId data) (job_status data) (w_now w) (w_now w)
                         (job_niche data) (job_targetZip data) (job_targetCountry data)
                         (job_radiusKm data) (job_maxBusinesses data) (job_stats data)]) w))).

Fixpoint insert_by_createdAt (j : Job) (l : list Job) : list Job :=
  match l with
  | [] => [j]
  | h :: t => if (job_createdAt h <? job_createdAt j)%nat then j :: l
              else h :: insert_by_createdAt j t
  end.

(** [orderBy('createdAt', 'desc')]. *)
Definition orderBy_createdAt_desc (l : list Job) : list Job :=
  fold_right insert_by_createdAt [] l.

(** [getAllJobs(limit = 50)]. *)
Definition getAllJobs_limit (limit : nat) : M (list Job) :=
  store_call (fun w => (Ok (firstn limit (orderBy_createdAt_desc (w_jobs w))), w)).

Definition getAllJobs : M (list Job) := getAllJobs_limit 50.

(** The documents of [{ ...prospect, jobId, status: 'found', createdAt,
    updatedAt }], under generated keys. *)
Fixpoint new_prospect_docs (P : Platform) (jobId : string) (now : nat) (n : nat)
         (prospects : list ProspectData) : list Prospect :=
  match prospects with
  | [] => []
  | p :: r =>
      mkProspect (auto_id P n) false jobId found now now (pd_name p) (pd_address p)
                 (prop_value (pd_website p)) (prop_value (pd_phone p))
                 (prop_value (pd_rating p)) (prop_value (pd_reviewCount p)) (pd_placeId p)
                 (prop_value (pd_discoveredEmail p)) (pd_emailSource p)
                 (prop_value (pd_sendGridMessageId p)) (prop_value (pd_sentAt p))
                 (prop_value (pd_bouncedAt p)) (prop_value (pd_bounceReason p))
                 (prop_value (pd_unsubscribedAt p))
      :: new_prospect_docs P jobId now (S n) r
  end.

(** Whether [{ ...prospect, jobId, ... }] holds a property with the value
    [undefined]; the [jobId] of [prospect] is overwritten by the argument. *)
Definition holds_undefined (jobId : option string) (prospect : ProspectData) : bool :=
  match jobId with Some _ => false | None => true end
  || is_undefined (pd_website prospect) || is_undefined (pd_phone prospect)
  || is_undefined (pd_rating prospect) || is_undefined (pd_reviewCount prospect)
  || is_undefined (pd_discoveredEmail prospect)
  || is_undefined (pd_sendGridMessageId prospect) || is_undefined (pd_sentAt prospect)
  || is_undefined (pd_bouncedAt prospect) || is_undefined (pd_bounceReason prospect)
  || is_undefined (pd_unsubscribedAt prospect).

(** [batchCreateProspects(jobId, prospects)]: one document a prospect, each
    under a generated key, with [status: 'found'] and the two dates, written
    by one [batch.commit()].  [batch.set] throws at the first data that
    holds an [undefined] value, and nothing is committed then. *)
Definition batchCreateProspects (P : Platform) (jobId : option string)
           (prospects : list ProspectData) : M unit :=
  if existsb (holds_undefined jobId) prospects then throw invalid_field_value
  else
    store_call (fun w =>
      (Ok tt,
       set_fresh (w_fresh w + List.length prospects)%nat
         (set_prospects (w_prospects w ++
                         new_prospect_docs P (match jobId with Some j => j | None => "" end)
                                           (w_now w) (w_fresh w) prospects) w))).

Definition limit_opt {A} (limit : option nat) (l : list A) : list A :=
  match limit with
  | Some (S n) => firstn (S n) l
  | _ => l
  end.

Definition status_filter (status : option ProspectStatus) (p : Prospect) : bool :=
  match status with
  | Some s => ProspectStatus_eqb (p_status p) s
  | None => true
  end.

(** [getProspectsForJob(jobId, { status, limit })]: the page of prospects
    asked for, and [total], the count of the query
    [where('jobId', '==', jobId)]. *)
Definition getProspectsForJob (jobId : option string) (status : option ProspectStatus)
           (limit : option nat) : M (list Prospect * nat) :=
  jobId <- query_value jobId ;;
  prospects <- store_call (fun w =>
      (Ok (limit_opt limit
             (filter (fun p => (p_jobId p =? jobId) && status_filter status p)
                     (w_prospects w))), w)) ;;
  total <- store_call (fun w =>
      (Ok (List.length (filter (fun p => p_jobId p =? jobId) (w_prospects w))), w)) ;;
  ret (prospects, total).

Definition set_prospect_status (status : ProspectStatus) (discoveredEmail : option string)
           (emailSource : option EmailSource) (now : nat) (p : Prospect) : Prospect :=
  let with_email := negb (Js.falsy_opt discoveredEmail) in
  mkProspect (p_id p) (p_id_stored p) (p_jobId p) status (p_createdAt p) now (p_name p) (p_address p)
             (p_website p) (p_phone p) (p_rating p) (p_reviewCount p) (p_placeId p)
             (if with_email then discoveredEmail else p_discoveredEmail p)
             (if with_email
              then match emailSource with Some s => s | None => inferred end
              else p_emailSource p)
             (p_sendGridMessageId p) (p_sentAt p) (p_bouncedAt p) (p_bounceReason p)
             (p_unsubscribedAt p).

(** [updateProspectStatus(prospectId, status, emailData)]. *)
Definition updateProspectStatus (prospectId : option string) (status : ProspectStatus)
           (discoveredEmail : option string) (emailSource : option EmailSource) : M unit :=
  key <- doc_path prospectId ;;
  update_prospect key (set_prospect_status status discoveredEmail emailSource).

(** [getProspectsForSending(jobId, batchSize)]. *)
Definition getProspectsForSending (jobId : option string) (batchSize : nat)
  : M (list Prospect) :=
  jobId <- query_value jobId ;;
  store_call (fun w =>
    (Ok (firstn batchSize
           (filter (fun p => (p_jobId p =? jobId) && ProspectStatus_eqb (p_status p) email_found)
                   (w_prospects w))), w)).

(** [email.split('@')[1].toLowerCase()]; a [TypeError] without an [@]. *)
Definition email_domain (email : string) : outcome string :=
  match nth_error (Js.split "@" email) 1 with
  | Some d => Ok (Js.toLowerCase d)
  | None => Throw TypeError
  end.

(** The two queries of [isUnsubscribed], on the collection itself. *)
Definition ledger_has_email (ledger : list Unsubscribe) (email : string) : bool :=
  existsb (fun u => u_email u =? Js.toLowerCase email) ledger.

Definition ledger_has_domain (ledger : list Unsubscribe) (domain : string) : bool :=
  existsb (fun u => u_domain u =? domain) ledger.

(** [isUnsubscribed(email)]. *)
Definition isUnsubscribed (email : string) : M bool :=
  domain <- lift (email_domain email) ;;
  emailSnap <- store_call (fun w => (Ok (ledger_has_email (w_unsubscribes w) email), w)) ;;
  domainSnap <- store_call (fun w => (Ok (ledger_has_domain (w_unsubscribes w) domain), w)) ;;
  ret (emailSnap || domainSnap).

(** [addUnsubscribe(email, jobId)]: the data written always names the
    field [jobId], so a call without a job id hands [jobId: undefined] to
    the client. *)
Definition addUnsubscribe (email : string) (jobId : option string) : M unit :=
  domain <- lift (email_domain email) ;;
  jobId <- field_value jobId ;;
  store_call (fun w =>
    (Ok tt,
     set_unsubscribes (w_unsubscribes w ++
                       [mkUnsubscribe "" (Js.toLowerCase email) domain (w_now w)
                                      (Some jobId)]) w)).

(* ================================================================== *)
(** ** Email discovery service (email inference) *)

Definition EMAIL_PATTERNS : list string :=
  [ "info@{domain}";
    "contact@{domain}";
    "hello@{domain}";
    "admin@{domain}";
    "support@{domain}";
    "business@{domain}" ].

(** [s.replace(/^www\./, '')]. *)
Definition strip_www (s : string) : string :=
  if Js.startsWith "www." s then Js.drop 4 s else s.

(** [extractDomain(url)] of the email discovery service. *)
Definition extractDomain (P : Platform) (url : string) : option string :=
  if Js.falsy url then None
  else
    let withProtocol := if Js.startsWith "http" url then url else ("https://" ++ url)%string in
    match new_URL P withProtocol with
    | Some parsed => Some (strip_www (Js.toLowerCase (url_hostname parsed)))
    | None => None
    end.

(** [generateInferredEmails(domain)]. *)
Definition generateInferredEmails (domain : string) : list string :=
  map (fun pattern => Js.replace "{domain}" domain pattern) EMAIL_PATTERNS.

(** The loop of [discoverEmailForProspect] over the candidates: the first
    one that [isUnsubscribed] does not report. *)
Fixpoint first_viable_email (candidateEmails : list string) : M (option string) :=
  match candidateEmails with
  | [] => ret None
  | email :: rest =>
      unsub <- isUnsubscribed email ;;
      if negb unsub then ret (Some email) else first_viable_email rest
  end.

(** [discoverEmailForProspect(prospect)]: the discovered email and the status. *)
Definition discoverEmailForProspect (P : Platform) (prospect : Prospect)
  : M (option string * ProspectStatus) :=
  if Js.falsy_opt (p_website prospect) then ret (None, no_website)
  else
    match extractDomain P (match p_website prospect with Some u => u | None => "" end) with
    | None => ret (None, no_email)
    | Some domain =>
        if Js.falsy domain then ret (None, no_email)
        else
          r <- first_viable_email (generateInferredEmails domain) ;;
          match r with
          | Some email => ret (Some email, email_found)
          | None => ret (None, no_email)
          end
    end.

Record DiscoveryResult : Type := mkDiscovery {
  d_prospectId : option string;
  d_discoveredEmail : option string;
  d_status : ProspectStatus
}.

(** [batchDiscoverEmails(prospects)]: the discoveries only read the store, so
    running them one after the other gives the results of [Promise.all]. *)
Fixpoint batchDiscoverEmails (P : Platform) (prospects : list Prospect)
  : M (list DiscoveryResult) :=
  match prospects with
  | [] => ret []
  | prospect :: rest =>
      result <- discoverEmailForProspect P prospect ;;
      results <- batchDiscoverEmails P rest ;;
      ret (mkDiscovery (p_dot_id prospect) (fst result) (snd result) :: results)
  end.

(* ================================================================== *)
(** ** Outreach sender ([src/lib/services/sendgrid.ts]) *)

Definition or_default (o : option string) (d : string) : string :=
  match o with
  | Some s => if Js.falsy s then d else s
  | None => d
  end.

(** [`${v}`] for a value that is a string or [undefined]. *)
Definition template_text (v : option string) : string :=
  match v with
  | Some s => s
  | None => "undefined"
  end.

(** [generateUnsubscribeUrl(prospectId, email)]. *)
Definition generateUnsubscribeUrl (P : Platform) (prospectId : option string)
           (email : string) : string :=
  let baseUrl := or_default (NEXT_PUBLIC_BASE_URL P) "http://localhost:3000" in
  let token := base64_encode P (template_text prospectId ++ ":" ++ email)%string in
  (baseUrl ++ "/api/unsubscribe?token=" ++ token)%string.

Record SendResult : Type := mkSendResult {
  sr_success : bool;
  sr_messageId : option string;
  sr_error : option string
}.

(** The message of [sendEmailToProspect] for a prospect with an address. *)
Definition build_msg (P : Platform) (prospect : Prospect) (jobId : option string)
           (email : string) : MailMsg :=
  mkMail email
         ("Quick question about " ++ p_name prospect)%string
         ("<" ++ generateUnsubscribeUrl P (p_dot_id prospect) email ++ ">")%string
         jobId (p_dot_id prospect).

(** [await sgMail.send(msg)]: the call is logged, the provider answers. *)
Definition sgMail_send_call (P : Platform) (msg : MailMsg) : M string :=
  fun w => (sgMail_send P (List.length (w_outbox w)) msg,
            set_outbox (w_outbox w ++ [msg]) w).

Definition set_prospect_sent (messageId : string) (now : nat) (p : Prospect) : Prospect :=
  mkProspect (p_id p) (p_id_stored p) (p_jobId p) (p_status p) (p_createdAt p) now (p_name p) (p_address p)
             (p_website p) (p_phone p) (p_rating p) (p_reviewCount p) (p_placeId p)
             (p_discoveredEmail p) (p_emailSource p) (Some messageId)
             (Some now) (p_bouncedAt p) (p_bounceReason p) (p_unsubscribedAt p).

(** An [undefined] value leaves the field as it was. *)
Definition set_prospect_bounced (reason : option string) (now : nat) (p : Prospect) : Prospect :=
  mkProspect (p_id p) (p_id_stored p) (p_jobId p) (p_status p) (p_createdAt p) now (p_name p) (p_address p)
             (p_website p) (p_phone p) (p_rating p) (p_reviewCount p) (p_placeId p)
             (p_discoveredEmail p) (p_emailSource p) (p_sendGridMessageId p)
             (p_sentAt p) (Some now)
             (match reason with Some r => Some r | None => p_bounceReason p end)
             (p_unsubscribedAt p).

(** [error?.response?.statusCode === 400 || error?.code === 400]. *)
Definition isPermanentBounce (error : JsError) : bool :=
  match err_statusCode error with Some c => (c =? 400)%Z | None => false end
  || match err_code error with Some c => (c =? 400)%Z | None => false end.

(** The lines of [sendEmailToProspect(params)], given what the identifier
    [prospect] of its first line evaluates to; [params.prospect] and
    [params.jobId] are the other two arguments. *)
Definition sendEmailToProspect_from (P : Platform) (prospect : Prospect)
           (params_prospect : Prospect) (params_jobId : option string) : M SendResult :=
  if Js.falsy_opt (p_discoveredEmail prospect)
  then ret (mkSendResult false None (Some "No email address available for this prospect"))
  else
    let email := match p_discoveredEmail params_prospect with Some e => e | None => "" end in
    let msg := build_msg P params_prospect params_jobId email in
    try_catch
      (messageId <- sgMail_send_call P msg ;;
       updateProspectStatus (p_dot_id params_prospect) sent (Some email) (Some inferred) ;;
       key <- doc_path (p_dot_id params_prospect) ;;
       update_prospect key (set_prospect_sent messageId) ;;
       ret (mkSendResult true (Some messageId) None))
      (fun error =>
         (if isPermanentBounce error
          then
            updateProspectStatus (p_dot_id params_prospect) bounced (Some email)
                                 (Some inferred) ;;
            key <- doc_path (p_dot_id params_prospect) ;;
            update_prospect key
              (set_prospect_bounced (option_map (Js.substring0 500) (err_message error)))
          else ret tt) ;;
         ret (mkSendResult false None
                (Some (or_default (err_message error) "Unknown error")))).

(** [sendEmailToProspect(params)].  The guard in its first line reads
    [prospect.discoveredEmail], and [prospect] is bound nowhere in the
    module (only [params] is in scope): the evaluation throws there, before
    the [try], and the lines that follow never run. *)
Definition sendEmailToProspect (P : Platform) (params_prospect : Prospect)
           (params_jobId : option string) : M SendResult :=
  prospect <- unbound_identifier "prospect" ;;
  sendEmailToProspect_from P prospect params_prospect params_jobId.

Record BatchResult : Type := mkBatchResult {
  br_sent : Z;
  br_failed : Z;
  br_errors : list string
}.

(** The loop of [batchSendEmails], one prospect after the other; the pause
    between two sends is not represented. *)
Fixpoint batchSendEmails_loop (P : Platform) (jobId : option string)
         (prospects : list Prospect)
         (results : BatchResult) : M BatchResult :=
  match prospects with
  | [] => ret results
  | prospect :: rest =>
      result <- sendEmailToProspect P prospect jobId ;;
      batchSendEmails_loop P jobId rest
        (if sr_success result
         then mkBatchResult (br_sent results + 1) (br_failed results) (br_errors results)
         else mkBatchResult (br_sent results) (br_failed results + 1)
                (br_errors results ++
                 [(p_name prospect ++ ": " ++
                   match sr_error result with Some e => e | None => "undefined" end)%string]))
  end.

(** [batchSendEmails(prospects, jobId, userConfig)]; [userConfig] only
    enters the message bodies. *)
Definition batchSendEmails (P : Platform) (prospects : list Prospect)
           (jobId : option string) : M BatchResult :=
  batchSendEmails_loop P jobId prospects (mkBatchResult 0 0 []).

(* ================================================================== *)
(** ** Business finder ([src/lib/services/places.ts]) *)

Record PlacesBusiness : Type := mkBusiness {
  b_name : string;
  b_address : string;
  b_website : option string;
  b_phone : option string;
  b_rating : option Q;
  b_reviewCount : option Z;
  b_placeId : string
}.

(** [geocodeLocation(zipOrCity, country)]. *)
Definition geocodeLocation (P : Platform) (zipOrCity country : string)
  : outcome GeocodingResult :=
  if Js.falsy_opt (GOOGLE_PLACES_API_KEY P)
  then Throw (Error "GOOGLE_PLACES_API_KEY is not configured")
  else
    match geocode_fetch P (zipOrCity ++ ", " ++ country)%string with
    | Throw e => Throw e
    | Ok data =>
        match gd_results data with
        | Some (r :: _) =>
            if gd_status data =? "OK" then Ok r else Throw (Error "Geocoding failed")
        | _ => Throw (Error "Geocoding failed")
        end
    end.

(** [radiusKmToMeters(radiusKm)]. *)
Definition radiusKmToMeters (radiusKm : Z) : Z := Z.min (radiusKm * 1000) 50000.

(** [cleanWebsiteUrl(url)] of the Places service. *)
Definition cleanWebsiteUrl (P : Platform) (url : string) : option string :=
  if Js.falsy url then None
  else
    let withProtocol := if Js.startsWith "http" url then url else ("https://" ++ url)%string in
    match new_URL P withProtocol with
    | Some parsed => Some (url_protocol parsed ++ "//" ++ url_hostname parsed)%string
    | None => None
    end.

Definition truthy_string (o : option string) : option string :=
  match o with
  | Some s => if Js.falsy s then None else Some s
  | None => None
  end.

(** The mapping of one provider place to a business. *)
Definition clean_place (P : Platform) (place : RawPlace) : PlacesBusiness :=
  mkBusiness
    (or_default (rp_displayName_text place) "Unknown Business")
    (or_default (rp_formattedAddress place) "")
    (match truthy_string (rp_websiteUri place) with
     | Some uri => cleanWebsiteUrl P uri
     | None => None
     end)
    (truthy_string (rp_nationalPhoneNumber place))
    (match rp_rating place with
     | Some r => if Qeq_bool r 0 then None else Some r
     | None => None
     end)
    (match rp_userRatingCount place with
     | Some c => if (c =? 0)%Z then None else Some c
     | None => None
     end)
    (rp_id place).

(** [fetchNextPage(pageToken, maxBusinesses, apiKey)]. *)
Definition fetchNextPage (P : Platform) (pageToken : string) (maxBusinesses : Z)
  : outcome (list PlacesBusiness) :=
  match places_nextPage P pageToken (Z.min maxBusinesses 20) with
  | Throw e => Throw e
  | Ok res =>
      if negb (res_ok res) then Ok []
      else match res_places res with
           | Some places => Ok (map (clean_place P) places)
           | None => Ok []
           end
  end.

(** [a.slice(0, n)] for an integer [n]: a negative end counts from the end. *)
Definition slice0 {A} (n : Z) (a : list A) : list A :=
  if (n <? 0)%Z then firstn (Z.to_nat (Z.of_nat (List.length a) + n)) a
  else firstn (Z.to_nat n) a.

(** [searchBusinesses(params)]. *)
Definition searchBusinesses (P : Platform) (niche targetZip targetCountry : string)
           (radiusKm maxBusinesses : Z) : outcome (list PlacesBusiness) :=
  match geocodeLocation P targetZip targetCountry with
  | Throw e => Throw e
  | Ok location =>
      if Js.falsy_opt (GOOGLE_PLACES_API_KEY P)
      then Throw (Error "GOOGLE_PLACES_API_KEY is not configured")
      else
        let searchText := (niche ++ " near " ++ targetZip ++ ", " ++ targetCountry)%string in
        match places_searchText P searchText (geo_lat location) (geo_lng location)
                                (radiusKmToMeters radiusKm) (Z.min maxBusinesses 20) with
        | Throw e => Throw e
        | Ok res =>
            if negb (res_ok res) then Throw (Error "Places API error")
            else
              match res_places res with
              | None => Ok []
              | Some places =>
                  let businesses := map (clean_place P) places in
                  match truthy_string (res_nextPageToken res) with
                  | Some nextPageToken =>
                      if (Z.of_nat (List.length businesses) <? maxBusinesses)%Z
                      then
                        let remaining := (maxBusinesses - Z.of_nat (List.length businesses))%Z in
                        match fetchNextPage P nextPageToken remaining with
                        | Throw e => Throw e
                        | Ok nextPageResults =>
                            Ok (slice0 maxBusinesses (businesses ++ nextPageResults))
                        end
                      else Ok (slice0 maxBusinesses businesses)
                  | None => Ok (slice0 maxBusinesses businesses)
                  end
              end
        end
  end.

(** The prospect data made of one business: every property of the literal
    is written, the six that the discovery and the sender fill later with
    the value [undefined]. *)
Definition prospect_data (jobId : option string) (business : PlacesBusiness)
  : ProspectData :=
  mkProspectData (written jobId) (b_placeId business) (b_name business)
                 (b_address business) (written (b_website business))
                 (written (b_phone business)) (written (b_rating business))
                 (written (b_reviewCount business))
                 undefined inferred undefined undefined undefined undefined undefined.

(** [getProspectsFromPlaces(jobId, params)], the search parameters being
    those of the job. *)
Definition getProspectsFromPlaces (P : Platform) (jobId : option string) (job : Job)
  : outcome (list ProspectData) :=
  match searchBusinesses P (job_niche job) (job_targetZip job) (job_targetCountry job)
                         (job_radiusKm job) (job_maxBusinesses job) with
  | Throw e => Throw e
  | Ok businesses => Ok (map (prospect_data jobId) businesses)
  end.

(* ================================================================== *)
(** ** The scheduler tick ([src/app/api/cron/process/route.ts]) *)

Definition EMAIL_DISCOVERY_BATCH_SIZE : nat := 50.
Definition SENDING_BATCH_SIZE : nat := 10.

(** [handleProspecting(job)]. *)
Definition handleProspecting (P : Platform) (job : Job) : M unit :=
  (if JobStatus_eqb (job_status job) draft
   then updateJobStatus (job_dot_id job) prospecting
   else ret tt) ;;
  try_catch
    (prospectsData <- lift (getProspectsFromPlaces P (job_dot_id job) job) ;;
     batchCreateProspects P (job_dot_id job) prospectsData ;;
     incrementJobStat (job_dot_id job) F_found (Z.of_nat (List.length prospectsData)) ;;
     let withWebsite :=
       List.length (filter (fun p => negb (Js.falsy_opt (prop_value (pd_website p))))
                           prospectsData) in
     incrementJobStat (job_dot_id job) F_withWebsite (Z.of_nat withWebsite) ;;
     updateJobStatus (job_dot_id job) discovering)
    (fun _ => updateJobStatus (job_dot_id job) failed).

(** The loop of [handleEmailDiscovery] over the discovery results. *)
Fixpoint update_discovered (results : list DiscoveryResult) (emailFoundCount : Z) : M Z :=
  match results with
  | [] => ret emailFoundCount
  | result :: rest =>
      let count := if Js.falsy_opt (d_discoveredEmail result)
                   then emailFoundCount else (emailFoundCount + 1)%Z in
      updateProspectStatus (d_prospectId result) (d_status result)
                           (truthy_string (d_discoveredEmail result)) (Some inferred) ;;
      update_discovered rest count
  end.

(** [handleEmailDiscovery(job)]. *)
Definition handleEmailDiscovery (P : Platform) (job : Job) : M unit :=
  try_catch
    (page <- getProspectsForJob (job_dot_id job) (Some found)
                                (Some EMAIL_DISCOVERY_BATCH_SIZE) ;;
     let prospects := fst page in
     if (List.length prospects =? 0)%nat
     then updateJobStatus (job_dot_id job) sending
     else
       results <- batchDiscoverEmails P prospects ;;
       emailFoundCount <- update_discovered results 0 ;;
       incrementJobStat (job_dot_id job) F_withEmail emailFoundCount ;;
       if (List.length prospects <? EMAIL_DISCOVERY_BATCH_SIZE)%nat
       then
         remaining <- getProspectsForJob (job_dot_id job) (Some found) None ;;
         if (snd remaining =? 0)%nat
         then updateJobStatus (job_dot_id job) sending
         else ret tt
       else ret tt)
    (fun _ => updateJobStatus (job_dot_id job) failed).

(** [handleSending(job)]. *)
Definition handleSending (P : Platform) (job : Job) : M unit :=
  try_catch
    (prospects <- getProspectsForSending (job_dot_id job) SENDING_BATCH_SIZE ;;
     if (List.length prospects =? 0)%nat
     then updateJobStatus (job_dot_id job) completed
     else
       results <- batchSendEmails P prospects (job_dot_id job) ;;
       incrementJobStat (job_dot_id job) F_sent (br_sent results) ;;
       incrementJobStat (job_dot_id job) F_bounced (br_failed results))
    (fun _ => updateJobStatus (job_dot_id job) failed).

(** [processJob(job)]. *)
Definition processJob (P : Platform) (job : Job) : M unit :=
  match job_status job with
  | draft => handleProspecting P job
  | prospecting => handleProspecting P job
  | discovering => handleEmailDiscovery P job
  | sending => handleSending P job
  | completed | failed => ret tt
  end.

(** The filter of [GET]: the four statuses that need processing. *)
Definition is_active (job : Job) : bool :=
  match job_status job with
  | draft | prospecting | discovering | sending => true
  | completed | failed => false
  end.

(** The body of the loop of [GET]. *)
Definition process_guarded (P : Platform) (job : Job) : M unit :=
  try_catch (processJob P job) (fun _ => updateJobStatus (job_dot_id job) failed).

Inductive CronResponse : Type :=
| Cron_401
| Cron_200 (processedJobs : nat)
| Cron_500.

(** [authHeader !== `Bearer ${process.env.CRON_SECRET}`] in production. *)
Definition cron_unauthorized (P : Platform) (authHeader : option string) : bool :=
  match NODE_ENV P with
  | Some env =>
      (env =? "production") &&
      negb match authHeader with
           | Some h =>
               (h =? "Bearer " ++ match CRON_SECRET P with Some s => s | None => "undefined" end)%string
           | None => false
           end
  | None => false
  end.

(** [GET(request)] of the cron route: one scheduler tick. *)
Definition cron_GET (P : Platform) (authHeader : option string) (w : World)
  : CronResponse * World :=
  if cron_unauthorized P authHeader then (Cron_401, w)
  else
    match (jobs <- getAllJobs ;;
           let activeJobs := filter is_active jobs in
           for_each (process_guarded P) activeJobs ;;
           ret (List.length activeJobs)) w with
    | (Ok n, w1) => (Cron_200 n, w1)
    | (Throw _, w1) => (Cron_500, w1)
    end.

(* ================================================================== *)
(** ** Manual send trigger ([POST /api/send]) *)

Inductive SendResponse : Type :=
| Send_401
| Send_400_missing_jobId
| Send_404
| Send_400_not_sending (current : JobStatus)
| Send_200_nothing
| Send_200 (results : BatchResult)
| Send_500.

(** The debug key check, enforced in production when a key is configured. *)
Definition send_unauthorized (P : Platform) (debugHeader : option string) : bool :=
  match NODE_ENV P, truthy_string (DEBUG_API_KEY P) with
  | Some env, Some key =>
      (env =? "production") &&
      negb match debugHeader with Some h => h =? key | None => false end
  | _, _ => false
  end.

(** [POST(request)] of the send route.  [body] is [await request.json()]:
    the [jobId] it carries when that is a string, or the exception. *)
Definition send_POST (P : Platform) (debugHeader : option string)
           (body : outcome (option string)) (w : World) : SendResponse * World :=
  if send_unauthorized P debugHeader then (Send_401, w)
  else
    match (b <- lift body ;;
           if Js.falsy_opt b then ret Send_400_missing_jobId
           else
             let jobId := match b with Some s => s | None => "" end in
             job <- getJob jobId ;;
             match job with
             | None => ret Send_404
             | Some job =>
                 if negb (JobStatus_eqb (job_status job) sending)
                 then ret (Send_400_not_sending (job_status job))
                 else
                   prospects <- getProspectsForSending (Some jobId) 10 ;;
                   if (List.length prospects =? 0)%nat then ret Send_200_nothing
                   else
                     results <- batchSendEmails P prospects (Some jobId) ;;
                     ret (Send_200 results)
             end) w with
    | (Ok r, w1) => (r, w1)
    | (Throw _, w1) => (Send_500, w1)
    end.

(* ================================================================== *)
(** ** Unsubscribe link ([GET /api/unsubscribe]) *)

Inductive UnsubscribeResponse : Type :=
| Unsub_400_missing_token
| Unsub_400_malformed_token
| Unsub_400_email_mismatch
| Unsub_200_confirmation (email : string)
| Unsub_500.

(** [decodeBase64Url(token)]. *)
Definition decodeBase64Url (P : Platform) (token : string) : string :=
  let base64 := Js.replace_char_all "_" "/" (Js.replace_char_all "-" "+" token) in
  let padded := (base64 ++ Js.repeat_char "=" ((4 - String.length base64 mod 4) mod 4))%string in
  base64_decode P padded.

Definition set_prospect_unsubscribed (now : nat) (p : Prospect) : Prospect :=
  mkProspect (p_id p) (p_id_stored p) (p_jobId p) unsubscribed (p_createdAt p) now (p_name p) (p_address p)
             (p_website p) (p_phone p) (p_rating p) (p_reviewCount p) (p_placeId p)
             (p_discoveredEmail p) (p_emailSource p) (p_sendGridMessageId p)
             (p_sentAt p) (p_bouncedAt p) (p_bounceReason p) (Some now).

(** [db.collection('prospects').doc(prospectId).get()]. *)
Definition get_prospect (prospectId : string) : M (option Prospect) :=
  store_call (fun w => (Ok (find (fun p => p_id p =? prospectId) (w_prospects w)), w)).

(** [prospect.discoveredEmail !== email]. *)
Definition email_differs (stored : option string) (email : string) : bool :=
  match stored with
  | Some e => negb (e =? email)
  | None => true
  end.

(** [GET(request)] of the unsubscribe route; [token] is the query parameter. *)
Definition unsubscribe_GET (P : Platform) (token : option string) (w : World)
  : UnsubscribeResponse * World :=
  if Js.falsy_opt token then (Unsub_400_missing_token, w)
  else
    let decoded := decodeBase64Url P (match token with Some t => t | None => "" end) in
    let parts := Js.split ":" decoded in
    let prospectId := nth_error parts 0 in
    let email := nth_error parts 1 in
    match (if Js.falsy_opt prospectId || Js.falsy_opt email
           then ret Unsub_400_malformed_token
           else
             let prospectId := match prospectId with Some s => s | None => "" end in
             let email := match email with Some s => s | None => "" end in
             prospectDoc <- get_prospect prospectId ;;
             match prospectDoc with
             | None =>
                 addUnsubscribe email None ;;
                 ret (Unsub_200_confirmation email)
             | Some prospect =>
                 if email_differs (p_discoveredEmail prospect) email
                 then ret Unsub_400_email_mismatch
                 else
                   addUnsubscribe email (Some (p_jobId prospect)) ;;
                   update_prospect prospectId set_prospect_unsubscribed ;;
                   ret (Unsub_200_confirmation email)
             end) w with
    | (Ok r, w1) => (r, w1)
    | (Throw _, w1) => (Unsub_500, w1)
    end.

(* ================================================================== *)
(** ** Sanitizers ([src/lib/utils/sanitize.ts]) and job creation ([POST /api/jobs]) *)

Inductive JsNumber : Type :=
| NaN
| PosInfinity
| NegInfinity
| Fin (q : Q).

Definition Qltb (a b : Q) : bool := negb (Qle_bool b a).

(** [Math.round(x)] of a finite number: the nearest integer, halves upwards. *)
Definition Math_round (q : Q) : Z := Qfloor (q + (1 # 2)).

(** [sanitizeRadius(radiusKm)]. *)
Definition sanitizeRadius (radiusKm : JsNumber) : Z :=
  match radiusKm with
  | NaN => 5
  | NegInfinity => 5
  | PosInfinity => 50
  | Fin radius =>
      if Qltb radius 1 then 5
      else if Qltb 50 radius then 50
      else Math_round radius
  end.

(** [sanitizeMaxBusinesses(max)]. *)
Definition sanitizeMaxBusinesses (max : JsNumber) : Z :=
  match max with
  | NaN => 10
  | NegInfinity => 10
  | PosInfinity => 1000
  | Fin maxNum =>
      if Qltb maxNum 1 then 10
      else if Qltb 1000 maxNum then 1000
      else Math_round maxNum
  end.

(** [/^\d{5}(-\d{4})?$/.test(s)]. *)
Definition zipRegex_test (s : string) : bool :=
  let n := String.length s in
  ((n =? 5)%nat && Js.all_chars Js.is_digit s)
  || ((n =? 10)%nat
      && Js.all_chars Js.is_digit (String.substring 0 5 s)
      && (String.substring 5 1 s =? "-")
      && Js.all_chars Js.is_digit (String.substring 6 4 s)).

Definition one_of (chars : string) (c : ascii) : bool :=
  existsb (Ascii.eqb c) (list_ascii_of_string chars).

(** [sanitizeLocationInput(input)]. *)
Definition sanitizeLocationInput (input : string) : option string :=
  if Js.falsy input then None
  else
    let cleaned := Js.trim input in
    if zipRegex_test cleaned then Some cleaned
    else if (2 <=? String.length cleaned)%nat && (String.length cleaned <=? 100)%nat
    then Some (Js.trim (Js.keep_chars
                 (fun c => Js.is_word c || Js.is_space c || one_of ",.'-" c) cleaned))
    else None.

(** [sanitizeNiche(niche)]. *)
Definition sanitizeNiche (niche : string) : option string :=
  if Js.falsy niche then None
  else
    let cleaned := Js.trim niche in
    if (String.length cleaned <? 2)%nat || (50 <? String.length cleaned)%nat then None
    else Some (Js.trim (Js.keep_chars
                 (fun c => Js.is_word c || Js.is_space c || Ascii.eqb c "-") cleaned)).

(** [sanitizeCountryCode(country)].  A text that holds a character above
    U+00FF does not match [/^[A-Z]{2}$/]. *)
Definition sanitizeCountryCode (country : string) : string :=
  if Js.falsy country then "US"
  else
    match Js.toUpperCase (Js.trim country) with
    | Some cleaned =>
        if (String.length cleaned =? 2)%nat && Js.all_chars Js.is_upper cleaned
        then cleaned else "US"
    | None => "US"
    end.

(** The body of a job creation request, field by field ([None]: absent). *)
Record CreateJobRequest : Type := mkCreateJobRequest {
  req_niche : option string;
  req_targetZip : option string;
  req_targetCountry : option string;
  req_radiusKm : option JsNumber;
  req_maxBusinesses : option JsNumber
}.

(** [!n] for an optional number: absent, zero or NaN. *)
Definition falsy_num (n : option JsNumber) : bool :=
  match n with
  | None => true
  | Some NaN => true
  | Some (Fin q) => Qeq_bool q 0
  | Some _ => false
  end.

Inductive JobsResponse : Type :=
| Jobs_400_missing_fields
| Jobs_400_invalid_niche
| Jobs_400_invalid_targetZip
| Jobs_201 (jobId : string)
| Jobs_500.

Definition INTERNAL_USER_ID : string := "system_user_v1".

(** [POST(request)] of the jobs route; [body] is [await request.json()]. *)
Definition jobs_POST (P : Platform) (body : outcome CreateJobRequest) (w : World)
  : JobsResponse * World :=
  match (b <- lift body ;;
         if Js.falsy_opt (req_niche b) || Js.falsy_opt (req_targetZip b)
            || falsy_num (req_radiusKm b) || falsy_num (req_maxBusinesses b)
         then ret Jobs_400_missing_fields
         else
           match sanitizeNiche (match req_niche b with Some s => s | None => "" end) with
           | None => ret Jobs_400_invalid_niche
           | Some sanitizedNiche =>
             if Js.falsy sanitizedNiche then ret Jobs_400_invalid_niche
             else
               match sanitizeLocationInput
                       (match req_targetZip b with Some s => s | None => "" end) with
               | None => ret Jobs_400_invalid_targetZip
               | Some sanitizedZip =>
                 if Js.falsy sanitizedZip then ret Jobs_400_invalid_targetZip
                 else
                   let sanitizedCountry :=
                     sanitizeCountryCode
                       (match req_targetCountry b with Some s => s | None => "US" end) in
                   let sanitizedRadius :=
                     sanitizeRadius (match req_radiusKm b with Some n => n | None => NaN end) in
                   let sanitizedMax :=
                     sanitizeMaxBusinesses
                       (match req_maxBusinesses b with Some n => n | None => NaN end) in
                   jobId <- createJob P
                     (mkJob "" false INTERNAL_USER_ID draft 0 0 sanitizedNiche sanitizedZip
                            sanitizedCountry sanitizedRadius sanitizedMax zero_stats) ;;
                   ret (Jobs_201 jobId)
               end
           end) w with
  | (Ok r, w1) => (r, w1)
  | (Throw _, w1) => (Jobs_500, w1)
  end.

(* ================================================================== *)
(** ** The other sanitizers of [src/lib/utils/sanitize.ts] *)

(** The double quote, which a string literal cannot hold undoubled. *)
Definition dquote : ascii := ascii_of_nat 34.
Definition backslash : ascii := ascii_of_nat 92.

(** [s.includes(c)] for one character. *)
Definition includes_char (c : ascii) (s : string) : bool :=
  existsb (Ascii.eqb c) (list_ascii_of_string s).

(** Whether a [>] stands somewhere in the text. *)
Definition has_gt (s : string) : bool := includes_char ">" s.

(** [s.replace(/<[^>]*>/g, '')]: a [<] opens a match when a [>] follows
    somewhere, and the match ends at the first one; [inside] says that the
    scan is within a match. *)
Fixpoint strip_tags_from (inside : bool) (s : string) : string :=
  match s with
  | EmptyString => EmptyString
  | String a r =>
      if inside then
        if Ascii.eqb a ">" then strip_tags_from false r else strip_tags_from true r
      else if Ascii.eqb a "<" then
        if has_gt r then strip_tags_from true r else s
      else String a (strip_tags_from false r)
  end.

Definition strip_tags (s : string) : string := strip_tags_from false s.

(** [sanitizeBusinessName(name)]. *)
Definition sanitizeBusinessName (name : string) : string :=
  if Js.falsy name then "Business"
  else
    let cleaned := Js.trim name in
    if (100 <? String.length cleaned)%nat
    then (Js.substring0 97 cleaned ++ "...")%string
    else
      let sanitized :=
        Js.keep_chars (fun c => negb (Ascii.eqb c dquote || Ascii.eqb c backslash))
                      (strip_tags cleaned) in
      if Js.falsy sanitized then "Business" else sanitized.

(** The entity [escapeHtml] writes for one character. *)
Definition escape_char (c : ascii) : string :=
  if Ascii.eqb c "&" then "&amp;"
  else if Ascii.eqb c "<" then "&lt;"
  else if Ascii.eqb c ">" then "&gt;"
  else if Ascii.eqb c dquote then "&quot;"
  else if Ascii.eqb c "'" then "&#039;"
  else String c EmptyString.

(** [escapeHtml(text)], of the sanitizers and of the unsubscribe route. *)
Fixpoint escapeHtml (text : string) : string :=
  match text with
  | EmptyString => EmptyString
  | String c r => (escape_char c ++ escapeHtml r)%string
  end.

Module Sanitize.

(** [domain.includes('.') && domain.split('.').pop()?.length >= 2]. *)
Definition has_tld (domain : string) : bool :=
  includes_char "." domain
  && (2 <=? String.length (last (Js.split "." domain) EmptyString))%nat.

(** [extractDomain(url)] of the sanitizers: the domain must have a top-level
    part of two characters or more. *)
Definition extractDomain (P : Platform) (url : string) : option string :=
  if Js.falsy url then None
  else
    let withProtocol := if Js.startsWith "http" url then url else ("https://" ++ url)%string in
    match new_URL P withProtocol with
    | Some parsed =>
        let domain := strip_www (Js.toLowerCase (url_hostname parsed)) in
        if has_tld domain then Some domain else None
    | None => None
    end.

(** [cleanWebsiteUrl(url)] of the sanitizers. *)
Definition cleanWebsiteUrl (P : Platform) (url : string) : option string :=
  if Js.falsy url then None
  else match extractDomain P url with
       | Some domain => if Js.falsy domain then None else Some ("https://" ++ domain)%string
       | None => None
       end.

End Sanitize.

(* ================================================================== *)
(** ** The job routes: list, detail and status *)

(** [Partial<Job['stats']>]: the counters a status update overwrites. *)
Record PartialStats : Type := mkPartialStats {
  ps_found : option Z;
  ps_withWebsite : option Z;
  ps_withEmail : option Z;
  ps_sent : option Z;
  ps_bounced : option Z;
  ps_unsubscribed : option Z
}.

Definition or_kept (o : option Z) (z : Z) : Z :=
  match o with Some v => v | None => z end.

(** The [stats.key] fields of the update: the counters named are replaced,
    the others stay. *)
Definition stats_overwrite (stats : PartialStats) (s : Stats) : Stats :=
  mkStats (or_kept (ps_found stats) (s_found s))
          (or_kept (ps_withWebsite stats) (s_withWebsite s))
          (or_kept (ps_withEmail stats) (s_withEmail s))
          (or_kept (ps_sent stats) (s_sent s))
          (or_kept (ps_bounced stats) (s_bounced s))
          (or_kept (ps_unsubscribed stats) (s_unsubscribed s)).

(** [updateJobStatus(jobId, status, stats)] with its optional third
    argument. *)
Definition updateJobStatus_stats (jobId : option string) (status : JobStatus)
           (stats : option PartialStats) : M unit :=
  key <- doc_path jobId ;;
  update_job key (fun now j =>
    match stats with
    | Some s => set_job_stats (stats_overwrite s) now (set_job_status status now j)
    | None => set_job_status status now j
    end).

(** [validStatuses.includes(status)] of the status route, with the status
    it names. *)
Definition parse_JobStatus (s : string) : option JobStatus :=
  if s =? "draft" then Some draft
  else if s =? "prospecting" then Some prospecting
  else if s =? "discovering" then Some discovering
  else if s =? "sending" then Some sending
  else if s =? "completed" then Some completed
  else if s =? "failed" then Some failed
  else None.

(** The body of a status update: [body.status] when it is a string, and
    [body.stats]. *)
Record StatusBody : Type := mkStatusBody {
  sb_status : option string;
  sb_stats : option PartialStats
}.

Inductive StatusResponse : Type :=
| Status_400_invalid_jobId
| Status_400_invalid_status
| Status_200 (status : JobStatus)
| Status_500.

(** [PATCH(request, { params })] of [/api/jobs/[jobId]/status]. *)
Definition status_PATCH (jobId : string) (body : outcome StatusBody) (w : World)
  : StatusResponse * World :=
  match (if Js.falsy jobId then ret Status_400_invalid_jobId
         else
           b <- lift body ;;
           match sb_status b with
           | None => ret Status_400_invalid_status
           | Some text =>
               match parse_JobStatus text with
               | None => ret Status_400_invalid_status
               | Some status =>
                   updateJobStatus_stats (Some jobId) status (sb_stats b) ;;
                   ret (Status_200 status)
               end
           end) w with
  | (Ok r, w1) => (r, w1)
  | (Throw _, w1) => (Status_500, w1)
  end.

Inductive JobResponse : Type :=
| Job_400_invalid_jobId
| Job_404
| Job_200 (job : Job)
| Job_500.

(** [GET(request, { params })] of [/api/jobs/[jobId]]. *)
Definition job_GET (jobId : string) (w : World) : JobResponse * World :=
  match (if Js.falsy jobId then ret Job_400_invalid_jobId
         else
           job <- getJob jobId ;;
           match job with
           | None => ret Job_404
           | Some job => ret (Job_200 job)
           end) w with
  | (Ok r, w1) => (r, w1)
  | (Throw _, w1) => (Job_500, w1)
  end.

Inductive JobsListResponse : Type :=
| JobsList_200 (jobs : list Job) (count : nat)
| JobsList_500.

(** [GET()] of [/api/jobs]: the dashboard list. *)
Definition jobs_GET (w : World) : JobsListResponse * World :=
  match (jobs <- getAllJobs ;; ret (JobsList_200 jobs (List.length jobs))) w with
  | (Ok r, w1) => (r, w1)
  | (Throw _, w1) => (JobsList_500, w1)
  end.

(* ================================================================== *)
(** ** Provider events ([handleSendGridEvent] of [src/lib/services/sendgrid.ts]) *)

(** The fields of an event the handler reads; [None] is [undefined]. *)
Record SendGridEvent : Type := mkEvent {
  ev_email : option string;
  ev_event : option string;
  ev_sg_message_id : option string;
  ev_reason : option string
}.

(** [sg_message_id?.split('.')[0]]. *)
Definition event_messageId (sg_message_id : option string) : option string :=
  match sg_message_id with
  | Some s => nth_error (Js.split "." s) 0
  | None => None
  end.

(** The query [where('sendGridMessageId', '==', messageId).limit(1)]. *)
Definition find_by_messageId (messageId : string) : M (option Prospect) :=
  store_call (fun w =>
    (Ok (find (fun p => match p_sendGridMessageId p with
                        | Some m => m =? messageId
                        | None => false
                        end) (w_prospects w)), w)).

(** [{ unsubscribedAt: new Date(), updatedAt: new Date() }]. *)
Definition set_prospect_unsubscribedAt (now : nat) (p : Prospect) : Prospect :=
  mkProspect (p_id p) (p_id_stored p) (p_jobId p) (p_status p) (p_createdAt p) now (p_name p) (p_address p)
             (p_website p) (p_phone p) (p_rating p) (p_reviewCount p) (p_placeId p)
             (p_discoveredEmail p) (p_emailSource p) (p_sendGridMessageId p)
             (p_sentAt p) (p_bouncedAt p) (p_bounceReason p) (Some now).

(** [reason?.substring(0, 500) || eventType]. *)
Definition bounce_reason (reason : option string) (eventType : string) : string :=
  or_default (option_map (Js.substring0 500) reason) eventType.

(** [handleSendGridEvent(eventData)]. *)
Definition handleSendGridEvent (eventData : SendGridEvent) : M unit :=
  let messageId := event_messageId (ev_sg_message_id eventData) in
  if Js.falsy_opt messageId || Js.falsy_opt (ev_email eventData) then ret tt
  else
    let messageId := match messageId with Some m => m | None => "" end in
    let email := match ev_email eventData with Some e => e | None => "" end in
    prospectSnap <- find_by_messageId messageId ;;
    match prospectSnap with
    | None => ret tt
    | Some prospectDoc =>
        let prospectId := p_id prospectDoc in
        match ev_event eventData with
        | Some eventType =>
            if (eventType =? "bounce") || (eventType =? "dropped") then
              updateProspectStatus (Some prospectId) bounced (Some email) (Some inferred) ;;
              update_prospect prospectId
                (set_prospect_bounced (Some (bounce_reason (ev_reason eventData) eventType)))
            else if eventType =? "unsubscribe" then
              addUnsubscribe email (Some (p_jobId prospectDoc)) ;;
              updateProspectStatus (Some prospectId) unsubscribed (Some email)
                                   (Some inferred) ;;
              update_prospect prospectId set_prospect_unsubscribedAt
            else ret tt
        | None => ret tt
        end
    end.

(* ================================================================== *)
(** ** A reference platform, for running the model on concrete inputs *)

Module Ref.

Definition b64_alphabet : string :=
  "ABCDEFGHIJKLMNOPQRSTUVWXYZabcdefghijklmnopqrstuvwxyz0123456789+/".

Definition b64_char (n : nat) : ascii :=
  match String.get n b64_alphabet with Some c => c | None => "="%char end.

Fixpoint index_of (c : ascii) (s : string) : option nat :=
  match s with
  | EmptyString => None
  | String a r => if Ascii.eqb a c then Some 0%nat else option_map S (index_of c r)
  end.

(** The 6-bit values of the leading run of alphabet characters. *)
Fixpoint sextets (s : string) : list nat :=
  match s with
  | EmptyString => []
  | String a r =>
      match index_of a b64_alphabet with
      | Some n => n :: sextets r
      | None => []
      end
  end.

Fixpoint bytes_of_sextets (fuel : nat) (l : list nat) : list nat :=
  match fuel with
  | O => []
  | S k =>
      match l with
      | a :: b :: c :: d :: r =>
          (a * 4 + b / 16) :: ((b mod 16) * 16 + c / 4) :: ((c mod 4) * 64 + d)
          :: bytes_of_sextets k r
      | [a; b; c] => [a * 4 + b / 16; (b mod 16) * 16 + c / 4]
      | [a; b] => [a * 4 + b / 16]
      | _ => []
      end
  end%nat.

Definition base64_decode (s : string) : string :=
  let l := sextets s in
  string_of_list_ascii (map ascii_of_nat (bytes_of_sextets (List.length l) l)).

Fixpoint chars_of_bytes (fuel : nat) (l : list nat) : list ascii :=
  match fuel with
  | O => []
  | S k =>
      match l with
      | a :: b :: c :: r =>
          b64_char (a / 4) :: b64_char ((a mod 4) * 16 + b / 16)
          :: b64_char ((b mod 16) * 4 + c / 64) :: b64_char (c mod 64)
          :: chars_of_bytes k r
      | [a; b] =>
          [b64_char (a / 4); b64_char ((a mod 4) * 16 + b / 16);
           b64_char ((b mod 16) * 4); "="%char]
      | [a] => [b64_char (a / 4); b64_char ((a mod 4) * 16); "="%char; "="%char]
      | [] => []
      end
  end%nat.

Definition base64_encode (s : string) : string :=
  let l := map nat_of_ascii (list_ascii_of_string s) in
  string_of_list_ascii (chars_of_bytes (S (List.length l)) l).

(** The text before the first character of the class, and the rest. *)
Fixpoint span_until (stop : ascii -> bool) (s : string) : string * string :=
  match s with
  | EmptyString => (EmptyString, EmptyString)
  | String a r =>
      if stop a then (EmptyString, s)
      else let (b, t) := span_until stop r in (String a b, t)
  end.

(** A small reading of [scheme://host:port/path] addresses: the protocol
    with its colon and the lower-case host name; no result without [://],
    without a host, or with a space in the host. *)
Definition new_URL (s : string) : option ParsedUrl :=
  match Js.find_first "://" s with
  | None => None
  | Some (scheme, rest) =>
      let authority := fst (span_until (fun c => one_of "/?#" c) rest) in
      let host := fst (span_until (fun c => Ascii.eqb c ":") authority) in
      if Js.falsy scheme || Js.falsy host || negb (Js.all_chars (fun c => negb (Js.is_space c)) host)
      then None
      else Some (mkUrl (Js.toLowerCase scheme ++ ":") (Js.toLowerCase host))
  end.

Definition decimal_digit (n : nat) : ascii := ascii_of_nat (48 + n mod 10).

(** Generated ids: [doc] followed by the rank in three digits. *)
Definition auto_id (n : nat) : string :=
  String "d" (String "o" (String "c"
    (String (decimal_digit (n / 100)) (String (decimal_digit (n / 10))
      (String (decimal_digit n) EmptyString))))).

(** A platform whose providers are given, with the key configured and no
    production checks. *)
Definition platform
           (geocode : string -> outcome GeocodeData)
           (searchText : string -> Q -> Q -> Z -> Z -> outcome PlacesResponse)
           (nextPage : string -> Z -> outcome PlacesResponse)
           (send : nat -> MailMsg -> outcome string) : Platform :=
  mkPlatform new_URL base64_encode base64_decode auto_id
             None None None (Some "key") None
             geocode searchText nextPage send.

Definition geocode_ok (_ : string) : outcome GeocodeData :=
  Ok (mkGeocodeData "OK" (Some [mkGeo 0 0 "somewhere"])).

Definition no_places (_ : string) (_ _ : Q) (_ _ : Z) : outcome PlacesResponse :=
  Ok (mkPlacesResponse true (Some []) None).

Definition no_next (_ : string) (_ : Z) : outcome PlacesResponse :=
  Ok (mkPlacesResponse true None None).

Definition send_ok (n : nat) (_ : MailMsg) : outcome string := Ok (auto_id n).

(** Every provider answers, the mail provider accepts every message. *)
Definition quiet : Platform := platform geocode_ok no_places no_next send_ok.

Definition empty_world : World := mkWorld [] [] [] 0 0 [] [].

End Ref.

(* ================================================================== *)
(** ** Specification vocabulary *)

(** The edges of the job pipeline. *)
Inductive edge : JobStatus -> JobStatus -> Prop :=
| edge_prospecting : edge draft prospecting
| edge_discovering : edge prospecting discovering
| edge_sending : edge discovering sending
| edge_completed : edge sending completed
| edge_failed : forall s, s <> completed -> s <> failed -> edge s failed.

(** Reachability along the edges, in any number of steps. *)
Definition follows_pipeline : JobStatus -> JobStatus -> Prop :=
  clos_refl_trans JobStatus edge.

(** The position of a status in the pipeline; both terminal statuses are last. *)
Definition stage (s : JobStatus) : nat :=
  match s with
  | draft => 0
  | prospecting => 1
  | discovering => 2
  | sending => 3
  | completed => 4
  | failed => 4
  end.

Definition terminal (s : JobStatus) : bool :=
  match s with
  | completed | failed => true
  | _ => false
  end.

(** The statuses the handler of a job found in status [s] may write. *)
Definition statuses_written (s : JobStatus) : list JobStatus :=
  match s with
  | draft => [prospecting; discovering; failed]
  | prospecting => [discovering; failed]
  | discovering => [sending; failed]
  | sending => [completed; failed]
  | completed | failed => []
  end.

(** What one tick may do to the status of a job. *)
Definition tick_step (s s' : JobStatus) : Prop :=
  s' = s \/ In s' (statuses_written s).

(** The jobs a tick loads, and those among them it processes. *)
Definition loaded_jobs (w : World) : list Job :=
  firstn 50 (orderBy_createdAt_desc (w_jobs w)).

Definition active_jobs (w : World) : list Job := filter is_active (loaded_jobs w).

(** The job records after a tick, against those before it. *)
Definition tick_moved (w w' : World) : Prop :=
  Forall2 (fun a b => job_id b = job_id a /\ tick_step (job_status a) (job_status b))
          (w_jobs w) (w_jobs w').

(** The same over any number of ticks. *)
Definition pipeline_moved (w w' : World) : Prop :=
  Forall2 (fun a b => job_id b = job_id a /\ follows_pipeline (job_status a) (job_status b))
          (w_jobs w) (w_jobs w').

(** A run of ticks, each with its platform and its authorization header. *)
Definition run_ticks (ticks : list (Platform * option string)) (w : World) : World :=
  fold_left (fun w t => snd (cron_GET (fst t) (snd t) w)) ticks w.

(** A property of the world after a computation, relative to the world
    before it, whatever the outcome. *)
Definition post {A} (R : World -> World -> Prop) (m : M A) : Prop :=
  forall w, R w (snd (m w)).

(** Relations that every step can be chained through: reflexive, transitive
    and kept when a store call uses up an entry of the fault plan. *)
Class Chained (R : World -> World -> Prop) : Prop := {
  chained_refl : forall w, R w w;
  chained_trans : forall a b c, R a b -> R b c -> R a c;
  chained_faults : forall w b fs, w_faults w = b :: fs -> R w (set_faults fs w)
}.

(** Frames. *)
Definition same_jobs (w w' : World) : Prop := w_jobs w' = w_jobs w.
Definition same_prospects (w w' : World) : Prop := w_prospects w' = w_prospects w.
Definition same_ledger (w w' : World) : Prop := w_unsubscribes w' = w_unsubscribes w.
Definition same_outbox (w w' : World) : Prop := w_outbox w' = w_outbox w.

(** The job records after a step, against those before it: ids stay, only
    the records of job [jobId] change, and their status stays or becomes
    one of [written]. *)
Definition job_moved (jobId : string) (written : list JobStatus) (a b : Job) : Prop :=
  job_id b = job_id a
  /\ (job_id a <> jobId -> b = a)
  /\ (job_status b = job_status a \/ In (job_status b) written).

Definition jobs_moved (jobId : string) (written : list JobStatus) (w w' : World) : Prop :=
  Forall2 (job_moved jobId written) (w_jobs w) (w_jobs w').


(** What no step of the engine undoes: a store that has stopped failing, the
    job ids, the prospect ids already there. *)
Definition stable (w w' : World) : Prop :=
  (w_faults w = [] -> w_faults w' = [])
  /\ map job_id (w_jobs w') = map job_id (w_jobs w)
  /\ incl (map p_id (w_prospects w)) (map p_id (w_prospects w')).

(** The owners of the prospect records stay. *)
Definition same_owners (w w' : World) : Prop :=
  map p_jobId (w_prospects w') = map p_jobId (w_prospects w).

(** The ledger entry [addUnsubscribe] writes for a well-formed address. *)
Definition ledger_entry (email domain : string) (now : nat) (jobId : option string)
  : Unsubscribe :=
  mkUnsubscribe "" (Js.toLowerCase email) domain now jobId.

(** [isUnsubscribed], on the ledger itself: the address or its domain is
    recorded.  [None] when the address has no [@]. *)
Definition suppressed (ledger : list Unsubscribe) (email : string) : option bool :=
  match email_domain email with
  | Ok domain => Some (ledger_has_email ledger email || ledger_has_domain ledger domain)
  | Throw _ => None
  end.

(** The first address of a list that the ledger does not suppress. *)
Fixpoint first_unsuppressed (ledger : list Unsubscribe) (candidates : list string)
  : option string :=
  match candidates with
  | [] => None
  | email :: rest =>
      match suppressed ledger email with
      | Some false => Some email
      | _ => first_unsuppressed ledger rest
      end
  end.

(** The six local parts, in priority order. *)
Definition LOCAL_PARTS : list string :=
  ["info"; "contact"; "hello"; "admin"; "support"; "business"].

(** The candidates as the specification words them: each local part, an
    [@], the domain. *)
Definition candidates_on (domain : string) : list string :=
  map (fun l => (l ++ "@" ++ domain)%string) LOCAL_PARTS.

Definition no_dollar (s : string) : bool :=
  Js.all_chars (fun c => negb (Ascii.eqb c "$")) s.

(** A ledger as [addUnsubscribe] builds it: each entry carries the domain of
    its own address. *)
Definition recorded_ledger (ledger : list Unsubscribe) : Prop :=
  Forall (fun u => email_domain (u_email u) = Ok (u_domain u)) ledger.

(** Pagination as the specification words it: follow the continuation
    tokens, accumulating, until [max] businesses are there or no token
    remains; then truncate. *)
Fixpoint follow_pages (P : Platform) (fuel : nat) (max : Z)
         (acc : list PlacesBusiness) (token : option string) : list PlacesBusiness :=
  match fuel, truthy_string token with
  | S k, Some t =>
      if (Z.of_nat (List.length acc) <? max)%Z
      then match places_nextPage P t (Z.min (max - Z.of_nat (List.length acc)) 20) with
           | Ok res =>
               match res_ok res, res_places res with
               | true, Some places =>
                   follow_pages P k max (acc ++ map (clean_place P) places)
                                (res_nextPageToken res)
               | _, _ => acc
               end
           | Throw _ => acc
           end
      else acc
  | _, _ => acc
  end.

(** The characters that [sanitizeNiche] keeps, and those that
    [sanitizeLocationInput] keeps. *)
Definition niche_char (c : ascii) : bool :=
  Js.is_word c || Js.is_space c || Ascii.eqb c "-".

Definition location_char (c : ascii) : bool :=
  Js.is_word c || Js.is_space c || one_of ",.'-" c.

(** No [<] of the text is followed, anywhere after it, by a [>]: the text
    holds no tag. *)
Fixpoint no_tag (s : string) : bool :=
  match s with
  | EmptyString => true
  | String a r => (if Ascii.eqb a "<" then negb (has_gt r) else true) && no_tag r
  end.

(** The four characters that open or close markup and attribute values. *)
Definition markup_char (c : ascii) : bool :=
  Ascii.eqb c "<" || Ascii.eqb c ">" || Ascii.eqb c dquote || Ascii.eqb c "'".

(** Reading back the five entities of [escapeHtml]; [skip] counts the
    characters of an entity still to pass over. *)
Fixpoint unescapeHtml_from (skip : nat) (s : string) : string :=
  match s with
  | EmptyString => EmptyString
  | String c r =>
      match skip with
      | S k => unescapeHtml_from k r
      | O =>
          if Ascii.eqb c "&" then
            if String.prefix "amp;" r then String "&" (unescapeHtml_from 4 r)
            else if String.prefix "lt;" r then String "<" (unescapeHtml_from 3 r)
            else if String.prefix "gt;" r then String ">" (unescapeHtml_from 3 r)
            else if String.prefix "quot;" r then String dquote (unescapeHtml_from 5 r)
            else if String.prefix "#039;" r then String "'" (unescapeHtml_from 5 r)
            else String c (unescapeHtml_from 0 r)
          else String c (unescapeHtml_from 0 r)
      end
  end.

Definition unescapeHtml (s : string) : string := unescapeHtml_from 0 s.
(** The first character of a text, when there is one, is not white space. *)
Definition starts_clean (s : string) : Prop :=
  match s with
  | EmptyString => True
  | String a _ => Js.is_space a = false
  end.

(** Newest first: [b] was created no later than [a]. *)
Definition newer_first (a b : Job) : Prop := (job_createdAt b <= job_createdAt a)%nat.

(** The fields of a job that a status update leaves alone. *)
Definition same_campaign (j j' : Job) : Prop :=
  job_id j' = job_id j /\ job_userId j' = job_userId j
  /\ job_createdAt j' = job_createdAt j
  /\ job_niche j' = job_niche j /\ job_targetZip j' = job_targetZip j
  /\ job_targetCountry j' = job_targetCountry j
  /\ job_radiusKm j' = job_radiusKm j /\ job_maxBusinesses j' = job_maxBusinesses j.


(** The ledger after a step holds the entries it held, in order, and
    possibly more at its end. *)
Definition ledger_extended (w w' : World) : Prop :=
  exists added, w_unsubscribes w' = w_unsubscribes w ++ added.

(** The prospect records after a step, against those before it: only the
    records with the given id change, and they change as [change] says. *)
Definition prospects_changed (prospectId : string) (change : Prospect -> Prospect -> Prop)
           (w w' : World) : Prop :=
  Forall2 (fun p p' => if p_id p =? prospectId then change p p' else p' = p)
          (w_prospects w) (w_prospects w').

(** The fields of a prospect that came from the business finder, with its
    id and its owner. *)
Definition same_listing (p p' : Prospect) : Prop :=
  p_id p' = p_id p /\ p_jobId p' = p_jobId p /\ p_createdAt p' = p_createdAt p
  /\ p_name p' = p_name p /\ p_address p' = p_address p /\ p_website p' = p_website p
  /\ p_phone p' = p_phone p /\ p_rating p' = p_rating p
  /\ p_reviewCount p' = p_reviewCount p /\ p_placeId p' = p_placeId p.

(** The test of the query by message id. *)
Definition carries_messageId (messageId : string) (p : Prospect) : bool :=
  match p_sendGridMessageId p with
  | Some m => m =? messageId
  | None => false
  end.

(** An event type that the handler acts on. *)
Definition acted_on (eventType : string) : bool :=
  (eventType =? "bounce") || (eventType =? "dropped") || (eventType =? "unsubscribe").

(** What the discovery computes for a prospect against a ledger: the
    address, when there is one, and the status. *)
Definition discovery_of (P : Platform) (ledger : list Unsubscribe) (prospect : Prospect)
  : option string * ProspectStatus :=
  if Js.falsy_opt (p_website prospect) then (None, no_website)
  else match extractDomain P (match p_website prospect with Some u => u | None => "" end) with
       | None => (None, no_email)
       | Some domain =>
           if Js.falsy domain then (None, no_email)
           else match first_unsuppressed ledger (generateInferredEmails domain) with
                | Some email => (Some email, email_found)
                | None => (None, no_email)
                end
       end.

Definition discovery_result (P : Platform) (ledger : list Unsubscribe) (prospect : Prospect)
  : DiscoveryResult :=
  mkDiscovery (p_dot_id prospect) (fst (discovery_of P ledger prospect))
              (snd (discovery_of P ledger prospect)).

(** The update of the discovering stage for one result. *)
Definition record_result (now : nat) (r : DiscoveryResult) (q : Prospect) : Prospect :=
  set_prospect_status (d_status r) (truthy_string (d_discoveredEmail r)) (Some inferred) now q.

(** The results that carry an address. *)
Definition count_with_email (results : list DiscoveryResult) : Z :=
  Z.of_nat (List.length (filter (fun r => negb (Js.falsy_opt (d_discoveredEmail r))) results)).

(** The batch of the discovering stage and the batch of the sending stage. *)
Definition discovery_batch (jobId : string) (w : World) : list Prospect :=
  firstn EMAIL_DISCOVERY_BATCH_SIZE
         (filter (fun p => (p_jobId p =? jobId) && ProspectStatus_eqb (p_status p) found)
                 (w_prospects w)).

Definition sending_batch (jobId : string) (w : World) : list Prospect :=
  firstn SENDING_BATCH_SIZE
         (filter (fun p => (p_jobId p =? jobId) && ProspectStatus_eqb (p_status p) email_found)
                 (w_prospects w)).

(** The counters of a job other than the one named stay. *)
Definition other_counters_kept (f : StatField) (s s' : Stats) : Prop :=
  (f = F_found \/ s_found s' = s_found s)
  /\ (f = F_withWebsite \/ s_withWebsite s' = s_withWebsite s)
  /\ (f = F_withEmail \/ s_withEmail s' = s_withEmail s)
  /\ (f = F_sent \/ s_sent s' = s_sent s)
  /\ (f = F_bounced \/ s_bounced s' = s_bounced s)
  /\ (f = F_unsubscribed \/ s_unsubscribed s' = s_unsubscribed s).

(* ================================================================== *)
(** ** Concrete worlds, for the examples and counterexamples *)

Module Scenario.

(** Documents as the TypeScript interfaces declare them, put into the
    store with an [id] field that repeats the key. *)
Definition prospect (id jobId : string) (status : ProspectStatus) (website email : option string)
  : Prospect :=
  mkProspect id true jobId status 0 0 "Foo Bakery" "1 Main St" website None None None
             "place-1" email inferred None None None None None.

Definition job (id : string) (status : JobStatus) (createdAt : nat) : Job :=
  mkJob id true "system_user_v1" status createdAt createdAt "bakery" "10001" "US" 5 3
        zero_stats.

(** The same documents as the repository itself writes them: without an
    [id] field. *)
Definition written_job (id : string) (status : JobStatus) (createdAt : nat) : Job :=
  mkJob id false "system_user_v1" status createdAt createdAt "bakery" "10001" "US" 5 3
        zero_stats.

Definition written_prospect (id jobId : string) (status : ProspectStatus)
           (website email : option string) : Prospect :=
  mkProspect id false jobId status 0 0 "Foo Bakery" "1 Main St" website None None None
             "place-1" email inferred None None None None None.

Definition world (jobs : list Job) (prospects : list Prospect) (ledger : list Unsubscribe)
           (faults : list bool) : World :=
  mkWorld jobs prospects ledger 0 0 faults [].

(** A prospect of job [j1] whose website is [http://foo.com]. *)
Definition foo : Prospect := prospect "p1" "j1" found (Some "http://foo.com") None.

(** One job in [discovering] with the prospect [foo], and an empty ledger. *)
Definition discovering_foo : World := world [job "j1" discovering 1] [foo] [] [].

(** A ledger entry for the address [info@foo.com] alone, as no
    [addUnsubscribe] writes it: its domain field names another domain. *)
Definition address_only : list Unsubscribe :=
  [mkUnsubscribe "" "info@foo.com" "lists.example" 0 None].

(** The ledger after [addUnsubscribe] has recorded [info@foo.com] for the
    job [j1] on an empty store. *)
Definition after_unsubscribe : World :=
  snd (addUnsubscribe "info@foo.com" (Some "j1") (world [] [] [] [])).

(** A prospect whose website has a host name with two dollar signs. *)
Definition dollars : Prospect := prospect "p2" "j1" found (Some "http://a$$b.com") None.

(** The creation request with a negative radius and a negative cap. *)
Definition negative_sizes : CreateJobRequest :=
  mkCreateJobRequest (Some "bakery") (Some "10001") None
                     (Some (Fin (inject_Z (-3)))) (Some (Fin (inject_Z (-3)))).

(** A prospect of job [j1] with the discovered address [info@foo.com], and
    the world of a job in [sending] that holds it. *)
Definition ready : Prospect :=
  prospect "p1" "j1" email_found (Some "http://foo.com") (Some "info@foo.com").

Definition sending_ready : World := world [job "j1" sending 1] [ready] [] [].


(** A mail provider that rejects every message with the given status code. *)
Definition rejecting (code : Z) : Platform :=
  Ref.platform Ref.geocode_ok Ref.no_places Ref.no_next
               (fun _ _ => Throw (mkError (Some "rejected") (Some code) None)).

(** A Places provider with three pages of twenty businesses: the first
    search carries the token [t1], the page of [t1] the token [t2], the page
    of [t2] none. *)
Definition page (k : nat) : list RawPlace :=
  map (fun i => mkRawPlace (Some "Shop") (Some "1 Main St") None None None None
                           (Ref.auto_id (20 * k + i)))
      (seq 0 20).

Definition paged_search (_ : string) (_ _ : Q) (_ _ : Z) : outcome PlacesResponse :=
  Ok (mkPlacesResponse true (Some (page 0)) (Some "t1")).

Definition paged_next (token : string) (_ : Z) : outcome PlacesResponse :=
  if token =? "t1" then Ok (mkPlacesResponse true (Some (page 1)) (Some "t2"))
  else if token =? "t2" then Ok (mkPlacesResponse true (Some (page 2)) None)
  else Ok (mkPlacesResponse true None None).

Definition paged : Platform :=
  Ref.platform Ref.geocode_ok paged_search paged_next Ref.send_ok.



(** The same two jobs and a store that answers the fetch of the job list,
    rejects the next call and answers from then on. *)
Definition two_drafts_one_rejection : World :=
  world [job "j1" draft 2; job "j2" draft 1] [] [] [false; true].

End Scenario.

(* ================================================================== *)
(** * Properties *)

Example b64_roundtrip :
  Ref.base64_encode "p1:info@foo.com" = "cDE6aW5mb0Bmb28uY29t"
  /\ Ref.base64_decode "cDE6aW5mb0Bmb28uY29t" = "p1:info@foo.com"
  /\ Ref.base64_encode "ab" = "YWI=" /\ Ref.base64_decode "YWI=" = "ab"
  /\ Ref.base64_encode "a" = "YQ==" /\ Ref.base64_decode "YQ==" = "a".
Proof. repeat split; reflexivity. Qed.

Example url_examples :
  extractDomain Ref.quiet "https://www.Example.com/path" = Some "example.com"
  /\ extractDomain Ref.quiet "not a url" = None
  /\ extractDomain Ref.quiet "http://foo.com" = Some "foo.com"
  /\ extractDomain Ref.quiet "http://a$$b.com" = Some "a$$b.com"
  /\ Ref.auto_id 7 = "doc007".
Proof. repeat split; reflexivity. Qed.

(* ================================================================== *)
(** ** Chaining a relation through the monad *)

Section Chaining.
  Context {R : World -> World -> Prop} {HR : Chained R}.

Lemma post_ret {A} (a : A) : post R (ret a).
  Proof. intro w. apply chained_refl. Qed.

Lemma post_throw {A} (e : JsError) : post R (@throw A e).
  Proof. intro w. apply chained_refl. Qed.

Lemma post_lift {A} (o : outcome A) : post R (lift o).
  Proof. intro w. apply chained_refl. Qed.

Lemma post_bind {A B} (m : M A) (k : A -> M B) :
    post R m -> (forall a, post R (k a)) -> post R (bind m k).
  Proof.
    intros Hm Hk w. unfold bind.
    specialize (Hm w). destruct (m w) as [[a | e] w1]; simpl in *.
    - eapply chained_trans; [exact Hm | apply Hk].
    - exact Hm.
  Qed.

Lemma post_try_catch {A} (m : M A) (h : JsError -> M A) :
    post R m -> (forall e, post R (h e)) -> post R (try_catch m h).
  Proof.
    intros Hm Hh w. unfold try_catch.
    specialize (Hm w). destruct (m w) as [[a | e] w1]; simpl in *.
    - exact Hm.
    - eapply chained_trans; [exact Hm | apply Hh].
  Qed.

Lemma post_store_call {A} (op : M A) : post R op -> post R (store_call op).
  Proof.
    intros Hop w. unfold store_call.
    destruct (w_faults w) as [| [] fs] eqn:E; simpl.
    - apply Hop.
    - eapply chained_faults; exact E.
    - eapply chained_trans; [eapply chained_faults; exact E | apply Hop].
  Qed.

Lemma post_store_read {A} (f : World -> outcome A) :
    post R (store_call (fun w => (f w, w))).
  Proof. apply post_store_call. intro w. apply chained_refl. Qed.

Lemma post_for_each {A} (body : A -> M unit) (xs : list A) :
    (forall x, post R (body x)) -> post R (for_each body xs).
  Proof.
    intro Hb. induction xs as [| x r IH]; simpl.
    - apply post_ret.
    - apply post_bind; [apply Hb | intros _; exact IH].
  Qed.

Lemma post_getJob jobId : post R (getJob jobId).
  Proof. apply post_store_read. Qed.

Lemma post_getAllJobs : post R getAllJobs.
  Proof. apply post_store_read. Qed.

Lemma post_get_prospect prospectId : post R (get_prospect prospectId).
  Proof. apply post_store_read. Qed.

Lemma post_unbound_identifier {A} (name : string) : post R (@unbound_identifier A name).
  Proof. intro w. apply chained_refl. Qed.

Lemma post_doc_path path : post R (doc_path path).
  Proof. intro w. destruct path; apply chained_refl. Qed.

Lemma post_query_value v : post R (query_value v).
  Proof. intro w. destruct v; apply chained_refl. Qed.

Lemma post_field_value v : post R (field_value v).
  Proof. intro w. destruct v; apply chained_refl. Qed.

Lemma post_getProspectsForSending jobId n : post R (getProspectsForSending jobId n).
  Proof.
    unfold getProspectsForSending.
    apply post_bind; [apply post_query_value | intros v]. apply post_store_read.
  Qed.

Lemma post_getProspectsForJob jobId status limit :
    post R (getProspectsForJob jobId status limit).
  Proof.
    unfold getProspectsForJob.
    apply post_bind; [apply post_query_value | intros v].
    apply post_bind; [apply post_store_read | intros ps].
    apply post_bind; [apply post_store_read | intros n]. apply post_ret.
  Qed.

(** The sender throws at its first line, whatever it is given. *)
Lemma sendEmailToProspect_throws P prospect jobId w :
    sendEmailToProspect P prospect jobId w = (Throw (ReferenceError "prospect"), w).
  Proof. reflexivity. Qed.

Lemma post_sendEmailToProspect P prospect jobId :
    post R (sendEmailToProspect P prospect jobId).
  Proof. intro w. rewrite sendEmailToProspect_throws. apply chained_refl. Qed.

Lemma post_batchSendEmails P prospects jobId : post R (batchSendEmails P prospects jobId).
  Proof.
    intro w. unfold batchSendEmails.
    destruct prospects as [| p rest]; cbn [batchSendEmails_loop];
      [apply chained_refl |].
    unfold bind. rewrite sendEmailToProspect_throws. apply chained_refl.
  Qed.

Lemma post_isUnsubscribed email : post R (isUnsubscribed email).
  Proof.
    unfold isUnsubscribed.
    apply post_bind; [apply post_lift | intros d].
    apply post_bind; [apply post_store_read | intros a].
    apply post_bind; [apply post_store_read | intros b]. apply post_ret.
  Qed.

Lemma post_first_viable_email candidates : post R (first_viable_email candidates).
  Proof.
    induction candidates as [| e r IH]; simpl.
    - apply post_ret.
    - apply post_bind; [apply post_isUnsubscribed | intros [|]; simpl].
      + exact IH.
      + apply post_ret.
  Qed.

Lemma post_discoverEmailForProspect P prospect :
    post R (discoverEmailForProspect P prospect).
  Proof.
    unfold discoverEmailForProspect.
    destruct (Js.falsy_opt (p_website prospect)); [apply post_ret |].
    destruct (extractDomain P _) as [d |]; [| apply post_ret].
    destruct (Js.falsy d); [apply post_ret |].
    apply post_bind; [apply post_first_viable_email | intros [e |]; apply post_ret].
  Qed.

Lemma post_batchDiscoverEmails P prospects : post R (batchDiscoverEmails P prospects).
  Proof.
    induction prospects as [| p r IH]; simpl.
    - apply post_ret.
    - apply post_bind; [apply post_discoverEmailForProspect | intros res].
      apply post_bind; [exact IH | intros rs]. apply post_ret.
  Qed.

End Chaining.

(* ================================================================== *)
(** ** The relations are chained *)

Lemma Forall2_same {A} (Q : A -> A -> Prop) (l : list A) :
  (forall a, Q a a) -> Forall2 Q l l.
Proof. intro H. induction l; constructor; auto. Qed.

Lemma Forall2_chain {A} (Q : A -> A -> Prop) (l1 l2 l3 : list A) :
  (forall a b c, Q a b -> Q b c -> Q a c) ->
  Forall2 Q l1 l2 -> Forall2 Q l2 l3 -> Forall2 Q l1 l3.
Proof.
  intros HQ H12. revert l3.
  induction H12 as [| a b l1 l2 Hab _ IH]; intros l3 H23; inversion H23; subst.
  - constructor.
  - constructor; eauto.
Qed.

Lemma Forall2_map_r {A} (Q : A -> A -> Prop) (f : A -> A) (l : list A) :
  (forall a, Q a (f a)) -> Forall2 Q l (map f l).
Proof. intro H. induction l; simpl; constructor; auto. Qed.

#[export] Instance same_jobs_chained : Chained same_jobs.
Proof.
  unfold same_jobs. split; intros; simpl; congruence.
Qed.

#[export] Instance same_prospects_chained : Chained same_prospects.
Proof.
  unfold same_prospects. split; intros; simpl; congruence.
Qed.

#[export] Instance same_ledger_chained : Chained same_ledger.
Proof.
  unfold same_ledger. split; intros; simpl; congruence.
Qed.

#[export] Instance same_outbox_chained : Chained same_outbox.
Proof.
  unfold same_outbox. split; intros; simpl; congruence.
Qed.

#[export] Instance same_owners_chained : Chained same_owners.
Proof.
  unfold same_owners. split; intros; simpl; congruence.
Qed.

Lemma job_moved_same jobId written (a : Job) : job_moved jobId written a a.
Proof. unfold job_moved. auto. Qed.

Lemma job_moved_chain jobId written (a b c : Job) :
  job_moved jobId written a b -> job_moved jobId written b c -> job_moved jobId written a c.
Proof.
  unfold job_moved. intros (Hi1 & Hf1 & Hs1) (Hi2 & Hf2 & Hs2).
  repeat split.
  - congruence.
  - intro Hne. rewrite <- (Hf1 Hne). apply Hf2. congruence.
  - destruct Hs2 as [Hs2 | Hs2]; [rewrite Hs2; exact Hs1 | right; exact Hs2].
Qed.

#[export] Instance jobs_moved_chained jobId written : Chained (jobs_moved jobId written).
Proof.
  unfold jobs_moved. split.
  - intro w. apply Forall2_same. apply job_moved_same.
  - intros a b c. apply Forall2_chain. apply job_moved_chain.
  - intros w b fs _. simpl. apply Forall2_same. apply job_moved_same.
Qed.

#[export] Instance stable_chained : Chained stable.
Proof.
  unfold stable. split.
  - intro w. repeat split; auto. apply incl_refl.
  - intros a b c (Hf1 & Hj1 & Hp1) (Hf2 & Hj2 & Hp2). repeat split.
    + auto.
    + congruence.
    + eapply incl_tran; eauto.
  - intros w b fs E. simpl. repeat split.
    + intro Hw. congruence.
    + apply incl_refl.
Qed.

(* ================================================================== *)
(** ** What each store write leaves alone *)

Lemma map_update_same {A B} (proj : A -> B) (test : A -> bool) (g : A -> A) (l : list A) :
  (forall a, proj (g a) = proj a) ->
  map proj (map (fun a => if test a then g a else a) l) = map proj l.
Proof.
  intro H. rewrite map_map. apply map_ext. intro a.
  destruct (test a); auto.
Qed.

Ltac run_writer w :=
  repeat match goal with
         | |- context [job_dot_id ?j] => destruct (job_dot_id j)
         | |- context [p_dot_id ?p] => destruct (p_dot_id p)
         | |- context [d_prospectId ?r] => destruct (d_prospectId r)
         end;
  unfold updateJobStatus, incrementJobStat, updateProspectStatus, update_job,
    update_prospect, batchCreateProspects, addUnsubscribe, createJob, sgMail_send_call,
    doc_path, query_value, field_value, bind, lift, ret, throw, store_call;
  repeat match goal with
         | |- context [email_domain ?e] => destruct (email_domain e)
         | |- context [match ?o with Some _ => _ | None => _ end] =>
             is_var o; destruct o
         | |- context [w_faults w] => destruct (w_faults w) as [| [] ?] eqn:?
         | |- context [existsb ?f ?l] => destruct (existsb f l)
         end;
  simpl.

Ltac frame_writer :=
  let w := fresh "w" in
  intro w; run_writer w;
  unfold same_jobs, same_prospects, same_ledger, same_outbox, same_owners, stable,
    jobs_moved;
  simpl;
  repeat split;
  try congruence;
  try reflexivity;
  try (apply map_update_same; reflexivity);
  try apply incl_refl;
  try (rewrite map_update_same by reflexivity; apply incl_refl);
  try (rewrite map_app; apply incl_appl; apply incl_refl);
  try (apply Forall2_same; apply job_moved_same).

(** [job.id] is the key of the document it was read from, or nothing. *)
Lemma job_dot_id_cases (job : Job) :
  job_dot_id job = Some (job_id job) \/ job_dot_id job = None.
Proof. unfold job_dot_id. destruct (job_id_stored job); auto. Qed.

Lemma jobs_moved_updateJobStatus jobId written status :
  In status written -> post (jobs_moved jobId written) (updateJobStatus (Some jobId) status).
Proof.
  intros Hin w. run_writer w; unfold jobs_moved; simpl;
    try (apply Forall2_same; apply job_moved_same).
  all: apply Forall2_map_r; intro a; unfold job_moved;
    destruct (String.eqb_spec (job_id a) jobId); simpl; auto;
    repeat split; auto; intro; congruence.
Qed.

Lemma jobs_moved_incrementJobStat jobId written field amount :
  post (jobs_moved jobId written) (incrementJobStat (Some jobId) field amount).
Proof.
  intros w. run_writer w; unfold jobs_moved; simpl;
    try (apply Forall2_same; apply job_moved_same).
  all: apply Forall2_map_r; intro a; unfold job_moved;
    destruct (String.eqb_spec (job_id a) jobId); simpl; auto;
    repeat split; auto; intro; congruence.
Qed.

(** The same for the id a handler reads on the job it was given. *)
Lemma jobs_moved_updateJobStatus_dot job written status :
  In status written ->
  post (jobs_moved (job_id job) written) (updateJobStatus (job_dot_id job) status).
Proof.
  intro Hin. destruct (job_dot_id_cases job) as [E | E]; rewrite E.
  - apply jobs_moved_updateJobStatus. exact Hin.
  - intro w. apply chained_refl.
Qed.

Lemma jobs_moved_incrementJobStat_dot job written field amount :
  post (jobs_moved (job_id job) written) (incrementJobStat (job_dot_id job) field amount).
Proof.
  destruct (job_dot_id_cases job) as [E | E]; rewrite E.
  - apply jobs_moved_incrementJobStat.
  - intro w. apply chained_refl.
Qed.

Ltac chain :=
  repeat
    match goal with
    | |- post _ (bind _ _) => apply post_bind; [| intro]
    | |- post _ (try_catch _ _) => apply post_try_catch; [| intro]
    | |- post _ (ret _) => apply post_ret
    | |- post _ (lift _) => apply post_lift
    | |- post _ (throw _) => apply post_throw
    | |- post _ (getJob _) => apply post_getJob
    | |- post _ getAllJobs => apply post_getAllJobs
    | |- post _ (get_prospect _) => apply post_get_prospect
    | |- post _ (unbound_identifier _) => apply post_unbound_identifier
    | |- post _ (doc_path _) => apply post_doc_path
    | |- post _ (query_value _) => apply post_query_value
    | |- post _ (field_value _) => apply post_field_value
    | |- post _ (sendEmailToProspect _ _ _) => apply post_sendEmailToProspect
    | |- post _ (batchSendEmails _ _ _) => apply post_batchSendEmails
    | |- post _ (getProspectsForSending _ _) => apply post_getProspectsForSending
    | |- post _ (getProspectsForJob _ _ _) => apply post_getProspectsForJob
    | |- post _ (isUnsubscribed _) => apply post_isUnsubscribed
    | |- post _ (batchDiscoverEmails _ _) => apply post_batchDiscoverEmails
    | |- post _ (discoverEmailForProspect _ _) => apply post_discoverEmailForProspect
    | |- post _ (if ?b then _ else _) => destruct b
    | |- post _ (match ?x with _ => _ end) => destruct x
    end.

Section SenderFrames.
  Variable P : Platform.

Lemma update_discovered_frame (R : World -> World -> Prop) {HR : Chained R}
      results count :
  (forall id st e s, post R (updateProspectStatus id st e s)) ->
  post R (update_discovered results count).
Proof.
  intro H. revert count. induction results as [| r rest IH]; intro count; simpl.
  - apply post_ret.
  - apply post_bind; [apply H | intros _; apply IH].
Qed.

End SenderFrames.

(* ================================================================== *)
(** ** The store helpers, run on an available store *)

Lemma bind_run {A B} (m : M A) (k : A -> M B) (w : World) :
  bind m k w = match m w with
               | (Ok a, w1) => k a w1
               | (Throw e, w1) => (Throw e, w1)
               end.
Proof. reflexivity. Qed.

(** ** Email inference against the ledger *)

Lemma store_read_inv {A} (f : World -> A) (w w' : World) (o : outcome A) :
  (forall w fs, f (set_faults fs w) = f w) ->
  store_call (fun w => (Ok (f w), w)) w = (o, w') ->
  (o = Ok (f w) \/ o = Throw store_unavailable)
  /\ w_jobs w' = w_jobs w /\ w_prospects w' = w_prospects w
  /\ w_unsubscribes w' = w_unsubscribes w /\ w_outbox w' = w_outbox w
  /\ w_now w' = w_now w.
Proof.
  unfold store_call. intro Hf.
  destruct (w_faults w) as [| [] fs]; intro H; inversion H; subst; simpl;
    rewrite ?Hf; auto 10.
Qed.

Lemma store_read_available {A} (f : World -> A) (w : World) :
  w_faults w = [] -> store_call (fun w => (Ok (f w), w)) w = (Ok (f w), w).
Proof. unfold store_call. intro H. rewrite H. reflexivity. Qed.

Lemma existsb_id_In (prospectId : string) (l : list Prospect) :
  In prospectId (map p_id l) -> existsb (fun p => p_id p =? prospectId) l = true.
Proof.
  intro H. apply in_map_iff in H. destruct H as (p & Hp & Hin).
  apply existsb_exists. exists p. split; [exact Hin | apply String.eqb_eq; exact Hp].
Qed.

Lemma existsb_job_In (jobId : string) (l : list Job) :
  In jobId (map job_id l) -> existsb (fun j => job_id j =? jobId) l = true.
Proof.
  intro H. apply in_map_iff in H. destruct H as (j & Hj & Hin).
  apply existsb_exists. exists j. split; [exact Hin | apply String.eqb_eq; exact Hj].
Qed.

(** ** A failed send *)

Lemma existsb_update_same (prospectId : string) (g : Prospect -> Prospect) (l : list Prospect) :
  (forall p, p_id (g p) = p_id p) ->
  existsb (fun p => p_id p =? prospectId)
          (map (fun p => if p_id p =? prospectId then g p else p) l)
  = existsb (fun p => p_id p =? prospectId) l.
Proof.
  intro Hg. induction l as [| a r IH]; simpl; [reflexivity |].
  rewrite IH. destruct (p_id a =? prospectId) eqn:E.
  - rewrite Hg, E. reflexivity.
  - rewrite E. reflexivity.
Qed.

Lemma In_firstn {A} (n : nat) (l : list A) (x : A) : In x (firstn n l) -> In x l.
Proof.
  intro H. rewrite <- (firstn_skipn n l). apply in_or_app. left. exact H.
Qed.

Lemma map_job_update_twice (jobId : string) (f g : Job -> Job) (l : list Job) :
  (forall j, job_id (f j) = job_id j) ->
  map (fun j => if job_id j =? jobId then g j else j)
      (map (fun j => if job_id j =? jobId then f j else j) l)
  = map (fun j => if job_id j =? jobId then g (f j) else j) l.
Proof.
  intro Hf. rewrite map_map. apply map_ext. intro j.
  destruct (job_id j =? jobId) eqn:E; [rewrite Hf, E | rewrite E]; reflexivity.
Qed.

Lemma In_ids_update (jobId : string) (g : Job -> Job) (id : string) (l : list Job) :
  (forall j, job_id (g j) = job_id j) ->
  In id (map job_id l) ->
  In id (map job_id (map (fun j => if job_id j =? jobId then g j else j) l)).
Proof.
  intros Hg H. rewrite (map_update_same job_id (fun j => job_id j =? jobId) g l Hg). exact H.
Qed.

Lemma map_update_twice (prospectId : string) (f g : Prospect -> Prospect)
      (l : list Prospect) :
  (forall p, p_id (f p) = p_id p) ->
  map (fun p => if p_id p =? prospectId then g p else p)
      (map (fun p => if p_id p =? prospectId then f p else p) l)
  = map (fun p => if p_id p =? prospectId then g (f p) else p) l.
Proof.
  intro Hf. rewrite map_map. apply map_ext. intro p.
  destruct (p_id p =? prospectId) eqn:E; [rewrite Hf, E | rewrite E]; reflexivity.
Qed.

Lemma update_job_available (jobId : string) (f : nat -> Job -> Job) (w : World) :
  w_faults w = [] -> In jobId (map job_id (w_jobs w)) ->
  update_job jobId f w
  = (Ok tt, set_jobs (map (fun j => if job_id j =? jobId then f (w_now w) j else j)
                          (w_jobs w)) w).
Proof.
  intros Hf Hin. unfold update_job, store_call. rewrite Hf.
  rewrite (existsb_job_In _ _ Hin). reflexivity.
Qed.

Lemma update_job_missing (jobId : string) (f : nat -> Job -> Job) (w : World) :
  ~ In jobId (map job_id (w_jobs w)) ->
  w_jobs (snd (update_job jobId f w)) = w_jobs w
  /\ exists e, fst (update_job jobId f w) = Throw e.
Proof.
  intro Hn.
  assert (He : existsb (fun j => job_id j =? jobId) (w_jobs w) = false).
  { destruct (existsb _ _) eqn:E; [| reflexivity].
    exfalso. apply Hn. apply existsb_exists in E. destruct E as (j & Hj & Hid).
    apply String.eqb_eq in Hid. subst jobId. apply in_map. exact Hj. }
  unfold update_job, store_call.
  destruct (w_faults w) as [| [] fs]; simpl; rewrite ?He; simpl;
    (split; [reflexivity | eexists; reflexivity]).
Qed.

(** A job update followed by more work, on an available store. *)
Lemma update_job_then {A} (jobId : string) (f : nat -> Job -> Job) (k : M A) (w : World) :
  w_faults w = [] -> In jobId (map job_id (w_jobs w)) ->
  (update_job jobId f ;; k) w
  = k (set_jobs (map (fun j => if job_id j =? jobId then f (w_now w) j else j)
                     (w_jobs w)) w).
Proof.
  intros Hf Hin. rewrite bind_run, (update_job_available _ _ _ Hf Hin). reflexivity.
Qed.

(** ** The sender, message by message *)

Lemma update_prospect_available (prospectId : string) (f : nat -> Prospect -> Prospect)
      (w : World) :
  w_faults w = [] -> existsb (fun p => p_id p =? prospectId) (w_prospects w) = true ->
  update_prospect prospectId f w
  = (Ok tt, set_prospects (map (fun p => if p_id p =? prospectId then f (w_now w) p else p)
                               (w_prospects w)) w).
Proof.
  intros Hf He. unfold update_prospect, store_call. rewrite Hf, He. reflexivity.
Qed.

(** Two updates of the same prospect in a row, on an available store. *)
Lemma update_prospect_twice (prospectId : string) (f g : nat -> Prospect -> Prospect)
      (w : World) :
  (forall now p, p_id (f now p) = p_id p) ->
  w_faults w = [] -> existsb (fun p => p_id p =? prospectId) (w_prospects w) = true ->
  (update_prospect prospectId f ;; update_prospect prospectId g) w
  = (Ok tt, set_prospects
              (map (fun p => if p_id p =? prospectId
                             then g (w_now w) (f (w_now w) p) else p)
                   (w_prospects w)) w).
Proof.
  intros Hid Hf He. unfold bind. rewrite (update_prospect_available _ _ _ Hf He).
  rewrite update_prospect_available.
  - simpl. rewrite map_update_twice by (intro; apply Hid). reflexivity.
  - exact Hf.
  - simpl. rewrite existsb_update_same by (intro; apply Hid). exact He.
Qed.

(** A status update of a prospect named by its key is one update of its
    document. *)
Lemma updateProspectStatus_key (prospectId : string) (status : ProspectStatus)
      (discoveredEmail : option string) (emailSource : option EmailSource) :
  updateProspectStatus (Some prospectId) status discoveredEmail emailSource
  = update_prospect prospectId (set_prospect_status status discoveredEmail emailSource).
Proof. reflexivity. Qed.

(** The two job updates, for a job named by its key. *)
Lemma updateJobStatus_key (jobId : string) (status : JobStatus) :
  updateJobStatus (Some jobId) status = update_job jobId (set_job_status status).
Proof. reflexivity. Qed.

Lemma incrementJobStat_key (jobId : string) (field : StatField) (amount : Z) :
  incrementJobStat (Some jobId) field amount
  = update_job jobId (set_job_stats (stats_increment field amount)).
Proof. reflexivity. Qed.

(** A status update and a counter increment, given the id of a stored job. *)
Lemma updateJobStatus_available (jobId : string) (status : JobStatus) (w : World) :
  w_faults w = [] -> In jobId (map job_id (w_jobs w)) ->
  updateJobStatus (Some jobId) status w
  = (Ok tt, set_jobs (map (fun j => if job_id j =? jobId
                                    then set_job_status status (w_now w) j else j)
                          (w_jobs w)) w).
Proof. intros Hf Hin. apply (update_job_available _ _ _ Hf Hin). Qed.

Lemma updateProspectStatus_undefined (status : ProspectStatus) (e : option string)
      (s : option EmailSource) (w : World) :
  updateProspectStatus None status e s w = (Throw invalid_path, w).
Proof. reflexivity. Qed.

Lemma getProspectsForSending_available (jobId : string) (n : nat) (w : World) :
  w_faults w = [] ->
  getProspectsForSending (Some jobId) n w
  = (Ok (firstn n (filter (fun p => (p_jobId p =? jobId)
                                    && ProspectStatus_eqb (p_status p) email_found)
                          (w_prospects w))), w).
Proof.
  intro Hf. unfold getProspectsForSending. rewrite bind_run. cbn [query_value ret].
  apply (store_read_available
           (fun w => firstn n (filter (fun p => (p_jobId p =? jobId)
                                                && ProspectStatus_eqb (p_status p) email_found)
                                      (w_prospects w))) w Hf).
Qed.

(** The batch sender returns for the empty batch only. *)
Lemma batchSendEmails_empty (P : Platform) (jobId : option string) (w : World) :
  batchSendEmails P [] jobId w = (Ok (mkBatchResult 0 0 []), w).
Proof. reflexivity. Qed.

Lemma batchSendEmails_throws (P : Platform) (prospects : list Prospect)
      (jobId : option string) (w : World) :
  prospects <> [] ->
  batchSendEmails P prospects jobId w = (Throw (ReferenceError "prospect"), w).
Proof.
  intro Hne. destruct prospects as [| p rest]; [contradiction |].
  unfold batchSendEmails. cbn [batchSendEmails_loop]. rewrite bind_run.
  rewrite sendEmailToProspect_throws. reflexivity.
Qed.

(* ================================================================== *)
(** ** Job creation boundary *)

Lemma Qltb_true (a b : Q) : Qltb a b = true <-> (a < b)%Q.
Proof.
  unfold Qltb. rewrite negb_true_iff.
  split; intro H.
  - apply Qnot_le_lt. intro Hle. apply Qle_bool_iff in Hle. congruence.
  - destruct (Qle_bool b a) eqn:E; [| reflexivity].
    apply Qle_bool_iff in E. exfalso. apply (Qlt_not_le _ _ H E).
Qed.

Lemma Qltb_false (a b : Q) : Qltb a b = false <-> (b <= a)%Q.
Proof.
  unfold Qltb. rewrite negb_false_iff. apply Qle_bool_iff.
Qed.

Lemma Math_round_between (lo hi : Z) (q : Q) :
  (inject_Z lo <= q)%Q -> (q <= inject_Z hi)%Q -> (lo <= Math_round q <= hi)%Z.
Proof.
  intros Hlo Hhi. unfold Math_round. split.
  - rewrite <- (Qfloor_Z lo). apply Qfloor_resp_le.
    apply Qle_trans with q; [exact Hlo |].
    rewrite <- (Qplus_0_r q) at 1. apply Qplus_le_r. discriminate.
  - assert (H : (Qfloor (q + (1 # 2)) <= Qfloor (inject_Z hi + (1 # 2)))%Z).
    { apply Qfloor_resp_le. apply Qplus_le_l. exact Hhi. }
    assert (H2 : Qfloor (inject_Z hi + (1 # 2)) = hi).
    { unfold Qfloor, inject_Z, Qplus. simpl.
      replace (hi * 2 + 1)%Z with (1 + hi * 2)%Z by lia.
      rewrite Z.div_add by lia. reflexivity. }
    lia.
Qed.

Lemma sanitizeRadius_range (n : JsNumber) : (1 <= sanitizeRadius n <= 50)%Z.
Proof.
  destruct n as [| | | q]; simpl; try lia.
  destruct (Qltb q 1) eqn:E1; [lia |].
  destruct (Qltb 50 q) eqn:E2; [lia |].
  apply Qltb_false in E1. apply Qltb_false in E2.
  apply Math_round_between; assumption.
Qed.

Lemma sanitizeMaxBusinesses_range (n : JsNumber) : (1 <= sanitizeMaxBusinesses n <= 1000)%Z.
Proof.
  destruct n as [| | | q]; simpl; try lia.
  destruct (Qltb q 1) eqn:E1; [lia |].
  destruct (Qltb 1000 q) eqn:E2; [lia |].
  apply Qltb_false in E1. apply Qltb_false in E2.
  apply Math_round_between; assumption.
Qed.

(** What a successful creation stores: the new document is the last of the
    collection, in [draft], with the six counters at zero and the two sizes
    as the sanitizers return them. *)
Lemma jobs_POST_created (P : Platform) (body : outcome CreateJobRequest) (w w' : World)
      (jobId : string) :
  jobs_POST P body w = (Jobs_201 jobId, w') ->
  exists b niche zip radius max,
    body = Ok b
    /\ req_radiusKm b = Some radius /\ req_maxBusinesses b = Some max
    /\ falsy_num (Some radius) = false /\ falsy_num (Some max) = false
    /\ w_jobs w' =
       w_jobs w ++ [mkJob jobId false INTERNAL_USER_ID draft (w_now w) (w_now w) niche zip
                          (sanitizeCountryCode
                             (match req_targetCountry b with Some s => s | None => "US" end))
                          (sanitizeRadius radius) (sanitizeMaxBusinesses max) zero_stats].
Proof.
  unfold jobs_POST, bind, lift, ret. intro H.
  destruct body as [b | e]; [| discriminate].
  destruct (Js.falsy_opt (req_niche b)); [discriminate |].
  destruct (Js.falsy_opt (req_targetZip b)); [discriminate |].
  destruct (falsy_num (req_radiusKm b)) eqn:Fr; [discriminate |].
  destruct (falsy_num (req_maxBusinesses b)) eqn:Fm; [discriminate |].
  destruct (req_radiusKm b) as [radius |] eqn:Er; [| discriminate].
  destruct (req_maxBusinesses b) as [max |] eqn:Em; [| discriminate].
  cbn [orb] in H.
  destruct (sanitizeNiche _) as [niche |]; [| discriminate].
  destruct (Js.falsy niche); [discriminate |].
  destruct (sanitizeLocationInput _) as [zip |]; [| discriminate].
  destruct (Js.falsy zip); [discriminate |].
  exists b, niche, zip, radius, max.
  unfold createJob, store_call in H.
  destruct (w_faults w) as [| [] fs]; simpl in H; try discriminate;
    inversion H; subst; simpl; repeat split; auto.
Qed.

Lemma above_is_not_below (hi q : Q) :
  Qle_bool 1 hi = true -> (hi < q)%Q -> Qltb q 1 = false.
Proof.
  intros Hhi H. apply Qltb_false. apply Qle_bool_iff in Hhi.
  apply Qle_trans with hi; [exact Hhi | apply Qlt_le_weak; exact H].
Qed.

(** C9 (as amended): the sanitized radius always lies in 1..50 and the
    sanitized cap in 1..1000; a value above the maximum becomes the maximum;
    a value below 1, or not a number, becomes the default (5 km, 10
    businesses), not the minimum; a value in range is rounded to the nearest
    integer; a request whose radius or cap is zero or absent is refused; and
    the job a successful request creates is in [draft], carries the
    sanitized sizes and has its six counters at zero. *)
Theorem C9_sizes_sanitized_job_starts_in_draft :
  (forall n, (1 <= sanitizeRadius n <= 50)%Z /\ (1 <= sanitizeMaxBusinesses n <= 1000)%Z)
  /\ (forall q, (50 < q)%Q -> sanitizeRadius (Fin q) = 50%Z)
  /\ (forall q, (1000 < q)%Q -> sanitizeMaxBusinesses (Fin q) = 1000%Z)
  /\ sanitizeRadius PosInfinity = 50%Z /\ sanitizeMaxBusinesses PosInfinity = 1000%Z
  /\ (forall q, (q < 1)%Q ->
        sanitizeRadius (Fin q) = 5%Z /\ sanitizeMaxBusinesses (Fin q) = 10%Z)
  /\ sanitizeRadius NaN = 5%Z /\ sanitizeMaxBusinesses NaN = 10%Z
  /\ sanitizeRadius NegInfinity = 5%Z /\ sanitizeMaxBusinesses NegInfinity = 10%Z
  /\ (forall q, (1 <= q)%Q -> (q <= 50)%Q -> sanitizeRadius (Fin q) = Math_round q)
  /\ (forall q, (1 <= q)%Q -> (q <= 1000)%Q -> sanitizeMaxBusinesses (Fin q) = Math_round q)
  /\ (forall P b w,
        falsy_num (req_radiusKm b) = true \/ falsy_num (req_maxBusinesses b) = true ->
        jobs_POST P (Ok b) w = (Jobs_400_missing_fields, w))
  /\ (forall P body w jobId w',
        jobs_POST P body w = (Jobs_201 jobId, w') ->
        exists b radius max job,
          body = Ok b
          /\ req_radiusKm b = Some radius /\ req_maxBusinesses b = Some max
          /\ w_jobs w' = w_jobs w ++ [job]
          /\ job_id job = jobId
          /\ job_status job = draft
          /\ job_stats job = mkStats 0 0 0 0 0 0
          /\ job_radiusKm job = sanitizeRadius radius
          /\ job_maxBusinesses job = sanitizeMaxBusinesses max).
Proof.
  split; [intro n; split; [apply sanitizeRadius_range | apply sanitizeMaxBusinesses_range] |].
  split; [intros q H; apply (above_is_not_below 50 q eq_refl) in H as H1;
          apply Qltb_true in H; simpl; rewrite H1, H; reflexivity |].
  split; [intros q H; apply (above_is_not_below 1000 q eq_refl) in H as H1;
          apply Qltb_true in H; simpl; rewrite H1, H; reflexivity |].
  split; [reflexivity |]. split; [reflexivity |].
  split; [intros q H; simpl; apply Qltb_true in H; rewrite H; split; reflexivity |].
  split; [reflexivity |]. split; [reflexivity |].
  split; [reflexivity |]. split; [reflexivity |].
  split; [intros q H1 H2; simpl; apply Qltb_false in H1; apply Qltb_false in H2;
          rewrite H1, H2; reflexivity |].
  split; [intros q H1 H2; simpl; apply Qltb_false in H1; apply Qltb_false in H2;
          rewrite H1, H2; reflexivity |].
  split.
  - intros P b w H. unfold jobs_POST, bind, lift, ret.
    destruct H as [H | H]; rewrite H; rewrite ?orb_true_r; reflexivity.
  - intros P body w jobId w' H.
    destruct (jobs_POST_created _ _ _ _ _ H)
      as (b & niche & zip & radius & max & Hb & Hr & Hm & _ & _ & Hj).
    exists b, radius, max. eexists. repeat split; try eassumption; reflexivity.
Qed.

(** C9, counterexample: a radius and a cap of -3 become the defaults 5 and
    10, not the minimum 1, and the job is created with them. *)
Lemma C9_below_minimum_becomes_default :
  sanitizeRadius (Fin (inject_Z (-3))) = 5%Z
  /\ sanitizeMaxBusinesses (Fin (inject_Z (-3))) = 10%Z
  /\ sanitizeRadius (Fin (inject_Z (-3))) <> 1%Z
  /\ sanitizeMaxBusinesses (Fin (inject_Z (-3))) <> 1%Z
  /\ fst (jobs_POST Ref.quiet (Ok Scenario.negative_sizes) (Scenario.world [] [] [] []))
     = Jobs_201 "doc000"
  /\ map (fun j => (job_status j, job_radiusKm j, job_maxBusinesses j))
         (w_jobs (snd (jobs_POST Ref.quiet (Ok Scenario.negative_sizes)
                                 (Scenario.world [] [] [] []))))
     = [(draft, 5%Z, 10%Z)].
Proof. vm_compute. repeat split; try reflexivity; discriminate. Qed.

(** C9, witness: a radius of 70 is capped at 50, a cap of one half becomes
    10, and the job created from the negative sizes is in [draft] with
    zeroed counters. *)
Lemma C9_witness :
  sanitizeRadius (Fin (inject_Z 70)) = 50%Z
  /\ sanitizeMaxBusinesses (Fin (1 # 2)) = 10%Z
  /\ exists job,
       w_jobs (snd (jobs_POST Ref.quiet (Ok Scenario.negative_sizes)
                              (Scenario.world [] [] [] []))) = [job]
       /\ job_status job = draft /\ job_stats job = mkStats 0 0 0 0 0 0.
Proof.
  destruct C9_sizes_sanitized_job_starts_in_draft
    as (_ & Habove & _ & _ & _ & Hbelow & _ & _ & _ & _ & _ & _ & _ & Hjob).
  split; [apply Habove; reflexivity |].
  split; [apply (Hbelow (1 # 2)); reflexivity |].
  destruct (Hjob Ref.quiet (Ok Scenario.negative_sizes) (Scenario.world [] [] [] [])
                 "doc000" (snd (jobs_POST Ref.quiet (Ok Scenario.negative_sizes)
                                          (Scenario.world [] [] [] []))) eq_refl)
    as (b & radius & max & job & _ & _ & _ & Hj & _ & Hs & Hz & _).
  exists job. auto.
Defined.

(* ================================================================== *)


Lemma isUnsubscribed_available (email : string) (w : World) (b : bool) :
  w_faults w = [] -> suppressed (w_unsubscribes w) email = Some b ->
  isUnsubscribed email w = (Ok b, w).
Proof.
  unfold isUnsubscribed, suppressed, bind, lift, ret. intros Hf.
  destruct (email_domain email) as [d | e]; [| discriminate].
  intro H. inversion H; subst.
  rewrite (store_read_available (fun w => ledger_has_email (w_unsubscribes w) email) w Hf).
  rewrite (store_read_available (fun w => ledger_has_domain (w_unsubscribes w) d) w Hf).
  reflexivity.
Qed.


Lemma first_viable_email_available (candidates : list string) (w : World) :
  w_faults w = [] ->
  Forall (fun c => suppressed (w_unsubscribes w) c <> None) candidates ->
  first_viable_email candidates w
  = (Ok (first_unsuppressed (w_unsubscribes w) candidates), w).
Proof.
  intros Hf Hc. induction Hc as [| email rest Hs _ IH]; simpl.
  - reflexivity.
  - unfold bind.
    destruct (suppressed (w_unsubscribes w) email) as [b |] eqn:E; [| congruence].
    rewrite (isUnsubscribed_available _ _ _ Hf E).
    destruct b; simpl; [exact IH | reflexivity].
Qed.

Lemma first_unsuppressed_sound (ledger : list Unsubscribe) (candidates : list string)
      (email : string) :
  first_unsuppressed ledger candidates = Some email ->
  In email candidates /\ suppressed ledger email = Some false.
Proof.
  induction candidates as [| c rest IH]; simpl; [discriminate |].
  destruct (suppressed ledger c) as [[|] |] eqn:E; intro H.
  - destruct (IH H). auto.
  - inversion H; subst. auto.
  - destruct (IH H). auto.
Qed.

Lemma split_nonempty (c : ascii) (s : string) : Js.split c s <> [].
Proof.
  induction s as [| a r IH]; simpl; [discriminate |].
  destruct (Ascii.eqb a c); [discriminate |].
  destruct (Js.split c r); [contradiction | discriminate].
Qed.

(** An address that starts with a local part of the list and an [@] has a
    domain: [isUnsubscribed] does not throw on it. *)
Lemma generated_has_domain (domain : string) :
  Forall (fun c => exists d, email_domain c = Ok d) (generateInferredEmails domain).
Proof.
  unfold generateInferredEmails, EMAIL_PATTERNS, email_domain.
  repeat constructor; cbn;
    match goal with
    | |- context [Js.split "@" ?s] =>
        pose proof (@split_nonempty "@"%char s) as Hs;
        destruct (Js.split "@" s) as [| h t]; [contradiction | eexists; reflexivity]
    end.
Qed.

Lemma getSubstitution_plain (matched before after s : string) :
  no_dollar s = true -> Js.getSubstitution matched before after s = s.
Proof.
  unfold no_dollar. induction s as [| a r IH]; simpl; [reflexivity |].
  intro H. apply andb_true_iff in H. destruct H as (Ha & Hr).
  apply negb_true_iff in Ha. rewrite Ha. rewrite (IH Hr). reflexivity.
Qed.

Lemma append_empty (s : string) : (s ++ "")%string = s.
Proof. induction s; simpl; congruence. Qed.

(** On a domain without a dollar sign the generated candidates are the six
    local parts on the domain, in order. *)
Lemma generateInferredEmails_plain (domain : string) :
  no_dollar domain = true -> generateInferredEmails domain = candidates_on domain.
Proof.
  intro H. unfold generateInferredEmails, candidates_on, EMAIL_PATTERNS, LOCAL_PARTS.
  cbn. rewrite !(getSubstitution_plain _ _ _ _ H), append_empty. reflexivity.
Qed.

Lemma generated_never_throw (ledger : list Unsubscribe) (domain : string) :
  Forall (fun c => suppressed ledger c <> None) (generateInferredEmails domain).
Proof.
  eapply Forall_impl; [| apply generated_has_domain].
  intros c (d & Hd). unfold suppressed. rewrite Hd. discriminate.
Qed.

(** Where the first unsuppressed candidate stands: every candidate before it
    is suppressed; without one, all are. *)
Lemma first_unsuppressed_first (ledger : list Unsubscribe) (candidates : list string) :
  Forall (fun c => suppressed ledger c <> None) candidates ->
  match first_unsuppressed ledger candidates with
  | Some email =>
      suppressed ledger email = Some false
      /\ exists skipped rest,
           candidates = skipped ++ email :: rest
           /\ Forall (fun c => suppressed ledger c = Some true) skipped
  | None => Forall (fun c => suppressed ledger c = Some true) candidates
  end.
Proof.
  intro H. induction H as [| c rest Hc _ IH]; simpl; [constructor |].
  destruct (suppressed ledger c) as [[|] |] eqn:E; [| | congruence].
  - destruct (first_unsuppressed ledger rest) as [email |].
    + destruct IH as (Hs & skipped & rest' & Heq & Hall). split; [exact Hs |].
      exists (c :: skipped), rest'. split; [simpl; congruence | constructor; assumption].
    + constructor; assumption.
  - split; [exact E |]. exists [], rest. split; [reflexivity | constructor].
Qed.

(** What [discoverEmailForProspect] answers when the store is available. *)
Lemma discoverEmailForProspect_available (P : Platform) (prospect : Prospect) (w : World) :
  w_faults w = [] ->
  discoverEmailForProspect P prospect w =
  (Ok (if Js.falsy_opt (p_website prospect) then (None, no_website)
       else match extractDomain P (match p_website prospect with Some u => u | None => "" end) with
            | None => (None, no_email)
            | Some domain =>
                if Js.falsy domain then (None, no_email)
                else match first_unsuppressed (w_unsubscribes w)
                                              (generateInferredEmails domain) with
                     | Some email => (Some email, email_found)
                     | None => (None, no_email)
                     end
            end), w).
Proof.
  intro Hf. unfold discoverEmailForProspect.
  destruct (Js.falsy_opt (p_website prospect)); [reflexivity |].
  destruct (extractDomain P _) as [domain |]; [| reflexivity].
  destruct (Js.falsy domain); [reflexivity |].
  unfold bind.
  rewrite (first_viable_email_available _ _ Hf (generated_never_throw _ domain)).
  destruct (first_unsuppressed _ _); reflexivity.
Qed.


(** C5, what the code does: for a prospect with a website and an available
    store, discovery answers [no_email] without an address when no domain
    can be extracted; otherwise it walks the generated candidates in order,
    returns the first one the ledger does not suppress (by address or by
    domain) with [email_found], and answers [no_email] without an address
    when all are suppressed.  On a domain without a dollar sign the
    candidates are [info@], [contact@], [hello@], [admin@], [support@],
    [business@] on the domain, in this order; a dollar sign of the domain
    is read by [String.replace] as the start of a replacement pattern.
    With the website [http://foo.com],
    [info@foo.com] suppressed and [contact@foo.com] not suppressed, the
    discovered email is [contact@foo.com]; on a ledger that
    [addUnsubscribe] built this cannot arise, since an entry for
    [info@foo.com] records the domain [foo.com] and so suppresses every
    candidate. *)
Theorem C5_first_unsuppressed_candidate (P : Platform) (prospect : Prospect)
        (url : string) (w : World) :
  p_website prospect = Some url -> Js.falsy url = false -> w_faults w = [] ->
  let ledger := w_unsubscribes w in
  let answer := discoverEmailForProspect P prospect w in
  match extractDomain P url with
  | None => answer = (Ok (None, no_email), w)
  | Some domain =>
      if Js.falsy domain then answer = (Ok (None, no_email), w)
      else
        (no_dollar domain = true -> generateInferredEmails domain = candidates_on domain)
        /\ match first_unsuppressed ledger (generateInferredEmails domain) with
           | Some email =>
               answer = (Ok (Some email, email_found), w)
               /\ suppressed ledger email = Some false
               /\ exists skipped rest,
                    generateInferredEmails domain = skipped ++ email :: rest
                    /\ Forall (fun c => suppressed ledger c = Some true) skipped
           | None =>
               answer = (Ok (None, no_email), w)
               /\ Forall (fun c => suppressed ledger c = Some true)
                         (generateInferredEmails domain)
           end
        /\ (domain = "foo.com" ->
            suppressed ledger "info@foo.com" = Some true ->
            suppressed ledger "contact@foo.com" = Some false ->
            answer = (Ok (Some "contact@foo.com", email_found), w))
        /\ (domain = "foo.com" ->
            recorded_ledger ledger ->
            ledger_has_email ledger "info@foo.com" = true ->
            answer = (Ok (None, no_email), w))
  end.
Proof.
  intros Hweb Hurl Hf ledger answer. subst answer ledger.
  set (ledger := w_unsubscribes w).
  rewrite (discoverEmailForProspect_available P prospect w Hf). fold ledger. clearbody ledger.
  rewrite Hweb. cbn [Js.falsy_opt]. rewrite Hurl.
  destruct (extractDomain P url) as [domain |]; [| reflexivity].
  destruct (Js.falsy domain); [reflexivity |].
  split; [apply generateInferredEmails_plain |].
  pose proof (first_unsuppressed_first ledger _ (generated_never_throw ledger domain)) as Hfirst.
  split; [| split].
  - destruct (first_unsuppressed ledger (generateInferredEmails domain)) as [email |].
    + destruct Hfirst as (Hs & Hsk). auto.
    + auto.
  - intros Hd Hinfo Hcontact. subst domain.
    rewrite (generateInferredEmails_plain "foo.com" eq_refl).
    unfold candidates_on, LOCAL_PARTS. cbn [map String.append].
    cbn [first_unsuppressed]. rewrite Hinfo, Hcontact. reflexivity.
  - intros Hd Hrec Hinfo. subst domain.
    assert (Hdom : ledger_has_domain ledger "foo.com" = true).
    { unfold ledger_has_email in Hinfo. apply existsb_exists in Hinfo.
      destruct Hinfo as (u & Hin & Hu). apply String.eqb_eq in Hu.
      unfold recorded_ledger in Hrec. rewrite Forall_forall in Hrec.
      specialize (Hrec u Hin). rewrite Hu in Hrec.
      unfold ledger_has_domain. apply existsb_exists. exists u. split; [exact Hin |].
      apply String.eqb_eq.
      assert (Hc : email_domain (Js.toLowerCase "info@foo.com") = Ok "foo.com") by reflexivity.
      rewrite Hc in Hrec. congruence. }
    rewrite (generateInferredEmails_plain "foo.com" eq_refl).
    unfold candidates_on, LOCAL_PARTS. cbn [map String.append].
    unfold first_unsuppressed, suppressed.
    repeat match goal with
           | |- context [email_domain ?e] =>
               let d := eval vm_compute in (email_domain e) in
               change (email_domain e) with d; cbv iota beta
           end.
    rewrite Hdom. rewrite !orb_true_r. reflexivity.
Qed.

(** C5, the failing input: the website [http://a$$b.com].  The domain is
    [a$$b.com]; the candidates are generated with [String.replace], which
    reads the two dollar signs as the pattern of one, so the candidates
    are on [a$b.com], another domain, and the discovered email is
    [info@a$b.com]. *)
Example C5_failing_input :
  extractDomain Ref.quiet "http://a$$b.com" = Some "a$$b.com"
  /\ candidates_on "a$$b.com"
     = ["info@a$$b.com"; "contact@a$$b.com"; "hello@a$$b.com"; "admin@a$$b.com";
        "support@a$$b.com"; "business@a$$b.com"]
  /\ generateInferredEmails "a$$b.com"
     = ["info@a$b.com"; "contact@a$b.com"; "hello@a$b.com"; "admin@a$b.com";
        "support@a$b.com"; "business@a$b.com"]
  /\ discoverEmailForProspect Ref.quiet Scenario.dollars (Scenario.world [] [] [] [])
     = (Ok (Some "info@a$b.com", email_found), Scenario.world [] [] [] []).
Proof. vm_compute. repeat split; reflexivity. Qed.

(** C5, witness: the website [http://foo.com], a ledger entry for the
    address [info@foo.com] alone, and the discovered email
    [contact@foo.com]. *)
Lemma C5_witness :
  discoverEmailForProspect Ref.quiet Scenario.foo (Scenario.world [] [] Scenario.address_only [])
  = (Ok (Some "contact@foo.com", email_found), Scenario.world [] [] Scenario.address_only []).
Proof.
  pose proof (C5_first_unsuppressed_candidate Ref.quiet Scenario.foo "http://foo.com"
                (Scenario.world [] [] Scenario.address_only []) eq_refl eq_refl eq_refl) as H.
  cbv zeta in H.
  change (extractDomain Ref.quiet "http://foo.com") with (Some "foo.com") in H.
  cbv beta iota in H. change (Js.falsy "foo.com") with false in H. cbv iota in H.
  destruct H as (_ & _ & H & _).
  apply H; reflexivity.
Defined.

(* ================================================================== *)
(** ** The ledger, the inference and the sender *)


(* ================================================================== *)

Lemma substring0_length (n : nat) (s : string) :
  (String.length (Js.substring0 n s) <= n)%nat.
Proof.
  unfold Js.substring0. revert s. induction n as [| n IH]; intros [| c s]; simpl; try lia.
  specialize (IH s). lia.
Qed.

(** [isPermanentBounce] holds exactly for status code 400. *)
Lemma isPermanentBounce_iff (error : JsError) :
  isPermanentBounce error = true
  <-> (err_statusCode error = Some 400%Z \/ err_code error = Some 400%Z).
Proof.
  unfold isPermanentBounce. rewrite orb_true_iff.
  assert (H : forall o : option Z,
             match o with Some c => (c =? 400)%Z | None => false end = true
             <-> o = Some 400%Z).
  { intros [c |]; split; intro H; try discriminate.
    - apply Z.eqb_eq in H. congruence.
    - injection H as H. apply Z.eqb_eq. exact H. }
  rewrite !H. reflexivity.
Qed.

(* ================================================================== *)
(** ** The unsubscribe link *)

Lemma find_existsb {A} (f : A -> bool) (l : list A) (x : A) :
  find f l = Some x -> existsb f l = true.
Proof.
  intro H. apply find_some in H. apply existsb_exists. exists x. exact H.
Qed.

Lemma email_differs_iff (stored : option string) (email : string) :
  email_differs stored email = false <-> stored = Some email.
Proof.
  unfold email_differs. destruct stored as [e |]; [| split; discriminate].
  rewrite negb_false_iff, String.eqb_eq. split; congruence.
Qed.

Lemma unsubscribe_GET_mismatch (P : Platform) (token : string) (w : World)
      (prospectId email : string) (prospect : Prospect) :
  Js.falsy token = false ->
  nth_error (Js.split ":" (decodeBase64Url P token)) 0 = Some prospectId ->
  nth_error (Js.split ":" (decodeBase64Url P token)) 1 = Some email ->
  Js.falsy prospectId = false -> Js.falsy email = false ->
  find (fun p => p_id p =? prospectId) (w_prospects w) = Some prospect ->
  p_discoveredEmail prospect <> Some email ->
  unsubscribe_GET P (Some token) w =
  match w_faults w with
  | [] => (Unsub_400_email_mismatch, w)
  | true :: fs => (Unsub_500, set_faults fs w)
  | false :: fs => (Unsub_400_email_mismatch, set_faults fs w)
  end.
Proof.
  intros Ht Hid Hem Hfid Hfem Hfind Hne.
  assert (Hd : email_differs (p_discoveredEmail prospect) email = true).
  { destruct (email_differs (p_discoveredEmail prospect) email) eqn:E; [reflexivity |].
    apply email_differs_iff in E. contradiction. }
  unfold unsubscribe_GET. cbn [Js.falsy_opt]. rewrite Ht, Hid, Hem.
  cbn [Js.falsy_opt]. rewrite Hfid, Hfem. cbn [orb].
  unfold bind at 1. unfold get_prospect, store_call.
  destruct (w_faults w) as [| [] fs]; cbn [w_prospects set_faults];
    rewrite ?Hfind, ?Hd; reflexivity.
Qed.

Lemma unsubscribe_GET_match (P : Platform) (token : string) (w : World)
      (prospectId email domain : string) (prospect : Prospect) :
  Js.falsy token = false ->
  nth_error (Js.split ":" (decodeBase64Url P token)) 0 = Some prospectId ->
  nth_error (Js.split ":" (decodeBase64Url P token)) 1 = Some email ->
  Js.falsy prospectId = false -> Js.falsy email = false ->
  find (fun p => p_id p =? prospectId) (w_prospects w) = Some prospect ->
  p_discoveredEmail prospect = Some email ->
  w_faults w = [] -> email_domain email = Ok domain ->
  unsubscribe_GET P (Some token) w =
  (Unsub_200_confirmation email,
   set_prospects
     (map (fun p => if p_id p =? prospectId then set_prospect_unsubscribed (w_now w) p else p)
          (w_prospects w))
     (set_unsubscribes
        (w_unsubscribes w ++ [ledger_entry email domain (w_now w) (Some (p_jobId prospect))])
        w)).
Proof.
  intros Ht Hid Hem Hfid Hfem Hfind Heq Hfaults Hdom.
  assert (Hd : email_differs (p_discoveredEmail prospect) email = false)
    by (apply email_differs_iff; exact Heq).
  unfold unsubscribe_GET. cbn [Js.falsy_opt]. rewrite Ht, Hid, Hem.
  cbn [Js.falsy_opt]. rewrite Hfid, Hfem. cbn [orb].
  unfold bind at 1. unfold get_prospect, store_call.
  rewrite Hfaults, Hfind, Hd.
  unfold bind, ret, lift, addUnsubscribe, update_prospect, store_call, bind, lift.
  rewrite Hdom. simpl. rewrite Hfaults. simpl. rewrite Hfaults.
  rewrite (find_existsb _ _ _ Hfind). reflexivity.
Qed.

(** C8: for an unsubscribe request whose token decodes to a prospect id and
    an email, for an existing prospect: when the email differs from the
    stored discovered email the request is refused, no ledger entry is
    written and the prospect records stay as they were; when it matches
    (the store being available and the email having a domain) the ledger
    gains the entry for the email and its domain, and the prospect is marked
    [unsubscribed]. *)
Theorem C8_unsubscribe_checks_stored_email (P : Platform) (token : string) (w : World)
        (prospectId email : string) (prospect : Prospect) :
  Js.falsy token = false ->
  nth_error (Js.split ":" (decodeBase64Url P token)) 0 = Some prospectId ->
  nth_error (Js.split ":" (decodeBase64Url P token)) 1 = Some email ->
  Js.falsy prospectId = false -> Js.falsy email = false ->
  find (fun p => p_id p =? prospectId) (w_prospects w) = Some prospect ->
  let response := fst (unsubscribe_GET P (Some token) w) in
  let w' := snd (unsubscribe_GET P (Some token) w) in
  (p_discoveredEmail prospect <> Some email ->
   (response = Unsub_400_email_mismatch \/ response = Unsub_500)
   /\ (w_faults w = [] -> response = Unsub_400_email_mismatch)
   /\ w_unsubscribes w' = w_unsubscribes w
   /\ w_prospects w' = w_prospects w)
  /\ (p_discoveredEmail prospect = Some email -> w_faults w = [] ->
      forall domain, email_domain email = Ok domain ->
        response = Unsub_200_confirmation email
        /\ w_unsubscribes w'
           = w_unsubscribes w
               ++ [ledger_entry email domain (w_now w) (Some (p_jobId prospect))]
        /\ suppressed (w_unsubscribes w') email = Some true
        /\ Forall2 (fun p p' =>
                      if p_id p =? prospectId
                      then p_status p' = unsubscribed
                           /\ p_unsubscribedAt p' = Some (w_now w)
                           /\ p_id p' = p_id p
                           /\ p_discoveredEmail p' = p_discoveredEmail p
                      else p' = p)
                   (w_prospects w) (w_prospects w')).
Proof.
  intros Ht Hid Hem Hfid Hfem Hfind response w'. subst response w'.
  split.
  - intro Hne.
    rewrite (unsubscribe_GET_mismatch P token w prospectId email prospect
               Ht Hid Hem Hfid Hfem Hfind Hne).
    destruct (w_faults w) as [| [] fs]; simpl; repeat split; auto; intro; discriminate.
  - intros Heq Hfaults domain Hdom.
    rewrite (unsubscribe_GET_match P token w prospectId email domain prospect
               Ht Hid Hem Hfid Hfem Hfind Heq Hfaults Hdom).
    cbn [fst snd]. simpl.
    split; [reflexivity |]. split; [reflexivity |]. split.
    + unfold suppressed. rewrite Hdom. f_equal. apply orb_true_iff. left.
      unfold ledger_has_email. rewrite existsb_app. apply orb_true_iff. right.
      simpl. rewrite String.eqb_refl. reflexivity.
    + apply Forall2_map_r. intro p.
      destruct (p_id p =? prospectId); simpl; auto.
Qed.

(** C8, witness: the token of [p1:info@foo.com] for the prospect [p1] that
    carries this address. *)
Lemma C8_witness :
  fst (unsubscribe_GET Ref.quiet (Some "cDE6aW5mb0Bmb28uY29t") Scenario.sending_ready)
  = Unsub_200_confirmation "info@foo.com".
Proof.
  exact (proj1 (proj2 (C8_unsubscribe_checks_stored_email Ref.quiet "cDE6aW5mb0Bmb28uY29t"
                         Scenario.sending_ready "p1" "info@foo.com" Scenario.ready
                         eq_refl eq_refl eq_refl eq_refl eq_refl eq_refl)
                      eq_refl eq_refl "foo.com" eq_refl)).
Defined.

(** C8, an example of the refusal: the token of [p1:other@foo.com]. *)
Example C8_mismatch_example :
  unsubscribe_GET Ref.quiet (Some (Ref.base64_encode "p1:other@foo.com")) Scenario.sending_ready
  = (Unsub_400_email_mismatch, Scenario.sending_ready).
Proof. vm_compute. reflexivity. Qed.

(* ================================================================== *)
(** ** Pagination of the business finder *)

Lemma slice0_firstn {A} (n : Z) (l : list A) :
  (0 <= n)%Z -> slice0 n l = firstn (Z.to_nat n) l.
Proof.
  intro H. unfold slice0. destruct (n <? 0)%Z eqn:E; [| reflexivity].
  apply Z.ltb_lt in E. lia.
Qed.

Lemma geocodeLocation_needs_key (P : Platform) (zip country : string)
      (location : GeocodingResult) :
  geocodeLocation P zip country = Ok location ->
  Js.falsy_opt (GOOGLE_PLACES_API_KEY P) = false.
Proof.
  unfold geocodeLocation. destruct (Js.falsy_opt (GOOGLE_PLACES_API_KEY P)); [discriminate | auto].
Qed.

(** C4 (as amended): when the first page carries a continuation token and
    fewer businesses than the maximum, [searchBusinesses] fetches one
    continuation page, asking for at most 20 of the businesses still
    missing; the result is the first page followed by that page, cut to at
    most max-count entries, whether or not the continuation page carries a
    token of its own.  An error answer of the continuation request counts
    as an empty page. *)
Theorem C4_one_continuation_page_then_truncate (P : Platform)
        (niche targetZip targetCountry : string) (radiusKm maxBusinesses : Z)
        (location : GeocodingResult) (res : PlacesResponse) (places : list RawPlace)
        (token : string) :
  geocodeLocation P targetZip targetCountry = Ok location ->
  places_searchText P (niche ++ " near " ++ targetZip ++ ", " ++ targetCountry)%string
                    (geo_lat location) (geo_lng location)
                    (radiusKmToMeters radiusKm) (Z.min maxBusinesses 20) = Ok res ->
  res_ok res = true -> res_places res = Some places ->
  res_nextPageToken res = Some token -> Js.falsy token = false ->
  (Z.of_nat (List.length places) < maxBusinesses)%Z ->
  let first := map (clean_place P) places in
  let asked := Z.min (maxBusinesses - Z.of_nat (List.length places)) 20 in
  (forall e, places_nextPage P token asked = Throw e ->
             searchBusinesses P niche targetZip targetCountry radiusKm maxBusinesses = Throw e)
  /\ (forall res2,
        places_nextPage P token asked = Ok res2 ->
        let second :=
          if res_ok res2
          then match res_places res2 with
               | Some places2 => map (clean_place P) places2
               | None => []
               end
          else [] in
        searchBusinesses P niche targetZip targetCountry radiusKm maxBusinesses
        = Ok (firstn (Z.to_nat maxBusinesses) (first ++ second)))
  /\ (forall result,
        searchBusinesses P niche targetZip targetCountry radiusKm maxBusinesses = Ok result ->
        (Z.of_nat (List.length result) <= maxBusinesses)%Z).
Proof.
  intros Hgeo Hsearch Hok Hplaces Htoken Hfalsy Hlt first asked.
  assert (Hstep :
    searchBusinesses P niche targetZip targetCountry radiusKm maxBusinesses
    = match fetchNextPage P token (maxBusinesses - Z.of_nat (List.length places)) with
      | Ok next => Ok (firstn (Z.to_nat maxBusinesses) (first ++ next))
      | Throw e => Throw e
      end).
  { unfold searchBusinesses. rewrite Hgeo.
    rewrite (geocodeLocation_needs_key _ _ _ _ Hgeo).
    rewrite Hsearch, Hok, Hplaces, Htoken. cbn [negb truthy_string]. rewrite Hfalsy.
    rewrite length_map.
    apply Z.ltb_lt in Hlt. rewrite Hlt.
    destruct (fetchNextPage P token _) as [next | e]; [| reflexivity].
    apply Z.ltb_lt in Hlt. rewrite slice0_firstn by lia. reflexivity. }
  rewrite Hstep. unfold fetchNextPage. fold asked.
  split; [| split].
  - intros e He. rewrite He. reflexivity.
  - intros res2 Hres2. rewrite Hres2.
    destruct (res_ok res2); cbn [negb]; [| reflexivity].
    destruct (res_places res2); reflexivity.
  - intros result Hr.
    assert (Hlen : forall l : list PlacesBusiness,
               (Z.of_nat (List.length (firstn (Z.to_nat maxBusinesses) l)) <= maxBusinesses)%Z).
    { intro l. rewrite length_firstn. lia. }
    destruct (places_nextPage P token asked) as [res2 | e]; [| discriminate].
    destruct (negb (res_ok res2)); [| destruct (res_places res2)];
      injection Hr as Hr; subst result; apply Hlen.
Qed.

(** C4, counterexample: the provider has three pages of twenty and the cap
    is 60; the second page carries a token, the cap is not reached, and yet
    the result has 40 businesses, where following the tokens gives 60. *)
Lemma C4_third_page_is_never_fetched :
  exists result res2,
    searchBusinesses Scenario.paged "bakery" "10001" "US" 5 60 = Ok result
    /\ List.length result = 40%nat
    /\ places_nextPage Scenario.paged "t1" 20 = Ok res2
    /\ res_nextPageToken res2 = Some "t2"
    /\ List.length (follow_pages Scenario.paged 5 60
                      (map (clean_place Scenario.paged) (Scenario.page 0)) (Some "t1"))
       = 60%nat.
Proof. do 2 eexists. vm_compute. repeat split; reflexivity. Qed.

(** C4, witness: on the three-page provider with a cap of 60 the result is
    within the cap. *)
Lemma C4_witness :
  (Z.of_nat (List.length
     match searchBusinesses Scenario.paged "bakery" "10001" "US" 5 60 with
     | Ok result => result
     | Throw _ => []
     end) <= 60)%Z.
Proof.
  refine (proj2 (proj2 (C4_one_continuation_page_then_truncate Scenario.paged
            "bakery" "10001" "US" 5 60 (mkGeo 0 0 "somewhere")
            (mkPlacesResponse true (Some (Scenario.page 0)) (Some "t1"))
            (Scenario.page 0) "t1"
            eq_refl eq_refl eq_refl eq_refl eq_refl eq_refl eq_refl)) _ _).
  vm_compute. reflexivity.
Defined.

(* ================================================================== *)
(** ** The sending stage, the sender and the manual send *)

(** The sending stage on an available store, for a job that carries its id:
    an empty batch completes the job; on any other batch the sender throws
    at the first prospect and the handler marks the job [failed]. *)
Lemma handleSending_available (P : Platform) (job : Job) (w : World) :
  job_id_stored job = true -> w_faults w = [] ->
  In (job_id job) (map job_id (w_jobs w)) ->
  handleSending P job w
  = (Ok tt,
     set_jobs (map (fun j => if job_id j =? job_id job
                             then set_job_status
                                    (match sending_batch (job_id job) w with
                                     | [] => completed
                                     | _ :: _ => failed
                                     end) (w_now w) j
                             else j)
                   (w_jobs w)) w).
Proof.
  intros Hid Hf Hin. unfold handleSending, job_dot_id. rewrite Hid.
  unfold try_catch. rewrite bind_run, (getProspectsForSending_available _ _ _ Hf).
  fold (sending_batch (job_id job) w).
  destruct (sending_batch (job_id job) w) as [| p rest] eqn:Eb.
  - cbn [List.length Nat.eqb]. rewrite (updateJobStatus_available _ _ _ Hf Hin). reflexivity.
  - cbn [List.length Nat.eqb]. rewrite bind_run.
    rewrite batchSendEmails_throws by discriminate.
    rewrite (updateJobStatus_available _ _ _ Hf Hin). reflexivity.
Qed.

(** Without an id the handler throws, and nothing has been written. *)
Lemma handleSending_undefined (P : Platform) (job : Job) (w : World) :
  job_id_stored job = false ->
  handleSending P job w = (Throw invalid_path, w).
Proof. intro Hid. unfold handleSending, job_dot_id. rewrite Hid. reflexivity. Qed.

(** Any chained relation holds across the manual send. *)
Lemma snd_send_POST (P : Platform) (debugHeader : option string)
      (body : outcome (option string)) (w : World) (R : World -> World -> Prop)
      {HR : Chained R} :
  R w (snd (send_POST P debugHeader body w)).
Proof.
  unfold send_POST.
  destruct (send_unauthorized P debugHeader); [apply chained_refl |].
  match goal with
  | |- R w (snd (match ?m w with _ => _ end)) =>
      assert (H : post R m); [| specialize (H w); destruct (m w) as [[r | e] w1]; exact H]
  end.
  chain.
Qed.

(** The manual send for a job in [sending], on an available store. *)
Lemma send_POST_in_sending (P : Platform) (debugHeader : option string) (jobId : string)
      (job : Job) (w : World) :
  send_unauthorized P debugHeader = false -> Js.falsy jobId = false ->
  w_faults w = [] ->
  find (fun j => job_id j =? jobId) (w_jobs w) = Some job ->
  job_status job = sending ->
  send_POST P debugHeader (Ok (Some jobId)) w
  = (match sending_batch jobId w with
     | [] => Send_200_nothing
     | _ :: _ => Send_500
     end, w).
Proof.
  intros Ha Hid Hf Hfind Hst. unfold send_POST. rewrite Ha.
  rewrite bind_run. cbn [lift Js.falsy_opt]. rewrite Hid.
  rewrite bind_run. unfold getJob.
  rewrite (store_read_available (fun w => find (fun j => job_id j =? jobId) (w_jobs w)) w Hf).
  rewrite Hfind, Hst. cbn [JobStatus_eqb negb].
  rewrite bind_run, (getProspectsForSending_available _ _ _ Hf).
  change (firstn 10 (filter (fun p => (p_jobId p =? jobId)
                                      && ProspectStatus_eqb (p_status p) email_found)
                            (w_prospects w)))
    with (sending_batch jobId w).
  destruct (sending_batch jobId w) as [| p rest].
  - reflexivity.
  - cbn [List.length Nat.eqb]. rewrite bind_run.
    rewrite batchSendEmails_throws by discriminate. reflexivity.
Qed.

(* ------------------------------------------------------------------ *)
(** *** Computations that do not consult the ledger *)



















(* ------------------------------------------------------------------ *)
(** *** What the sending stage writes *)

Lemma updateJobStatus_keeps_counters (jobId : option string) (status : JobStatus)
      (w : World) :
  map job_stats (w_jobs (snd (updateJobStatus jobId status w))) = map job_stats (w_jobs w).
Proof.
  run_writer w; try reflexivity;
    rewrite map_map; apply map_ext; intro j; destruct (job_id j =? _); reflexivity.
Qed.

(** A write of a job status that throws has written nothing. *)
Lemma updateJobStatus_thrown (jobId : option string) (status : JobStatus) (w w' : World)
      (e : JsError) :
  updateJobStatus jobId status w = (Throw e, w') ->
  w_jobs w' = w_jobs w /\ w_prospects w' = w_prospects w /\ w_outbox w' = w_outbox w.
Proof.
  run_writer w; intro H; inversion H; subst; repeat split; reflexivity.
Qed.

(** The sending stage ends in one write of the status of its job, on a
    world that still holds the records it found; or, for a job without an
    id, in no write at all. *)
Lemma handleSending_cases (P : Platform) (job : Job) (w : World) :
  handleSending P job w = (Throw invalid_path, w)
  \/ exists status w1,
       w_jobs w1 = w_jobs w /\ w_prospects w1 = w_prospects w
       /\ w_outbox w1 = w_outbox w
       /\ handleSending P job w = updateJobStatus (Some (job_id job)) status w1.
Proof.
  destruct (job_dot_id_cases job) as [E | E]; unfold handleSending; rewrite E.
  2:{ left. reflexivity. }
  right. unfold try_catch. rewrite bind_run.
  unfold getProspectsForSending, query_value. rewrite bind_run. unfold ret at 1.
  cbv beta iota.
  destruct (store_call _ w) as [[prospects | e] w1] eqn:E1;
    (apply store_read_inv in E1; [| reflexivity]);
    destruct E1 as (_ & Hj & Hp & _ & Ho & _).
  - destruct prospects as [| p rest].
    + cbn [List.length Nat.eqb].
      destruct (updateJobStatus (Some (job_id job)) completed w1) as [[[] | e] w2] eqn:E2.
      * exists completed, w1. rewrite E2. repeat split; assumption.
      * apply updateJobStatus_thrown in E2. destruct E2 as (Hj2 & Hp2 & Ho2).
        exists failed, w2. repeat split; congruence.
    + exists failed, w1. cbn [List.length Nat.eqb]. rewrite bind_run.
      rewrite batchSendEmails_throws by discriminate. repeat split; assumption.
  - exists failed, w1. repeat split; assumption.
Qed.

(** The sending stage leaves the counters of every job, the prospect
    records and the outbox as they were. *)
Lemma handleSending_counters (P : Platform) (job : Job) (w : World) :
  map job_stats (w_jobs (snd (handleSending P job w))) = map job_stats (w_jobs w)
  /\ w_prospects (snd (handleSending P job w)) = w_prospects w
  /\ w_outbox (snd (handleSending P job w)) = w_outbox w.
Proof.
  destruct (handleSending_cases P job w) as [H | (status & w1 & Hj & Hp & Ho & H)];
    rewrite H.
  - repeat split; reflexivity.
  - rewrite updateJobStatus_keeps_counters, Hj.
    assert (Hp' : post same_prospects (updateJobStatus (Some (job_id job)) status))
      by frame_writer.
    assert (Ho' : post same_outbox (updateJobStatus (Some (job_id job)) status))
      by frame_writer.
    specialize (Hp' w1). specialize (Ho' w1). unfold same_prospects, same_outbox in *.
    repeat split; congruence.
Qed.

(* ------------------------------------------------------------------ *)
(** *** The manual send and the counters of the job *)

(** C10, what the code does: the manual send writes no record at all, of
    the job or of a prospect, and hands nothing to the mail provider.  For
    a job in [sending] on an available store it answers that nothing is
    ready when the batch is empty, and with the server error otherwise:
    the sender throws at the first prospect of the batch.  The sending
    stage of the scheduler does not increment the counters either: it
    leaves the counters of every job, the prospect records and the outbox
    as they were, and for a job that carries its id it marks the job
    [completed] on an empty batch and [failed] on any other. *)
Theorem C10_manual_send_and_sending_stage_write_no_counter (P : Platform)
        (debugHeader : option string) (body : outcome (option string)) (w : World) :
  w_jobs (snd (send_POST P debugHeader body w)) = w_jobs w
  /\ w_prospects (snd (send_POST P debugHeader body w)) = w_prospects w
  /\ w_unsubscribes (snd (send_POST P debugHeader body w)) = w_unsubscribes w
  /\ w_outbox (snd (send_POST P debugHeader body w)) = w_outbox w
  /\ (forall jobId job,
        send_unauthorized P debugHeader = false ->
        body = Ok (Some jobId) -> Js.falsy jobId = false ->
        w_faults w = [] ->
        find (fun j => job_id j =? jobId) (w_jobs w) = Some job ->
        job_status job = sending ->
        send_POST P debugHeader body w
        = (match sending_batch jobId w with
           | [] => Send_200_nothing
           | _ :: _ => Send_500
           end, w))
  /\ (forall job,
        map job_stats (w_jobs (snd (handleSending P job w))) = map job_stats (w_jobs w)
        /\ w_prospects (snd (handleSending P job w)) = w_prospects w
        /\ w_outbox (snd (handleSending P job w)) = w_outbox w)
  /\ (forall job,
        job_id_stored job = true -> w_faults w = [] ->
        In (job_id job) (map job_id (w_jobs w)) ->
        handleSending P job w
        = (Ok tt,
           set_jobs (map (fun j => if job_id j =? job_id job
                                   then set_job_status
                                          (match sending_batch (job_id job) w with
                                           | [] => completed
                                           | _ :: _ => failed
                                           end) (w_now w) j
                                   else j)
                         (w_jobs w)) w)).
Proof.
  split; [apply (snd_send_POST P debugHeader body w same_jobs) |].
  split; [apply (snd_send_POST P debugHeader body w same_prospects) |].
  split; [apply (snd_send_POST P debugHeader body w same_ledger) |].
  split; [apply (snd_send_POST P debugHeader body w same_outbox) |].
  split; [| split].
  - intros jobId job Ha Hb Hid Hf Hfind Hst. subst body.
    apply (send_POST_in_sending P debugHeader jobId job w); assumption.
  - intro job. apply handleSending_counters.
  - intros job Hid Hf Hin. apply handleSending_available; assumption.
Qed.

(** C10, the failing input: one job in [sending] with one prospect in
    [email_found] that carries [info@foo.com], an available store and a
    mail provider that accepts every message.  The manual send answers
    with the server error and the prospect is still in [email_found],
    without message id; the tick of the scheduler hands nothing to the
    provider, leaves the counters at zero and marks the job [failed]. *)
Example C10_failing_input :
  send_POST Ref.quiet None (Ok (Some "j1")) Scenario.sending_ready
  = (Send_500, Scenario.sending_ready)
  /\ map (fun p => (p_status p, p_sendGridMessageId p))
         (w_prospects Scenario.sending_ready)
     = [(email_found, None)]
  /\ fst (cron_GET Ref.quiet None Scenario.sending_ready) = Cron_200 1
  /\ map (fun j => (job_status j, s_sent (job_stats j), s_bounced (job_stats j)))
         (w_jobs (snd (cron_GET Ref.quiet None Scenario.sending_ready)))
     = [(failed, 0%Z, 0%Z)]
  /\ map p_status (w_prospects (snd (cron_GET Ref.quiet None Scenario.sending_ready)))
     = [email_found]
  /\ w_outbox (snd (cron_GET Ref.quiet None Scenario.sending_ready)) = [].
Proof. vm_compute. repeat split; reflexivity. Qed.

(** C10, witness: the manual send for the job of the failing input,
    through the theorem. *)
Lemma C10_witness :
  send_POST Ref.quiet None (Ok (Some "j1")) Scenario.sending_ready
  = (Send_500, Scenario.sending_ready).
Proof.
  destruct (C10_manual_send_and_sending_stage_write_no_counter
              Ref.quiet None (Ok (Some "j1")) Scenario.sending_ready)
    as (_ & _ & _ & _ & H & _).
  exact (H "j1" (Scenario.job "j1" sending 1) eq_refl eq_refl eq_refl eq_refl eq_refl
           eq_refl).
Defined.

(* ------------------------------------------------------------------ *)
(** *** A failed send *)

(** C6, what the code does: the sender reads an identifier that is bound
    nowhere before it builds a message, so every call throws, on every
    store and for every prospect, and has written nothing: no send is
    attempted, no rejection of the provider is observed and none is
    classified.  A batch that is not empty throws with its first prospect.
    The sending stage leaves the prospect records and the outbox as they
    were, so no prospect becomes [bounced]; for a job that carries its id,
    on an available store, it marks the job [failed] when the batch is not
    empty. *)
Theorem C6_sender_throws_before_any_send (P : Platform) (prospect : Prospect)
        (jobId : option string) (w : World) :
  sendEmailToProspect P prospect jobId w = (Throw (ReferenceError "prospect"), w)
  /\ (forall prospects,
        prospects <> [] ->
        batchSendEmails P prospects jobId w = (Throw (ReferenceError "prospect"), w))
  /\ (forall job,
        w_prospects (snd (handleSending P job w)) = w_prospects w
        /\ w_outbox (snd (handleSending P job w)) = w_outbox w)
  /\ (forall job,
        job_id_stored job = true -> w_faults w = [] ->
        In (job_id job) (map job_id (w_jobs w)) ->
        sending_batch (job_id job) w <> [] ->
        handleSending P job w
        = (Ok tt,
           set_jobs (map (fun j => if job_id j =? job_id job
                                   then set_job_status failed (w_now w) j else j)
                         (w_jobs w)) w)).
Proof.
  split; [apply sendEmailToProspect_throws |].
  split; [intros prospects Hne; apply batchSendEmails_throws; exact Hne |].
  split.
  - intro job. destruct (handleSending_counters P job w) as (_ & Hp & Ho). auto.
  - intros job Hid Hf Hin Hne. rewrite (handleSending_available P job w Hid Hf Hin).
    destruct (sending_batch (job_id job) w); [contradiction | reflexivity].
Qed.

(** C6, the failing input: one job in [sending] with one prospect in
    [email_found] and a mail provider that rejects every message with
    status code 400.  The call of the sender throws; after the tick the
    prospect is still in [email_found] without bounce reason or time, the
    provider has been handed nothing and the job is [failed]; a second tick
    changes nothing, so the send is not tried again. *)
Example C6_failing_input :
  fst (sendEmailToProspect (Scenario.rejecting 400) Scenario.ready (Some "j1")
                           Scenario.sending_ready)
  = Throw (ReferenceError "prospect")
  /\ map (fun p => (p_status p, p_bounceReason p, p_bouncedAt p))
         (w_prospects (snd (cron_GET (Scenario.rejecting 400) None Scenario.sending_ready)))
     = [(email_found, None, None)]
  /\ map job_status
         (w_jobs (snd (cron_GET (Scenario.rejecting 400) None Scenario.sending_ready)))
     = [failed]
  /\ w_outbox (snd (cron_GET (Scenario.rejecting 400) None Scenario.sending_ready)) = []
  /\ run_ticks [(Scenario.rejecting 400, None); (Scenario.rejecting 400, None)]
               Scenario.sending_ready
     = snd (cron_GET (Scenario.rejecting 400) None Scenario.sending_ready).
Proof. vm_compute. repeat split; reflexivity. Qed.

(** C6, witness: the sending stage for the job of the failing input,
    through the theorem. *)
Lemma C6_witness :
  map job_status
      (w_jobs (snd (handleSending (Scenario.rejecting 400) (Scenario.job "j1" sending 1)
                                  Scenario.sending_ready)))
  = [failed].
Proof.
  destruct (C6_sender_throws_before_any_send (Scenario.rejecting 400) Scenario.ready
              (Some "j1") Scenario.sending_ready) as (_ & _ & _ & H).
  rewrite (H (Scenario.job "j1" sending 1) eq_refl eq_refl (or_introl eq_refl)).
  - reflexivity.
  - discriminate.
Defined.

(* ------------------------------------------------------------------ *)
(** *** The ledger, the inference and the sending stage *)




(* ================================================================== *)
(** ** The stage handlers: what they keep and what they may write *)

Section Handlers.
Variable P : Platform.





Ltac job_writer :=
  first [ apply jobs_moved_updateJobStatus_dot; simpl; tauto
        | apply jobs_moved_incrementJobStat_dot
        | apply update_discovered_frame; [exact _ | intros; frame_writer]
        | frame_writer ].

(** A handler writes only the record of its own job, and only statuses
    that lie ahead of the status it found. *)
Lemma process_guarded_moves job :
  is_active job = true ->
  post (jobs_moved (job_id job) (statuses_written (job_status job))) (process_guarded P job).
Proof.
  intro Ha. unfold process_guarded, processJob, is_active in *.
  destruct (job_status job) eqn:Es; try discriminate.
  - unfold handleProspecting. rewrite Es. simpl JobStatus_eqb. cbv iota.
    chain; job_writer.
  - unfold handleProspecting. rewrite Es. simpl JobStatus_eqb. cbv iota.
    chain; job_writer.
  - unfold handleEmailDiscovery. chain; job_writer.
  - unfold handleSending. chain; job_writer.
Qed.



End Handlers.

(* ================================================================== *)
(** ** One tick *)

Lemma insert_by_createdAt_perm (j : Job) (l : list Job) :
  Permutation (insert_by_createdAt j l) (j :: l).
Proof.
  induction l as [| h t IH]; simpl; [apply Permutation_refl |].
  destruct (job_createdAt h <? job_createdAt j)%nat; [apply Permutation_refl |].
  eapply Permutation_trans; [apply perm_skip; exact IH | apply perm_swap].
Qed.

Lemma orderBy_createdAt_desc_perm (l : list Job) :
  Permutation (orderBy_createdAt_desc l) l.
Proof.
  unfold orderBy_createdAt_desc. induction l as [| h t IH]; simpl; [constructor |].
  eapply Permutation_trans; [apply insert_by_createdAt_perm | apply perm_skip; exact IH].
Qed.

Lemma active_jobs_in (w : World) (j : Job) :
  In j (active_jobs w) -> In j (w_jobs w) /\ is_active j = true.
Proof.
  unfold active_jobs, loaded_jobs. intro H. apply filter_In in H. destruct H as (H & Ha).
  split; [| exact Ha]. apply In_firstn in H.
  eapply Permutation_in; [apply orderBy_createdAt_desc_perm | exact H].
Qed.

Lemma active_ids_distinct (jobs : list Job) :
  NoDup (map job_id jobs) -> NoDup (map job_id (filter is_active jobs)).
Proof.
  induction jobs as [| j rest IH]; simpl; intro Hnd; [constructor |].
  inversion Hnd as [| id ids Hfresh Hrest]; subst.
  destruct (is_active j); simpl; [| auto].
  constructor; [| auto].
  intro Hin. apply Hfresh. apply in_map_iff in Hin. destruct Hin as (k & Hk & Hin).
  apply filter_In in Hin. apply in_map_iff. exists k. tauto.
Qed.

Lemma loaded_ids_distinct (limit : nat) (jobs : list Job) :
  NoDup (map job_id jobs) -> NoDup (map job_id (firstn limit jobs)).
Proof.
  intro Hnd. rewrite <- (firstn_skipn limit jobs), map_app in Hnd.
  apply NoDup_app_remove_r in Hnd. exact Hnd.
Qed.

Lemma active_jobs_NoDup (w : World) :
  NoDup (map job_id (w_jobs w)) -> NoDup (map job_id (active_jobs w)).
Proof.
  intro H. unfold active_jobs, loaded_jobs.
  apply active_ids_distinct. apply loaded_ids_distinct.
  eapply Permutation_NoDup; [| exact H].
  apply Permutation_map. apply Permutation_sym. apply orderBy_createdAt_desc_perm.
Qed.

Lemma NoDup_map_same {A B} (f : A -> B) (l : list A) (a b : A) :
  NoDup (map f l) -> In a l -> In b l -> f a = f b -> a = b.
Proof.
  induction l as [| x r IH]; simpl; intros Hnd Ha Hb Hf; [contradiction |].
  inversion Hnd as [| y ys Hnin Hnd']; subst.
  destruct Ha as [Ha | Ha], Hb as [Hb | Hb]; subst.
  - reflexivity.
  - exfalso. apply Hnin. rewrite Hf. apply in_map. exact Hb.
  - exfalso. apply Hnin. rewrite <- Hf. apply in_map. exact Ha.
  - auto.
Qed.

Lemma Forall2_chain_in {A} (Q1 Q2 Q3 : A -> A -> Prop) (l1 l2 l3 : list A) :
  (forall a b c, In a l1 -> Q1 a b -> Q2 b c -> Q3 a c) ->
  Forall2 Q1 l1 l2 -> Forall2 Q2 l2 l3 -> Forall2 Q3 l1 l3.
Proof.
  intros HQ H12. revert l3 HQ.
  induction H12 as [| a b l1 l2 Hab _ IH]; intros l3 HQ H23; inversion H23; subst.
  - constructor.
  - constructor.
    + eapply HQ; [left; reflexivity | eassumption | eassumption].
    + apply IH; [| assumption]. intros a0 b0 c0 Hx. apply HQ. right. exact Hx.
Qed.

(** The invariant of the loop of the tick over the jobs still to process:
    every record has its id, has made a tick step, and is untouched while
    its job is still to come. *)
Lemma tick_loop_moves (P : Platform) (w0 : World) (jobs : list Job) :
  NoDup (map job_id (w_jobs w0)) ->
  forall w,
    NoDup (map job_id jobs) ->
    (forall j, In j jobs -> In j (w_jobs w0) /\ is_active j = true) ->
    Forall2 (fun a b => job_id b = job_id a
                        /\ tick_step (job_status a) (job_status b)
                        /\ (In (job_id a) (map job_id jobs) -> b = a))
            (w_jobs w0) (w_jobs w) ->
    tick_moved w0 (snd (for_each (process_guarded P) jobs w)).
Proof.
  intro Hnd0. induction jobs as [| j rest IH]; intros w Hnd Hin Hinv; simpl.
  - unfold tick_moved. eapply Forall2_impl; [| exact Hinv]. simpl. tauto.
  - destruct (Hin j (or_introl eq_refl)) as (Hj0 & Hact).
    pose proof (process_guarded_moves P j Hact w) as Hmove.
    unfold jobs_moved in Hmove.
    inversion Hnd as [| x xs Hnotin Hnd']; subst.
    assert (Hinv' :
      Forall2 (fun a b => job_id b = job_id a
                          /\ tick_step (job_status a) (job_status b)
                          /\ (In (job_id a) (map job_id rest) -> b = a))
              (w_jobs w0) (w_jobs (snd (process_guarded P j w)))).
    { eapply Forall2_chain_in; [| exact Hinv | exact Hmove].
      intros a b c Ha (Hid & Hstep & Hkeep) (Hid' & Hframe & Hst).
      destruct (String.eqb_spec (job_id a) (job_id j)) as [Heq | Hne].
      - assert (b = a) by (apply Hkeep; simpl; auto). subst b.
        assert (a = j) by (exact (NoDup_map_same job_id (w_jobs w0) a j Hnd0 Ha Hj0 Heq)).
        subst a.
        repeat split.
        + congruence.
        + unfold tick_step. destruct Hst; [left | right]; assumption.
        + intro Hr. contradiction.
      - assert (c = b) by (apply Hframe; congruence). subst c.
        repeat split; auto.
        intro Hr. apply Hkeep. simpl. auto. }
    unfold bind.
    destruct (process_guarded P j w) as [[[] | e] w1] eqn:E; simpl in Hinv'.
    + apply IH; auto. intros k Hk. apply Hin. right. exact Hk.
    + simpl. unfold tick_moved. eapply Forall2_impl; [| exact Hinv']. simpl. tauto.
Qed.

(** What one tick does to the job records. *)
Lemma cron_GET_moves (P : Platform) (authHeader : option string) (w : World) :
  NoDup (map job_id (w_jobs w)) -> tick_moved w (snd (cron_GET P authHeader w)).
Proof.
  intro Hnd. unfold cron_GET.
  assert (Hsame : forall w', w_jobs w' = w_jobs w -> tick_moved w w').
  { intros w' H. unfold tick_moved. rewrite H. apply Forall2_same.
    intro a. split; [reflexivity | left; reflexivity]. }
  destruct (cron_unauthorized P authHeader); [apply Hsame; reflexivity |].
  unfold bind at 1. unfold getAllJobs, getAllJobs_limit.
  destruct (store_call _ w) as [[jobs | e] w1] eqn:E;
    (apply store_read_inv in E; [| reflexivity]); destruct E as (Ho & Hj & _);
    [| apply Hsame; exact Hj].
  destruct Ho as [Ho | Ho]; [| discriminate]. injection Ho as Ho.
  change (jobs = loaded_jobs w) in Ho. subst jobs.
  fold (active_jobs w).
  pose proof (tick_loop_moves P w (active_jobs w) Hnd w1 (active_jobs_NoDup w Hnd)
                (active_jobs_in w)) as Hloop.
  unfold bind, ret.
  destruct (for_each (process_guarded P) (active_jobs w) w1) as [[[] | e] w2];
    simpl in *; apply Hloop; rewrite Hj; apply Forall2_same;
    intro a; repeat split; auto; left; reflexivity.
Qed.

(* ================================================================== *)
(** ** The pipeline of statuses *)

Lemma tick_step_follows_pipeline (s s' : JobStatus) :
  tick_step s s' -> follows_pipeline s s'.
Proof.
  unfold tick_step, follows_pipeline. intros [H | H].
  - subst. apply rt_refl.
  - destruct s; simpl in H;
      repeat match goal with
             | H : _ \/ _ |- _ => destruct H as [H | H]
             | H : False |- _ => contradiction
             end; subst;
      try (apply rt_step; constructor; discriminate).
    apply rt_trans with prospecting; apply rt_step; constructor.
Qed.

Lemma edge_stage (s s' : JobStatus) : edge s s' -> (stage s <= stage s')%nat.
Proof. intro H. destruct H; simpl; try lia. destruct s; simpl; lia. Qed.

Lemma follows_pipeline_stage (s s' : JobStatus) :
  follows_pipeline s s' -> (stage s <= stage s')%nat.
Proof.
  unfold follows_pipeline. induction 1 as [s s' H | s | s t u _ IH1 _ IH2].
  - apply edge_stage. exact H.
  - lia.
  - lia.
Qed.

Lemma terminal_no_edge (s s' : JobStatus) : terminal s = true -> ~ edge s s'.
Proof.
  intros Ht He. destruct He; simpl in Ht; try discriminate.
  destruct s; simpl in Ht; try discriminate; congruence.
Qed.

Lemma follows_pipeline_terminal (s s' : JobStatus) :
  terminal s = true -> follows_pipeline s s' -> s' = s.
Proof.
  unfold follows_pipeline. intros Ht H. apply clos_rt_rt1n in H.
  destruct H as [| t u He _]; [reflexivity |].
  exfalso. exact (terminal_no_edge s t Ht He).
Qed.

Lemma edge_to_failed (s : JobStatus) : edge s failed -> terminal s = false.
Proof.
  intro H. inversion H; subst. destruct s; simpl; congruence.
Qed.

Lemma tick_moved_ids (w w' : World) :
  tick_moved w w' -> map job_id (w_jobs w') = map job_id (w_jobs w).
Proof.
  unfold tick_moved. induction 1 as [| a b l l' (Hid & _) _ IH]; simpl; congruence.
Qed.

(** Any number of ticks moves every job along the pipeline. *)
Lemma run_ticks_moves (ticks : list (Platform * option string)) (w : World) :
  NoDup (map job_id (w_jobs w)) -> pipeline_moved w (run_ticks ticks w).
Proof.
  revert w. induction ticks as [| [P auth] rest IH]; intros w Hnd; simpl.
  - unfold pipeline_moved. apply Forall2_same. intro a.
    split; [reflexivity | apply rt_refl].
  - pose proof (cron_GET_moves P auth w Hnd) as Hstep.
    assert (Hnd' : NoDup (map job_id (w_jobs (snd (cron_GET P auth w))))).
    { rewrite (tick_moved_ids _ _ Hstep). exact Hnd. }
    specialize (IH _ Hnd'). unfold pipeline_moved, tick_moved in *.
    eapply Forall2_chain_in; [| exact Hstep | exact IH].
    intros a b c _ (Hid & Hs) (Hid' & Hp). split; [congruence |].
    eapply rt_trans; [apply tick_step_follows_pipeline; exact Hs | exact Hp].
Qed.

(** C7: under the ticks of the engine, on a store whose job ids are
    distinct, every job keeps its id and its status moves only along the
    edges draft, prospecting, discovering, sending, completed, with failed
    entered from a non-terminal status only: after any number of ticks the
    status is reachable from the earlier one along the edges, its stage is
    not an earlier one, and a job that was completed or failed has the
    status it had.  In one tick a status stays or becomes one of those its
    handler writes. *)
Theorem C7_status_moves_along_pipeline (ticks : list (Platform * option string))
        (w : World) :
  NoDup (map job_id (w_jobs w)) ->
  Forall2 (fun a b =>
             job_id b = job_id a
             /\ follows_pipeline (job_status a) (job_status b)
             /\ (stage (job_status a) <= stage (job_status b))%nat
             /\ (terminal (job_status a) = true -> job_status b = job_status a))
          (w_jobs w) (w_jobs (run_ticks ticks w))
  /\ (forall P authHeader,
        Forall2 (fun a b =>
                   job_id b = job_id a
                   /\ (job_status b = job_status a
                       \/ In (job_status b) (statuses_written (job_status a))))
                (w_jobs w) (w_jobs (snd (cron_GET P authHeader w))))
  /\ (forall s s', tick_step s s' -> follows_pipeline s s')
  /\ (forall s, edge s failed -> terminal s = false)
  /\ (forall s s', terminal s = true -> ~ edge s s').
Proof.
  intro Hnd. split; [| split; [| split; [| split]]].
  - pose proof (run_ticks_moves ticks w Hnd) as H. unfold pipeline_moved in H.
    eapply Forall2_impl; [| exact H]. simpl. intros a b (Hid & Hp).
    repeat split; auto.
    + apply follows_pipeline_stage. exact Hp.
    + intro Ht. apply follows_pipeline_terminal; assumption.
  - intros P authHeader. apply (cron_GET_moves P authHeader w Hnd).
  - apply tick_step_follows_pipeline.
  - apply edge_to_failed.
  - apply terminal_no_edge.
Qed.

(** C7, witness: two ticks over the job in [discovering]. *)
Lemma C7_witness :
  Forall2 (fun a b =>
             job_id b = job_id a
             /\ follows_pipeline (job_status a) (job_status b)
             /\ (stage (job_status a) <= stage (job_status b))%nat
             /\ (terminal (job_status a) = true -> job_status b = job_status a))
          (w_jobs Scenario.discovering_foo)
          (w_jobs (run_ticks [(Ref.quiet, None); (Ref.quiet, None)] Scenario.discovering_foo)).
Proof.
  apply (C7_status_moves_along_pipeline [(Ref.quiet, None); (Ref.quiet, None)]
           Scenario.discovering_foo).
  constructor; [simpl; tauto | constructor].
Defined.

(** C7, an example: the job in [discovering] is in [sending] after two ticks. *)
Example C7_two_ticks_example :
  map job_status (w_jobs (run_ticks [(Ref.quiet, None); (Ref.quiet, None)]
                                    Scenario.discovering_foo)) = [sending].
Proof. vm_compute. reflexivity. Qed.

(* ================================================================== *)
(** ** Failure isolation within a tick *)





Lemma getAllJobs_answer (w : World) :
  getAllJobs w
  = match w_faults w with
    | [] => (Ok (loaded_jobs w), w)
    | true :: fs => (Throw store_unavailable, set_faults fs w)
    | false :: fs => (Ok (loaded_jobs w), set_faults fs w)
    end.
Proof.
  unfold getAllJobs, getAllJobs_limit, store_call, loaded_jobs.
  destruct (w_faults w) as [| [] fs]; reflexivity.
Qed.

(** The answer of an authorized tick. *)
Lemma cron_GET_answer (P : Platform) (authHeader : option string) (w : World) :
  cron_unauthorized P authHeader = false ->
  match w_faults w with
  | true :: fs => cron_GET P authHeader w = (Cron_500, set_faults fs w)
  | rest =>
      let w1 := match rest with [] => w | _ :: fs => set_faults fs w end in
      cron_GET P authHeader w
      = match for_each (process_guarded P) (active_jobs w) w1 with
        | (Ok _, w2) => (Cron_200 (List.length (active_jobs w)), w2)
        | (Throw _, w2) => (Cron_500, w2)
        end
  end.
Proof.
  intro Hauth. unfold cron_GET. rewrite Hauth.
  rewrite bind_run, getAllJobs_answer.
  destruct (w_faults w) as [| [] fs]; cbv beta iota zeta.
  - fold (active_jobs w). unfold bind, ret.
    destruct (for_each (process_guarded P) (active_jobs w) w) as [[[] | e] w2]; reflexivity.
  - reflexivity.
  - fold (active_jobs w). unfold bind, ret.
    destruct (for_each (process_guarded P) (active_jobs w) (set_faults fs w))
      as [[[] | e] w2]; reflexivity.
Qed.




(** C3, an example: the store rejects the first write for the job [j1];
    the tick marks [j1] failed, goes on to [j2] and reports success for
    both. *)
Example C3_one_rejection_example :
  fst (cron_GET Ref.quiet None Scenario.two_drafts_one_rejection) = Cron_200 2
  /\ map (fun j => (job_id j, job_status j))
         (w_jobs (snd (cron_GET Ref.quiet None Scenario.two_drafts_one_rejection)))
     = [("j1", failed); ("j2", discovering)].
Proof. vm_compute. split; reflexivity. Qed.

(* ================================================================== *)
(** ** The discovering stage after a batch *)

Lemma getProspectsForJob_inv (jobId : string) (status : option ProspectStatus)
      (limit : option nat) (w w' : World) (o : outcome (list Prospect * nat)) :
  getProspectsForJob (Some jobId) status limit w = (o, w') ->
  (forall page, o = Ok page ->
     page = (limit_opt limit
               (filter (fun p => (p_jobId p =? jobId) && status_filter status p)
                       (w_prospects w)),
             List.length (filter (fun p => p_jobId p =? jobId) (w_prospects w))))
  /\ w_prospects w' = w_prospects w /\ w_jobs w' = w_jobs w.
Proof.
  unfold getProspectsForJob, query_value. rewrite bind_run. unfold ret at 1.
  cbv beta iota. rewrite bind_run.
  destruct (store_call _ w) as [[ps | e] w1] eqn:E1;
    (apply store_read_inv in E1; [| reflexivity]); destruct E1 as (Ho1 & Hj1 & Hp1 & _).
  - rewrite bind_run.
    destruct (store_call _ w1) as [[n | e] w2] eqn:E2;
      (apply store_read_inv in E2; [| reflexivity]); destruct E2 as (Ho2 & Hj2 & Hp2 & _).
    + unfold ret. intro H. injection H as H1 H2. subst o w'.
      split; [| split; congruence].
      intros page Hpage. injection Hpage as Hpage. subst page.
      destruct Ho1 as [Ho1 | Ho1]; [| discriminate].
      destruct Ho2 as [Ho2 | Ho2]; [| discriminate].
      injection Ho1 as Ho1. injection Ho2 as Ho2. subst ps n.
      cbv beta. rewrite Hp1. reflexivity.
    + intro H. injection H as H1 H2. subst o w'.
      split; [intros page Hpage; discriminate | split; congruence].
  - intro H. injection H as H1 H2. subst o w'.
    split; [intros page Hpage; discriminate | split; congruence].
Qed.

Lemma jobs_moved_from (jobId : string) (written : list JobStatus) (w w1 w' : World) :
  w_jobs w1 = w_jobs w -> jobs_moved jobId written w1 w' -> jobs_moved jobId written w w'.
Proof. unfold jobs_moved. intro H. rewrite H. auto. Qed.

Lemma jobs_moved_unchanged (jobId : string) (written : list JobStatus) (w w' : World) :
  w_jobs w' = w_jobs w -> jobs_moved jobId written w w'.
Proof.
  unfold jobs_moved. intro H. rewrite H. apply Forall2_same. apply job_moved_same.
Qed.

Lemma jobs_moved_more (jobId : string) (written : list JobStatus) (w w' : World) :
  jobs_moved jobId [] w w' -> jobs_moved jobId written w w'.
Proof.
  unfold jobs_moved. intro H. eapply Forall2_impl; [| exact H].
  unfold job_moved. simpl. tauto.
Qed.

Lemma count_by_owner (jobId : string) (l : list Prospect) :
  List.length (filter (fun p => p_jobId p =? jobId) l)
  = List.length (filter (fun s => s =? jobId) (map p_jobId l)).
Proof.
  induction l as [| p r IH]; simpl; [reflexivity |].
  destruct (p_jobId p =? jobId); simpl; congruence.
Qed.

Lemma batch_counts (jobId : string) (status : option ProspectStatus) (limit : option nat)
      (l : list Prospect) :
  limit_opt limit (filter (fun p => (p_jobId p =? jobId) && status_filter status p) l) <> [] ->
  (List.length (filter (fun p => (p_jobId p =? jobId)%string) l) =? 0)%nat = false.
Proof.
  intro H.
  destruct (filter (fun p => (p_jobId p =? jobId) && status_filter status p) l)
    as [| p r] eqn:E.
  - exfalso. apply H. destruct limit as [[| n] |]; reflexivity.
  - assert (Hin : In p (filter (fun p => p_jobId p =? jobId) l)).
    { assert (Hp : In p (p :: r)) by (left; reflexivity).
      rewrite <- E in Hp. apply filter_In in Hp. destruct Hp as (Hp & Hc).
      apply andb_true_iff in Hc. apply filter_In. tauto. }
    destruct (filter (fun p => p_jobId p =? jobId) l); [contradiction | reflexivity].
Qed.

(** C2, what the code does: when the batch fetched by the discovering
    handler is not empty, the handler never advances the job: the re-check
    reads [total], the count of all the prospects of the job, which the
    batch itself makes positive.  The records of the job keep their status
    or become [failed]; no other record changes. *)
Theorem C2_nonempty_batch_never_advances (P : Platform) (job : Job) (w : World) :
  limit_opt (Some EMAIL_DISCOVERY_BATCH_SIZE)
            (filter (fun p => (p_jobId p =? job_id job) && status_filter (Some found) p)
                    (w_prospects w)) <> [] ->
  Forall2 (fun a b =>
             job_id b = job_id a
             /\ (job_id a <> job_id job -> b = a)
             /\ (job_status b = job_status a \/ job_status b = failed))
          (w_jobs w) (w_jobs (snd (handleEmailDiscovery P job w))).
Proof.
  intro Hne.
  assert (Hgoal : jobs_moved (job_id job) [failed] w (snd (handleEmailDiscovery P job w))).
  2:{ unfold jobs_moved in Hgoal. eapply Forall2_impl; [| exact Hgoal].
      unfold job_moved. simpl. intros a b (H1 & H2 & [H3 | [H3 | []]]); auto. }
  destruct (job_dot_id_cases job) as [Eid | Eid].
  2:{ unfold handleEmailDiscovery. rewrite Eid. apply jobs_moved_unchanged. reflexivity. }
  assert (Hcatch : forall w1,
             jobs_moved (job_id job) [failed] w w1 ->
             jobs_moved (job_id job) [failed] w
                        (snd (updateJobStatus (Some (job_id job)) failed w1))).
  { intros w1 H. eapply chained_trans; [exact H |].
    apply jobs_moved_updateJobStatus. left. reflexivity. }
  unfold handleEmailDiscovery. rewrite Eid. unfold try_catch. rewrite bind_run.
  destruct (getProspectsForJob (Some (job_id job)) (Some found) (Some EMAIL_DISCOVERY_BATCH_SIZE) w)
    as [[page | e] w1] eqn:E1;
    apply getProspectsForJob_inv in E1; destruct E1 as (Hpage & Hp1 & Hj1).
  2:{ apply (Hcatch w1). apply jobs_moved_unchanged. exact Hj1. }
  specialize (Hpage page eq_refl). subst page. cbn [fst].
  remember (limit_opt (Some EMAIL_DISCOVERY_BATCH_SIZE)
              (filter (fun p => (p_jobId p =? job_id job) && status_filter (Some found) p)
                      (w_prospects w))) as batch eqn:Hbatch.
  assert (Hlen : (List.length batch =? 0)%nat = false)
    by (destruct batch; [contradiction | reflexivity]).
  rewrite Hlen.
  rewrite bind_run.
  pose proof (post_batchDiscoverEmails (R := same_jobs) P batch w1) as Hj2.
  pose proof (post_batchDiscoverEmails (R := same_prospects) P batch w1) as Hp2.
  destruct (batchDiscoverEmails P batch w1) as [[results | e] w2];
    unfold same_jobs, same_prospects in Hj2, Hp2; simpl in Hj2, Hp2.
  2:{ apply (Hcatch w2). apply jobs_moved_unchanged. congruence. }
  rewrite bind_run.
  assert (Hj3 : post same_jobs (update_discovered results 0))
    by (apply update_discovered_frame; [exact _ | intros; frame_writer]).
  assert (Ho3 : post same_owners (update_discovered results 0))
    by (apply update_discovered_frame; [exact _ | intros; frame_writer]).
  specialize (Hj3 w2). specialize (Ho3 w2).
  destruct (update_discovered results 0 w2) as [[count | e] w3];
    unfold same_jobs, same_owners in Hj3, Ho3; simpl in Hj3, Ho3.
  2:{ apply (Hcatch w3). apply jobs_moved_unchanged. congruence. }
  rewrite bind_run.
  pose proof (jobs_moved_incrementJobStat (job_id job) [] F_withEmail count w3) as Hj4.
  assert (Hp4 : post same_prospects (incrementJobStat (Some (job_id job)) F_withEmail count))
    by frame_writer.
  specialize (Hp4 w3).
  destruct (incrementJobStat (Some (job_id job)) F_withEmail count w3) as [[[] | e] w4];
    unfold same_prospects in Hp4; simpl in Hj4, Hp4.
  2:{ apply (Hcatch w4). apply jobs_moved_more.
      eapply jobs_moved_from; [| exact Hj4]. congruence. }
  assert (Hw4 : jobs_moved (job_id job) [failed] w w4).
  { apply jobs_moved_more. eapply jobs_moved_from; [| exact Hj4]. congruence. }
  destruct (List.length batch <? EMAIL_DISCOVERY_BATCH_SIZE)%nat; [| exact Hw4].
  rewrite bind_run.
  destruct (getProspectsForJob (Some (job_id job)) (Some found) None w4)
    as [[remaining | e] w5] eqn:E5;
    apply getProspectsForJob_inv in E5; destruct E5 as (Hrem & Hp5 & Hj5).
  2:{ apply (Hcatch w5). eapply chained_trans; [exact Hw4 |].
      apply jobs_moved_unchanged. exact Hj5. }
  specialize (Hrem remaining eq_refl). subst remaining. cbn [snd].
  assert (Htotal : (List.length (filter (fun p => (p_jobId p =? job_id job)%string)
                                        (w_prospects w4))
                    =? 0)%nat = false).
  { rewrite count_by_owner, Hp4, Ho3, Hp2, Hp1, <- count_by_owner.
    apply (batch_counts (job_id job) (Some found) (Some EMAIL_DISCOVERY_BATCH_SIZE)).
    rewrite <- Hbatch. exact Hne. }
  rewrite Htotal. unfold ret. cbn [snd].
  eapply chained_trans; [exact Hw4 |]. apply jobs_moved_unchanged. exact Hj5.
Qed.

(** C2, the failing input: one job in [discovering] with one prospect in
    [found].  The handler processes the prospect, none remains in [found],
    and the job is still in [discovering] after the call. *)
Example C2_failing_input :
  map job_status (w_jobs (snd (handleEmailDiscovery Ref.quiet (Scenario.job "j1" discovering 1)
                                                    Scenario.discovering_foo)))
    = [discovering]
  /\ map p_status (w_prospects (snd (handleEmailDiscovery Ref.quiet
                                       (Scenario.job "j1" discovering 1)
                                       Scenario.discovering_foo)))
     = [email_found]
  /\ fst (handleEmailDiscovery Ref.quiet (Scenario.job "j1" discovering 1)
                               Scenario.discovering_foo) = Ok tt.
Proof. vm_compute. repeat split; reflexivity. Qed.

(** C2, witness: the same input, through the theorem. *)
Lemma C2_witness :
  Forall2 (fun a b =>
             job_id b = job_id a
             /\ (job_id a <> "j1" -> b = a)
             /\ (job_status b = job_status a \/ job_status b = failed))
          (w_jobs Scenario.discovering_foo)
          (w_jobs (snd (handleEmailDiscovery Ref.quiet (Scenario.job "j1" discovering 1)
                                             Scenario.discovering_foo))).
Proof.
  apply (C2_nonempty_batch_never_advances Ref.quiet (Scenario.job "j1" discovering 1)
           Scenario.discovering_foo).
  discriminate.
Defined.

(* ================================================================== *)
(** * Further properties of the engine and of the routes around it *)

(* ================================================================== *)
(** ** Text sanitizers *)

Lemma length_keep_chars (keep : ascii -> bool) (s : string) :
  (String.length (Js.keep_chars keep s) <= String.length s)%nat.
Proof.
  induction s as [| a r IH]; simpl; [lia |].
  destruct (keep a); simpl; lia.
Qed.

Lemma all_chars_keep_chars (keep : ascii -> bool) (s : string) :
  Js.all_chars keep (Js.keep_chars keep s) = true.
Proof.
  induction s as [| a r IH]; simpl; [reflexivity |].
  destruct (keep a) eqn:E; simpl; [rewrite E |]; exact IH.
Qed.

Lemma length_trimStart (s : string) :
  (String.length (Js.trimStart s) <= String.length s)%nat.
Proof.
  induction s as [| a r IH]; simpl; [lia |].
  destruct (Js.is_space a); simpl; lia.
Qed.

Lemma length_trimEnd (s : string) :
  (String.length (Js.trimEnd s) <= String.length s)%nat.
Proof.
  induction s as [| a r IH]; simpl; [lia |].
  destruct (Js.trimEnd r); [destruct (Js.is_space a) |]; simpl in *; lia.
Qed.

Lemma length_trim (s : string) : (String.length (Js.trim s) <= String.length s)%nat.
Proof.
  unfold Js.trim.
  pose proof (length_trimEnd (Js.trimStart s)). pose proof (length_trimStart s). lia.
Qed.

Lemma all_chars_trimStart (p : ascii -> bool) (s : string) :
  Js.all_chars p s = true -> Js.all_chars p (Js.trimStart s) = true.
Proof.
  induction s as [| a r IH]; simpl; [auto |].
  intro H. apply andb_true_iff in H. destruct H as (Ha & Hr).
  destruct (Js.is_space a); [auto | simpl; rewrite Ha; exact Hr].
Qed.

Lemma all_chars_trimEnd (p : ascii -> bool) (s : string) :
  Js.all_chars p s = true -> Js.all_chars p (Js.trimEnd s) = true.
Proof.
  induction s as [| a r IH]; simpl; [auto |].
  intro H. apply andb_true_iff in H. destruct H as (Ha & Hr).
  specialize (IH Hr).
  destruct (Js.trimEnd r) as [| b t].
  - destruct (Js.is_space a); simpl; [reflexivity | rewrite Ha; reflexivity].
  - simpl in *. rewrite Ha. exact IH.
Qed.

Lemma all_chars_trim (p : ascii -> bool) (s : string) :
  Js.all_chars p s = true -> Js.all_chars p (Js.trim s) = true.
Proof. intro H. apply all_chars_trimEnd, all_chars_trimStart, H. Qed.

Lemma trimStart_starts_clean (s : string) : starts_clean (Js.trimStart s).
Proof.
  induction s as [| a r IH]; simpl; [exact I |].
  destruct (Js.is_space a) eqn:E; [exact IH | exact E].
Qed.

Lemma trimStart_fixed (s : string) : starts_clean s -> Js.trimStart s = s.
Proof. destruct s as [| a r]; simpl; [reflexivity | intro H; rewrite H; reflexivity]. Qed.

Lemma trimEnd_starts_clean (s : string) : starts_clean s -> starts_clean (Js.trimEnd s).
Proof.
  destruct s as [| a r]; simpl; [auto |].
  intro H. destruct (Js.trimEnd r); [rewrite H |]; simpl; auto.
Qed.

Lemma trimEnd_idem (s : string) : Js.trimEnd (Js.trimEnd s) = Js.trimEnd s.
Proof.
  induction s as [| a r IH]; simpl; [reflexivity |].
  destruct (Js.trimEnd r) as [| b t] eqn:E.
  - destruct (Js.is_space a) eqn:Ea; simpl; [reflexivity | rewrite Ea; reflexivity].
  - simpl. simpl in IH. rewrite IH. reflexivity.
Qed.

(** [trim] does nothing to a text it has produced. *)
Lemma trim_idem (s : string) : Js.trim (Js.trim s) = Js.trim s.
Proof.
  unfold Js.trim.
  rewrite (trimStart_fixed (Js.trimEnd (Js.trimStart s))).
  - apply trimEnd_idem.
  - apply trimEnd_starts_clean, trimStart_starts_clean.
Qed.








Lemma sanitizeCountryCode_cases (country : string) :
  sanitizeCountryCode country = "US"
  \/ (Js.toUpperCase (Js.trim country) = Some (sanitizeCountryCode country)
      /\ String.length (sanitizeCountryCode country) = 2%nat
      /\ Js.all_chars Js.is_upper (sanitizeCountryCode country) = true).
Proof.
  unfold sanitizeCountryCode.
  destruct (Js.falsy country); [left; reflexivity |].
  destruct (Js.toUpperCase (Js.trim country)) as [cleaned |]; [| left; reflexivity].
  destruct (String.length cleaned =? 2)%nat eqn:El; [| left; reflexivity].
  destruct (Js.all_chars Js.is_upper cleaned) eqn:Eu; [| left; reflexivity].
  right. apply Nat.eqb_eq in El. auto.
Qed.



Lemma sanitizeNiche_cases (niche : string) :
  match sanitizeNiche niche with
  | Some s =>
      s = Js.trim (Js.keep_chars niche_char (Js.trim niche))
      /\ (2 <= String.length (Js.trim niche) <= 50)%nat
  | None =>
      niche = "" \/ (String.length (Js.trim niche) < 2)%nat
      \/ (50 < String.length (Js.trim niche))%nat
  end.
Proof.
  unfold sanitizeNiche.
  destruct niche as [| a r]; [left; reflexivity |]. cbn [Js.falsy]. cbv zeta.
  destruct (Nat.ltb_spec (String.length (Js.trim (String a r))) 2); cbn [orb].
  - right. left. assumption.
  - destruct (Nat.ltb_spec 50 (String.length (Js.trim (String a r)))).
    + right. right. assumption.
    + split; [reflexivity | lia].
Qed.

(** X2: a niche that [sanitizeNiche] accepts holds only letters, digits,
    underscores, white space and hyphens, is at most 50 characters long and
    carries no white space at either end; the input is refused exactly when
    it is empty or its trimmed length is outside 2..50.  (The accepted text
    may be shorter than two characters, empty included: the characters are
    removed after the length is checked.) *)
Theorem sanitizeNiche_keeps_only_safe_characters (niche : string) :
  match sanitizeNiche niche with
  | Some s =>
      Js.all_chars niche_char s = true
      /\ (String.length s <= 50)%nat
      /\ Js.trim s = s
      /\ (2 <= String.length (Js.trim niche) <= 50)%nat
  | None =>
      niche = "" \/ (String.length (Js.trim niche) < 2)%nat
      \/ (50 < String.length (Js.trim niche))%nat
  end
  /\ sanitizeNiche "!!" = Some "".
Proof.
  split; [| reflexivity].
  pose proof (sanitizeNiche_cases niche) as H.
  destruct (sanitizeNiche niche) as [s |]; [| exact H].
  destruct H as (Hs & Hl). subst s. repeat split; try lia.
  - apply all_chars_trim, all_chars_keep_chars.
  - pose proof (length_trim (Js.keep_chars niche_char (Js.trim niche))).
    pose proof (length_keep_chars niche_char (Js.trim niche)). lia.
  - apply trim_idem.
Qed.

Lemma sanitizeLocationInput_cases (input : string) :
  match sanitizeLocationInput input with
  | Some s =>
      (zipRegex_test (Js.trim input) = true /\ s = Js.trim input)
      \/ (zipRegex_test (Js.trim input) = false
          /\ s = Js.trim (Js.keep_chars location_char (Js.trim input))
          /\ (2 <= String.length (Js.trim input) <= 100)%nat)
  | None =>
      input = ""
      \/ (zipRegex_test (Js.trim input) = false
          /\ ((String.length (Js.trim input) < 2)%nat
              \/ (100 < String.length (Js.trim input))%nat))
  end.
Proof.
  unfold sanitizeLocationInput.
  destruct input as [| a r]; [left; reflexivity |]. cbn [Js.falsy]. cbv zeta.
  destruct (zipRegex_test (Js.trim (String a r))) eqn:Ez; [left; auto |].
  destruct (Nat.leb_spec 2 (String.length (Js.trim (String a r)))); cbn [andb].
  - destruct (Nat.leb_spec (String.length (Js.trim (String a r))) 100).
    + right. repeat split; auto.
    + right. split; [reflexivity | right; assumption].
  - right. split; [reflexivity | left; assumption].
Qed.

Lemma zipRegex_test_length (s : string) :
  zipRegex_test s = true -> String.length s = 5%nat \/ String.length s = 10%nat.
Proof.
  unfold zipRegex_test. cbv zeta. intro H. apply orb_true_iff in H.
  destruct H as [H | H].
  - apply andb_true_iff in H. destruct H as (H & _). apply Nat.eqb_eq in H. auto.
  - rewrite !andb_true_iff in H. destruct H as (((H & _) & _) & _).
    apply Nat.eqb_eq in H. auto.
Qed.

(** X3: what [sanitizeLocationInput] accepts.  A US ZIP code (five digits,
    or ZIP+4) is returned as it is, without the surrounding white space;
    any other input is accepted when its trimmed length is in 2..100, and
    then the result holds only letters, digits, underscores, white space,
    commas, full stops, apostrophes and hyphens, with no white space at
    either end.  In both cases the result is at most 100 characters long. *)
Theorem sanitizeLocationInput_zip_or_safe_characters (input : string) :
  match sanitizeLocationInput input with
  | Some s =>
      (String.length s <= 100)%nat
      /\ ((zipRegex_test (Js.trim input) = true /\ s = Js.trim input)
          \/ (zipRegex_test (Js.trim input) = false
              /\ Js.all_chars location_char s = true
              /\ Js.trim s = s
              /\ (2 <= String.length (Js.trim input) <= 100)%nat))
  | None =>
      input = ""
      \/ (zipRegex_test (Js.trim input) = false
          /\ ((String.length (Js.trim input) < 2)%nat
              \/ (100 < String.length (Js.trim input))%nat))
  end.
Proof.
  pose proof (sanitizeLocationInput_cases input) as H.
  destruct (sanitizeLocationInput input) as [s |]; [| exact H].
  destruct H as [(Hz & Hs) | (Hz & Hs & Hl)]; subst s.
  - split; [| left; auto].
    destruct (zipRegex_test_length _ Hz) as [E | E]; rewrite E; lia.
  - split.
    + pose proof (length_trim (Js.keep_chars location_char (Js.trim input))).
      pose proof (length_keep_chars location_char (Js.trim input)). lia.
    + right. repeat split; try lia; auto.
      * apply all_chars_trim, all_chars_keep_chars.
      * apply trim_idem.
Qed.

Lemma createJob_jobs (P : Platform) (data : Job) (w : World) :
  match fst (createJob P data w) with
  | Ok jobId =>
      w_jobs (snd (createJob P data w))
      = w_jobs w ++ [mkJob jobId false (job_userId data) (job_status data) (w_now w)
                           (w_now w)
                           (job_niche data) (job_targetZip data) (job_targetCountry data)
                           (job_radiusKm data) (job_maxBusinesses data) (job_stats data)]
      /\ jobId = auto_id P (w_fresh w)
  | Throw _ => w_jobs (snd (createJob P data w)) = w_jobs w
  end.
Proof.
  unfold createJob, store_call.
  destruct (w_faults w) as [| [] fs]; simpl; auto.
Qed.

(** X4: every job that [POST /api/jobs] stores is well formed: it is
    appended to the collection under the id the response carries, belongs
    to the internal user, has a non-empty niche of at most 50 safe
    characters, a non-empty location of at most 100 characters that is a
    ZIP code or holds only safe characters, and a country code of two
    upper-case letters.  A request answered with anything but 201 stores no
    job. *)
Theorem jobs_POST_stores_well_formed_job (P : Platform) (body : outcome CreateJobRequest)
        (w : World) :
  match fst (jobs_POST P body w) with
  | Jobs_201 jobId =>
      exists job,
        w_jobs (snd (jobs_POST P body w)) = w_jobs w ++ [job]
        /\ job_id job = jobId
        /\ job_userId job = INTERNAL_USER_ID
        /\ Js.falsy (job_niche job) = false
        /\ Js.all_chars niche_char (job_niche job) = true
        /\ (String.length (job_niche job) <= 50)%nat
        /\ Js.falsy (job_targetZip job) = false
        /\ (String.length (job_targetZip job) <= 100)%nat
        /\ (zipRegex_test (job_targetZip job) = true
            \/ Js.all_chars location_char (job_targetZip job) = true)
        /\ String.length (job_targetCountry job) = 2%nat
        /\ Js.all_chars Js.is_upper (job_targetCountry job) = true
  | _ => w_jobs (snd (jobs_POST P body w)) = w_jobs w
  end.
Proof.
  unfold jobs_POST, bind, lift, ret.
  destruct body as [b | e]; [| reflexivity].
  destruct (Js.falsy_opt (req_niche b) || Js.falsy_opt (req_targetZip b)
            || falsy_num (req_radiusKm b) || falsy_num (req_maxBusinesses b));
    [reflexivity |].
  pose proof (sanitizeNiche_cases (match req_niche b with Some s => s | None => "" end)) as Hn.
  destruct (sanitizeNiche _) as [niche |]; [| reflexivity].
  destruct (Js.falsy niche) eqn:Fn; [reflexivity |].
  pose proof (sanitizeLocationInput_cases
                (match req_targetZip b with Some s => s | None => "" end)) as Hz.
  destruct (sanitizeLocationInput _) as [zip |]; [| reflexivity].
  destruct (Js.falsy zip) eqn:Fz; [reflexivity |].
  match goal with
  | |- context [createJob P ?d w] =>
      pose proof (createJob_jobs P d w) as Hc; destruct (createJob P d w) as [[id | e] w1]
  end; simpl in Hc |- *; [| exact Hc].
  destruct Hc as (Hc & _). eexists. split; [exact Hc |]. simpl.
  destruct Hn as (Hn & Hnl).
  pose proof (sanitizeCountryCode_cases
                (match req_targetCountry b with Some s => s | None => "US" end)) as Hcc.
  repeat split; auto.
  - subst niche. apply all_chars_trim, all_chars_keep_chars.
  - subst niche.
    pose proof (length_trim (Js.keep_chars niche_char
                  (Js.trim (match req_niche b with Some s => s | None => "" end)))).
    pose proof (length_keep_chars niche_char
                  (Js.trim (match req_niche b with Some s => s | None => "" end))). lia.
  - destruct Hz as [(Hz & Hs) | (Hz & Hs & Hl)]; subst zip.
    + destruct (zipRegex_test_length _ Hz) as [E | E]; rewrite E; lia.
    + pose proof (length_trim (Js.keep_chars location_char
                    (Js.trim (match req_targetZip b with Some s => s | None => "" end)))).
      pose proof (length_keep_chars location_char
                    (Js.trim (match req_targetZip b with Some s => s | None => "" end))). lia.
  - destruct Hz as [(Hz & Hs) | (Hz & Hs & Hl)]; subst zip.
    + left. exact Hz.
    + right. apply all_chars_trim, all_chars_keep_chars.
  - destruct Hcc as [E | (_ & Hl & Hu)]; [rewrite E; reflexivity | exact Hl].
  - destruct Hcc as [E | (_ & Hl & Hu)]; [rewrite E; reflexivity | exact Hu].
Qed.

(* ------------------------------------------------------------------ *)
(** *** Business names and HTML escaping *)

Lemma length_strip_tags_from (inside : bool) (s : string) :
  (String.length (strip_tags_from inside s) <= String.length s)%nat.
Proof.
  revert inside. induction s as [| a r IH]; intro inside; simpl; [lia |].
  destruct inside.
  - destruct (Ascii.eqb a ">"); [specialize (IH false) | specialize (IH true)]; lia.
  - destruct (Ascii.eqb a "<").
    + destruct (has_gt r); [specialize (IH true); lia | simpl; lia].
    + specialize (IH false). simpl. lia.
Qed.

Lemma has_gt_cons (a : ascii) (r : string) :
  has_gt (String a r) = Ascii.eqb ">" a || has_gt r.
Proof. reflexivity. Qed.

Lemma no_gt_no_tag (s : string) : has_gt s = false -> no_tag s = true.
Proof.
  induction s as [| a r IH]; [reflexivity |].
  rewrite has_gt_cons. intro H. apply orb_false_iff in H. destruct H as (_ & Hr).
  simpl. rewrite Hr, (IH Hr). destruct (Ascii.eqb a "<"); reflexivity.
Qed.

Lemma strip_tags_from_no_tag (inside : bool) (s : string) :
  no_tag (strip_tags_from inside s) = true.
Proof.
  revert inside. induction s as [| a r IH]; intro inside; simpl; [reflexivity |].
  destruct inside.
  - destruct (Ascii.eqb a ">"); apply IH.
  - destruct (Ascii.eqb a "<") eqn:Ea.
    + destruct (has_gt r) eqn:Eg; [apply IH |].
      simpl. rewrite Ea, Eg, (no_gt_no_tag _ Eg). reflexivity.
    + simpl. rewrite Ea, IH. reflexivity.
Qed.

Lemma has_gt_keep_chars (keep : ascii -> bool) (s : string) :
  keep ">"%char = true -> has_gt (Js.keep_chars keep s) = has_gt s.
Proof.
  intro Hk. induction s as [| a r IH]; [reflexivity |].
  simpl Js.keep_chars. destruct (keep a) eqn:Ea.
  - rewrite !has_gt_cons, IH. reflexivity.
  - rewrite has_gt_cons, IH.
    destruct (Ascii.eqb_spec ">"%char a) as [E | E]; [congruence | reflexivity].
Qed.

Lemma no_tag_keep_chars (keep : ascii -> bool) (s : string) :
  keep ">"%char = true -> no_tag s = true -> no_tag (Js.keep_chars keep s) = true.
Proof.
  intro Hk. induction s as [| a r IH]; [reflexivity |].
  simpl. intro H. apply andb_true_iff in H. destruct H as (Ha & Hr).
  destruct (keep a); [| exact (IH Hr)].
  simpl. rewrite (has_gt_keep_chars _ _ Hk), Ha. exact (IH Hr).
Qed.

Lemma length_append (a b : string) :
  String.length (a ++ b) = (String.length a + String.length b)%nat.
Proof. induction a; simpl; congruence. Qed.

Lemma length_substring0 (n : nat) (s : string) :
  (n <= String.length s)%nat -> String.length (Js.substring0 n s) = n.
Proof.
  unfold Js.substring0. revert s. induction n as [| k IH]; intros s H.
  - destruct s; reflexivity.
  - destruct s as [| a r]; simpl in *; [lia |]. rewrite IH by lia. reflexivity.
Qed.

(** X5: a sanitized business name is never empty and never longer than 100
    characters.  A name of at most 100 characters (once trimmed) comes out
    without a double quote, without a backslash and without a tag: no [<]
    of the result is followed by a [>].  A longer name is cut to its first
    97 characters and three full stops, and is otherwise left as it is. *)
Theorem sanitizeBusinessName_bounded_and_tag_free (name : string) :
  (1 <= String.length (sanitizeBusinessName name) <= 100)%nat
  /\ ((String.length (Js.trim name) <= 100)%nat ->
      Js.all_chars (fun c => negb (Ascii.eqb c dquote || Ascii.eqb c backslash))
                   (sanitizeBusinessName name) = true
      /\ no_tag (sanitizeBusinessName name) = true)
  /\ ((100 < String.length (Js.trim name))%nat ->
      sanitizeBusinessName name = (Js.substring0 97 (Js.trim name) ++ "...")%string).
Proof.
  unfold sanitizeBusinessName.
  destruct name as [| a r].
  - simpl. split; [lia |]. split; [intros _; split; reflexivity | intro H; inversion H].
  - cbn [Js.falsy]. cbv zeta.
    set (cleaned := Js.trim (String a r)).
    destruct (Nat.ltb_spec 100 (String.length cleaned)) as [Hlong | Hshort].
    + split; [| split; [intro; lia | reflexivity]].
      rewrite length_append, length_substring0 by lia. simpl. lia.
    + set (sanitized := Js.keep_chars _ (strip_tags cleaned)).
      assert (Hlen : (String.length sanitized <= 100)%nat).
      { pose proof (length_keep_chars
                      (fun c => negb (Ascii.eqb c dquote || Ascii.eqb c backslash))
                      (strip_tags cleaned)).
        pose proof (length_strip_tags_from false cleaned).
        unfold sanitized, strip_tags in *. lia. }
      assert (Hq : Js.all_chars (fun c => negb (Ascii.eqb c dquote || Ascii.eqb c backslash))
                                sanitized = true)
        by apply all_chars_keep_chars.
      assert (Ht : no_tag sanitized = true).
      { apply no_tag_keep_chars; [reflexivity | apply strip_tags_from_no_tag]. }
      destruct sanitized as [| c t] eqn:Es; cbn [Js.falsy].
      * split; [simpl; lia |]. split; [intros _; split; reflexivity | intro; lia].
      * split; [simpl in *; lia |]. split; [intros _; split; assumption | intro; lia].
Qed.

Lemma all_chars_append (p : ascii -> bool) (a b : string) :
  Js.all_chars p (a ++ b) = Js.all_chars p a && Js.all_chars p b.
Proof.
  induction a as [| c r IH]; simpl; [reflexivity |].
  rewrite IH, andb_assoc. reflexivity.
Qed.

Lemma escape_char_no_markup (c : ascii) :
  Js.all_chars (fun a => negb (markup_char a)) (escape_char c) = true.
Proof.
  unfold escape_char.
  destruct (Ascii.eqb c "&") eqn:E1; [reflexivity |].
  destruct (Ascii.eqb c "<") eqn:E2; [reflexivity |].
  destruct (Ascii.eqb c ">") eqn:E3; [reflexivity |].
  destruct (Ascii.eqb c dquote) eqn:E4; [reflexivity |].
  destruct (Ascii.eqb c "'") eqn:E5; [reflexivity |].
  simpl. unfold markup_char. rewrite E2, E3, E4, E5. reflexivity.
Qed.

Lemma escape_char_plain (c : ascii) :
  markup_char c = false -> Ascii.eqb c "&" = false -> escape_char c = String c EmptyString.
Proof.
  unfold markup_char, escape_char. intros H Ha.
  rewrite !orb_false_iff in H. destruct H as (((H1 & H2) & H3) & H4).
  rewrite Ha, H1, H2, H3, H4. reflexivity.
Qed.

Lemma escapeHtml_no_markup (text : string) :
  Js.all_chars (fun c => negb (markup_char c)) (escapeHtml text) = true.
Proof.
  induction text as [| c r IH]; simpl; [reflexivity |].
  rewrite all_chars_append, escape_char_no_markup, IH. reflexivity.
Qed.

Lemma escapeHtml_plain (text : string) :
  Js.all_chars (fun c => negb (markup_char c) && negb (Ascii.eqb c "&")) text = true ->
  escapeHtml text = text.
Proof.
  induction text as [| c r IH]; simpl; [reflexivity |].
  intro H. apply andb_true_iff in H. destruct H as (Hc & Hr).
  apply andb_true_iff in Hc. destruct Hc as (Hm & Ha).
  apply negb_true_iff in Hm. apply negb_true_iff in Ha.
  rewrite (escape_char_plain _ Hm Ha), (IH Hr). reflexivity.
Qed.

Lemma unescape_escape_char (c : ascii) (rest : string) :
  unescapeHtml_from 0 (escape_char c ++ rest) = String c (unescapeHtml_from 0 rest).
Proof.
  unfold escape_char.
  destruct (Ascii.eqb_spec c "&") as [E1 | E1]; [subst; destruct rest; reflexivity |].
  destruct (Ascii.eqb_spec c "<") as [E2 | E2]; [subst; destruct rest; reflexivity |].
  destruct (Ascii.eqb_spec c ">") as [E3 | E3]; [subst; destruct rest; reflexivity |].
  destruct (Ascii.eqb_spec c dquote) as [E4 | E4]; [subst; destruct rest; reflexivity |].
  destruct (Ascii.eqb_spec c "'") as [E5 | E5]; [subst; destruct rest; reflexivity |].
  simpl. destruct (Ascii.eqb_spec c "&"); [contradiction | reflexivity].
Qed.

Lemma unescape_escapeHtml (text : string) : unescapeHtml (escapeHtml text) = text.
Proof.
  unfold unescapeHtml. induction text as [| c r IH]; simpl; [reflexivity |].
  rewrite unescape_escape_char, IH. reflexivity.
Qed.

(** X6: [escapeHtml] makes a text safe and loses nothing.  The text it
    returns holds no [<], no [>], no double quote and no apostrophe,
    whatever the input; a text without these characters and without [&] is
    returned as it is; and reading the five entities back gives the text
    that was escaped, so two different texts are never escaped to the same
    one. *)
Theorem escapeHtml_is_safe_and_lossless :
  (forall text, Js.all_chars (fun c => negb (markup_char c)) (escapeHtml text) = true)
  /\ (forall text,
        Js.all_chars (fun c => negb (markup_char c) && negb (Ascii.eqb c "&")) text = true ->
        escapeHtml text = text)
  /\ (forall text, unescapeHtml (escapeHtml text) = text)
  /\ (forall a b, escapeHtml a = escapeHtml b -> a = b).
Proof.
  split; [exact escapeHtml_no_markup |]. split; [exact escapeHtml_plain |].
  split; [exact unescape_escapeHtml |].
  intros a b H.
  rewrite <- (unescape_escapeHtml a), <- (unescape_escapeHtml b), H. reflexivity.
Qed.

(** X7: the [extractDomain] of the sanitizers is the one of the email
    discovery service with a check added: whenever it returns a domain the
    service returns the same one, the domain holds a dot, and its last
    label has two characters or more; it returns nothing exactly when the
    service returns nothing or a domain that fails this check.
    [cleanWebsiteUrl] returns [https://] followed by that domain. *)
Theorem sanitize_extractDomain_checks_top_level (P : Platform) (url : string) :
  Sanitize.extractDomain P url
  = match extractDomain P url with
    | Some domain => if Sanitize.has_tld domain then Some domain else None
    | None => None
    end
  /\ (forall domain,
        Sanitize.extractDomain P url = Some domain ->
        extractDomain P url = Some domain
        /\ includes_char "." domain = true
        /\ (2 <= String.length (last (Js.split "." domain) EmptyString))%nat
        /\ Sanitize.cleanWebsiteUrl P url = Some ("https://" ++ domain)%string)
  /\ (Sanitize.extractDomain P url = None -> Sanitize.cleanWebsiteUrl P url = None).
Proof.
  assert (Heq : Sanitize.extractDomain P url
                = match extractDomain P url with
                  | Some domain => if Sanitize.has_tld domain then Some domain else None
                  | None => None
                  end).
  { unfold Sanitize.extractDomain, extractDomain.
    destruct (Js.falsy url); [reflexivity |]. cbv zeta.
    destruct (new_URL P _); reflexivity. }
  split; [exact Heq |]. split.
  - intros domain H. unfold Sanitize.cleanWebsiteUrl. rewrite H.
    rewrite Heq in H.
    destruct (extractDomain P url) as [d |] eqn:Ed; [| discriminate].
    destruct (Sanitize.has_tld d) eqn:Et; [| discriminate].
    injection H as H. subst d.
    unfold Sanitize.has_tld in Et. apply andb_true_iff in Et. destruct Et as (Hdot & Hlen).
    apply Nat.leb_le in Hlen.
    repeat split; auto.
    unfold extractDomain in Ed. destruct (Js.falsy url); [discriminate |].
    destruct domain as [| a r]; [discriminate | reflexivity].
  - intro H. unfold Sanitize.cleanWebsiteUrl. rewrite H.
    destruct (Js.falsy url); reflexivity.
Qed.

(* ================================================================== *)
(** ** The job routes *)

Lemma createJob_available (P : Platform) (data : Job) (w : World) :
  w_faults w = [] ->
  createJob P data w
  = (Ok (auto_id P (w_fresh w)),
     set_fresh (S (w_fresh w))
       (set_jobs (w_jobs w ++
                  [mkJob (auto_id P (w_fresh w)) false (job_userId data) (job_status data)
                         (w_now w) (w_now w) (job_niche data) (job_targetZip data)
                         (job_targetCountry data) (job_radiusKm data)
                         (job_maxBusinesses data) (job_stats data)]) w)).
Proof. unfold createJob, store_call. intro H. rewrite H. reflexivity. Qed.

(** A creation answered with 201 has run [createJob] on a job in [draft]
    with its counters at zero. *)
Lemma jobs_POST_201_data (P : Platform) (body : outcome CreateJobRequest) (w : World)
      (jobId : string) :
  fst (jobs_POST P body w) = Jobs_201 jobId ->
  exists data,
    jobs_POST P body w = (Jobs_201 jobId, snd (createJob P data w))
    /\ fst (createJob P data w) = Ok jobId
    /\ job_status data = draft /\ job_stats data = zero_stats.
Proof.
  unfold jobs_POST, bind, lift, ret.
  destruct body as [b | e]; [| discriminate].
  destruct (Js.falsy_opt (req_niche b) || Js.falsy_opt (req_targetZip b)
            || falsy_num (req_radiusKm b) || falsy_num (req_maxBusinesses b));
    [discriminate |].
  destruct (sanitizeNiche _) as [niche |]; [| discriminate].
  destruct (Js.falsy niche); [discriminate |].
  destruct (sanitizeLocationInput _) as [zip |]; [| discriminate].
  destruct (Js.falsy zip); [discriminate |].
  match goal with
  | |- context [createJob P ?d w] =>
      intro H; exists d; revert H; destruct (createJob P d w) as [[id | e] w1]
  end; simpl; [| discriminate].
  intro H. injection H as H. subst id. auto.
Qed.

Lemma find_last_fresh (jobId : string) (l : list Job) (j : Job) :
  ~ In jobId (map job_id l) -> job_id j = jobId ->
  find (fun k => job_id k =? jobId) (l ++ [j]) = Some j.
Proof.
  intros Hn Hj. induction l as [| h t IH]; simpl.
  - rewrite Hj, String.eqb_refl. reflexivity.
  - simpl in Hn. destruct (String.eqb_spec (job_id h) jobId) as [E | E]; [tauto |].
    apply IH. tauto.
Qed.

Lemma find_none_fresh (jobId : string) (l : list Job) :
  ~ In jobId (map job_id l) -> find (fun k => job_id k =? jobId) l = None.
Proof.
  intro Hn. induction l as [| h t IH]; simpl; [reflexivity |].
  simpl in Hn. destruct (String.eqb_spec (job_id h) jobId) as [E | E]; [tauto |].
  apply IH. tauto.
Qed.

Lemma job_GET_available (jobId : string) (w : World) :
  w_faults w = [] -> Js.falsy jobId = false ->
  job_GET jobId w
  = (match find (fun j => job_id j =? jobId) (w_jobs w) with
     | Some job => Job_200 job
     | None => Job_404
     end, w).
Proof.
  intros Hf Hj. unfold job_GET. rewrite Hj.
  unfold bind, getJob, store_call. rewrite Hf.
  destruct (find _ (w_jobs w)); reflexivity.
Qed.

(** X8: a job created through [POST /api/jobs] is read back by
    [GET /api/jobs/[jobId]].  With the store available and the generated id
    new to the collection, the id is answered with 404 before the creation,
    and after it with the job created: in [draft], its counters at zero,
    created and updated at the time of the request.  The read changes
    nothing. *)
Theorem created_job_is_read_back (P : Platform) (body : outcome CreateJobRequest)
        (w : World) (jobId : string) :
  w_faults w = [] ->
  fst (jobs_POST P body w) = Jobs_201 jobId ->
  Js.falsy jobId = false ->
  ~ In jobId (map job_id (w_jobs w)) ->
  job_GET jobId w = (Job_404, w)
  /\ exists job,
       job_GET jobId (snd (jobs_POST P body w)) = (Job_200 job, snd (jobs_POST P body w))
       /\ job_id job = jobId /\ job_status job = draft /\ job_stats job = zero_stats
       /\ job_createdAt job = w_now w /\ job_updatedAt job = w_now w.
Proof.
  intros Hf H201 Hid Hfresh. split.
  - rewrite (job_GET_available _ _ Hf Hid), (find_none_fresh _ _ Hfresh). reflexivity.
  - destruct (jobs_POST_201_data _ _ _ _ H201) as (data & Hrun & Hok & Hst & Hz).
    rewrite Hrun. cbn [snd].
    rewrite (createJob_available _ _ _ Hf) in Hok |- *. cbn [fst snd] in Hok |- *.
    injection Hok as Hok.
    eexists. split.
    + rewrite job_GET_available by (simpl; assumption). simpl w_jobs.
      rewrite (find_last_fresh jobId) by (simpl; auto). reflexivity.
    + simpl. auto.
Qed.

(** X8, witness: the creation of the bakery campaign on an empty store. *)
Lemma created_job_is_read_back_witness :
  job_GET "doc000" (Scenario.world [] [] [] []) = (Job_404, Scenario.world [] [] [] [])
  /\ exists job,
       job_GET "doc000" (snd (jobs_POST Ref.quiet (Ok Scenario.negative_sizes)
                                        (Scenario.world [] [] [] [])))
       = (Job_200 job, snd (jobs_POST Ref.quiet (Ok Scenario.negative_sizes)
                                      (Scenario.world [] [] [] [])))
       /\ job_id job = "doc000" /\ job_status job = draft /\ job_stats job = zero_stats
       /\ job_createdAt job = 0%nat /\ job_updatedAt job = 0%nat.
Proof.
  apply (created_job_is_read_back Ref.quiet (Ok Scenario.negative_sizes)
           (Scenario.world [] [] [] []) "doc000");
    [reflexivity | reflexivity | reflexivity | simpl; tauto].
Defined.

Lemma insert_by_createdAt_sorted (j : Job) (l : list Job) :
  StronglySorted newer_first l -> StronglySorted newer_first (insert_by_createdAt j l).
Proof.
  induction l as [| h t IH]; simpl; intro Hs.
  - constructor; constructor.
  - inversion Hs as [| a b Ht Hh]; subst.
    destruct (Nat.ltb_spec (job_createdAt h) (job_createdAt j)) as [Hlt | Hge].
    + constructor; [exact Hs |]. constructor; [unfold newer_first; lia |].
      eapply Forall_impl; [| exact Hh]. unfold newer_first. intros x Hx. lia.
    + constructor; [exact (IH Ht) |].
      eapply Permutation_Forall;
        [apply Permutation_sym; apply insert_by_createdAt_perm |].
      constructor; [exact Hge | exact Hh].
Qed.

Lemma orderBy_createdAt_desc_sorted (l : list Job) :
  StronglySorted newer_first (orderBy_createdAt_desc l).
Proof.
  unfold orderBy_createdAt_desc. induction l as [| h t IH]; simpl; [constructor |].
  apply insert_by_createdAt_sorted. exact IH.
Qed.

Lemma sorted_firstn {A} (R : A -> A -> Prop) (n : nat) (l : list A) :
  StronglySorted R l -> StronglySorted R (firstn n l).
Proof.
  revert n. induction l as [| h t IH]; intros n Hs; destruct n; simpl; try constructor.
  - inversion Hs; subst. apply IH. assumption.
  - inversion Hs as [| a b Ht Hh]; subst.
    apply Forall_forall. intros x Hx. apply In_firstn in Hx.
    rewrite Forall_forall in Hh. auto.
Qed.

Lemma sorted_firstn_skipn {A} (R : A -> A -> Prop) (n : nat) (l : list A) (a b : A) :
  StronglySorted R l -> In a (firstn n l) -> In b (skipn n l) -> R a b.
Proof.
  revert n. induction l as [| h t IH]; intros n Hs Ha Hb.
  - destruct n; contradiction.
  - destruct n; [contradiction |]. simpl in Ha, Hb.
    inversion Hs as [| x y Ht Hh]; subst.
    destruct Ha as [Ha | Ha].
    + subst h. rewrite Forall_forall in Hh. apply Hh.
      rewrite <- (firstn_skipn n t). apply in_or_app. right. exact Hb.
    + eapply IH; eassumption.
Qed.

(** X9: the dashboard list of [GET /api/jobs] holds the newest jobs,
    newest first: it is sorted by creation time, latest first, it holds
    min(50, number of jobs) jobs, all of them jobs of the store, and no job
    it leaves out was created later than one it lists; the count reported
    is its length.  The request fails only when the store rejects the read,
    and it changes no record. *)
Theorem jobs_GET_lists_the_newest_first (w : World) :
  match fst (jobs_GET w) with
  | JobsList_200 jobs count =>
      count = List.length jobs
      /\ count = Nat.min 50 (List.length (w_jobs w))
      /\ StronglySorted newer_first jobs
      /\ exists rest,
           Permutation (jobs ++ rest) (w_jobs w)
           /\ forall a b, In a jobs -> In b rest -> newer_first a b
  | JobsList_500 => exists fs, w_faults w = true :: fs
  end
  /\ w_jobs (snd (jobs_GET w)) = w_jobs w
  /\ w_prospects (snd (jobs_GET w)) = w_prospects w
  /\ w_unsubscribes (snd (jobs_GET w)) = w_unsubscribes w.
Proof.
  unfold jobs_GET. rewrite bind_run, getAllJobs_answer.
  assert (Hlist :
            List.length (loaded_jobs w) = List.length (loaded_jobs w)
            /\ List.length (loaded_jobs w) = Nat.min 50 (List.length (w_jobs w))
            /\ StronglySorted newer_first (loaded_jobs w)
            /\ exists rest,
                 Permutation (loaded_jobs w ++ rest) (w_jobs w)
                 /\ forall a b, In a (loaded_jobs w) -> In b rest -> newer_first a b).
  { unfold loaded_jobs. split; [reflexivity |]. split; [| split].
    - rewrite length_firstn, (Permutation_length (orderBy_createdAt_desc_perm (w_jobs w))).
      reflexivity.
    - apply sorted_firstn, orderBy_createdAt_desc_sorted.
    - exists (skipn 50 (orderBy_createdAt_desc (w_jobs w))). split.
      + rewrite firstn_skipn. apply orderBy_createdAt_desc_perm.
      + intros a b Ha Hb.
        eapply sorted_firstn_skipn; [apply orderBy_createdAt_desc_sorted | eassumption ..]. }
  destruct (w_faults w) as [| [] fs]; cbn [fst snd ret]; simpl; auto.
  split; [eexists; reflexivity | auto].
Qed.

(* ------------------------------------------------------------------ *)
(** *** The status route *)

Lemma parse_JobStatus_total (status : JobStatus) :
  exists text, parse_JobStatus text = Some status.
Proof.
  destruct status;
    [exists "draft" | exists "prospecting" | exists "discovering"
     | exists "sending" | exists "completed" | exists "failed"]; reflexivity.
Qed.

Lemma status_PATCH_available (jobId text : string) (status : JobStatus)
      (stats : option PartialStats) (w : World) :
  Js.falsy jobId = false ->
  parse_JobStatus text = Some status ->
  w_faults w = [] ->
  In jobId (map job_id (w_jobs w)) ->
  status_PATCH jobId (Ok (mkStatusBody (Some text) stats)) w
  = (Status_200 status,
     set_jobs (map (fun j => if job_id j =? jobId
                             then match stats with
                                  | Some s => set_job_stats (stats_overwrite s) (w_now w)
                                                (set_job_status status (w_now w) j)
                                  | None => set_job_status status (w_now w) j
                                  end
                             else j)
                   (w_jobs w)) w).
Proof.
  intros Hid Hst Hf Hin. unfold status_PATCH. rewrite Hid.
  unfold bind at 1. unfold lift. cbn [sb_status sb_stats]. rewrite Hst.
  unfold updateJobStatus_stats, doc_path, bind, ret. cbv beta iota.
  rewrite (update_job_available _ _ _ Hf Hin). reflexivity.
Qed.

Lemma status_PATCH_sets (jobId text : string) (status : JobStatus)
      (stats : option PartialStats) (w : World) :
  Js.falsy jobId = false ->
  parse_JobStatus text = Some status ->
  w_faults w = [] ->
  In jobId (map job_id (w_jobs w)) ->
  fst (status_PATCH jobId (Ok (mkStatusBody (Some text) stats)) w) = Status_200 status
  /\ Forall2 (fun j j' =>
                if job_id j =? jobId
                then job_status j' = status
                     /\ same_campaign j j'
                     /\ job_stats j'
                        = match stats with
                          | Some s => stats_overwrite s (job_stats j)
                          | None => job_stats j
                          end
                else j' = j)
             (w_jobs w)
             (w_jobs (snd (status_PATCH jobId (Ok (mkStatusBody (Some text) stats)) w))).
Proof.
  intros Hid Hst Hf Hin. rewrite (status_PATCH_available _ _ _ _ _ Hid Hst Hf Hin).
  cbn [fst snd]. split; [reflexivity |].
  simpl. apply Forall2_map_r. intro j.
  destruct (job_id j =? jobId); [| reflexivity].
  destruct stats; simpl; unfold same_campaign; simpl; auto 10.
Qed.

Lemma status_PATCH_unknown_job (jobId text : string) (status : JobStatus)
      (stats : option PartialStats) (w : World) :
  Js.falsy jobId = false ->
  parse_JobStatus text = Some status ->
  ~ In jobId (map job_id (w_jobs w)) ->
  fst (status_PATCH jobId (Ok (mkStatusBody (Some text) stats)) w) = Status_500.
Proof.
  intros Hid Hst Hn. unfold status_PATCH. rewrite Hid.
  unfold bind at 1. unfold lift. cbn [sb_status sb_stats]. rewrite Hst.
  unfold updateJobStatus_stats, doc_path, bind, ret. cbv beta iota.
  match goal with
  | |- context [update_job jobId ?f w] =>
      destruct (update_job_missing jobId f w Hn) as (_ & e & He);
      destruct (update_job jobId f w) as [[[] | e'] w1]
  end; simpl in *; [discriminate | reflexivity].
Qed.

Lemma status_PATCH_missing_job (jobId : string) (body : outcome StatusBody) (w : World) :
  ~ In jobId (map job_id (w_jobs w)) ->
  w_jobs (snd (status_PATCH jobId body w)) = w_jobs w
  /\ forall status, fst (status_PATCH jobId body w) <> Status_200 status.
Proof.
  intro Hn. unfold status_PATCH.
  destruct (Js.falsy jobId); [split; [reflexivity | intros st Hst; discriminate] |].
  unfold bind, lift, ret.
  destruct body as [b | e]; [| split; [reflexivity | intros st Hst; discriminate]].
  destruct (sb_status b) as [text |]; [| split; [reflexivity | intros st Hst; discriminate]].
  destruct (parse_JobStatus text) as [status |];
    [| split; [reflexivity | intros st Hst; discriminate]].
  unfold updateJobStatus_stats, doc_path, bind, ret. cbv beta iota.
  match goal with
  | |- context [update_job jobId ?f w] =>
      destruct (update_job_missing jobId f w Hn) as (Hj & e & He);
      destruct (update_job jobId f w) as [[[] | e'] w1]
  end; simpl in *; [discriminate |].
  split; [exact Hj | intros st Hst; discriminate].
Qed.

(** X10: the status route does not follow the pipeline, and checks
    little.  For a job on record and an available store,
    [PATCH /api/jobs/[jobId]/status] with any of the six status names is
    answered with 200 and leaves the job in that status whatever status it
    had, a terminal one included; the counters named in [stats] are
    overwritten, the others and the campaign settings stay, and no other job
    changes.  An empty job id, and a status that is absent or not one of
    the six names, are answered with 400 without a call of the store; a
    body that cannot be read is answered with 500; and for a job id that no
    job carries the update is rejected by the store: the answer is 500, not
    404, and no job record changes. *)
Theorem status_PATCH_sets_any_status (w : World) :
  (forall jobId text status stats,
      Js.falsy jobId = false -> parse_JobStatus text = Some status ->
      w_faults w = [] -> In jobId (map job_id (w_jobs w)) ->
      fst (status_PATCH jobId (Ok (mkStatusBody (Some text) stats)) w) = Status_200 status
      /\ Forall2 (fun j j' =>
                    if job_id j =? jobId
                    then job_status j' = status
                         /\ same_campaign j j'
                         /\ job_stats j'
                            = match stats with
                              | Some s => stats_overwrite s (job_stats j)
                              | None => job_stats j
                              end
                    else j' = j)
                 (w_jobs w)
                 (w_jobs (snd (status_PATCH jobId (Ok (mkStatusBody (Some text) stats)) w))))
  /\ (forall status, exists text, parse_JobStatus text = Some status)
  /\ (forall body, status_PATCH "" body w = (Status_400_invalid_jobId, w))
  /\ (forall jobId stats,
        Js.falsy jobId = false ->
        status_PATCH jobId (Ok (mkStatusBody None stats)) w = (Status_400_invalid_status, w))
  /\ (forall jobId text stats,
        Js.falsy jobId = false -> parse_JobStatus text = None ->
        status_PATCH jobId (Ok (mkStatusBody (Some text) stats)) w
        = (Status_400_invalid_status, w))
  /\ (forall jobId e,
        Js.falsy jobId = false -> status_PATCH jobId (Throw e) w = (Status_500, w))
  /\ (forall jobId body,
        ~ In jobId (map job_id (w_jobs w)) ->
        w_jobs (snd (status_PATCH jobId body w)) = w_jobs w
        /\ forall status, fst (status_PATCH jobId body w) <> Status_200 status)
  /\ (forall jobId text status stats,
        Js.falsy jobId = false -> parse_JobStatus text = Some status ->
        ~ In jobId (map job_id (w_jobs w)) ->
        fst (status_PATCH jobId (Ok (mkStatusBody (Some text) stats)) w) = Status_500).
Proof.
  split; [intros; apply status_PATCH_sets; assumption |].
  split; [exact parse_JobStatus_total |].
  split; [| split; [| split; [| split; [| split]]]].
  - intro body. reflexivity.
  - intros jobId stats Hid. unfold status_PATCH. rewrite Hid. reflexivity.
  - intros jobId text stats Hid Hp. unfold status_PATCH. rewrite Hid.
    unfold bind, lift. cbn [sb_status]. rewrite Hp. reflexivity.
  - intros jobId e Hid. unfold status_PATCH. rewrite Hid. reflexivity.
  - intros jobId body. apply status_PATCH_missing_job.
  - intros jobId text status stats. apply status_PATCH_unknown_job.
Qed.

(** X10, witness: a completed job is taken back to [draft]. *)
Lemma status_PATCH_sets_any_status_witness :
  fst (status_PATCH "j1" (Ok (mkStatusBody (Some "draft") None))
                    (Scenario.world [Scenario.job "j1" completed 1] [] [] []))
  = Status_200 draft.
Proof.
  exact (proj1 (proj1 (status_PATCH_sets_any_status
                         (Scenario.world [Scenario.job "j1" completed 1] [] [] []))
                      "j1" "draft" draft None eq_refl eq_refl eq_refl (or_introl eq_refl))).
Defined.




(* ================================================================== *)
(** ** The suppression ledger over time *)

Lemma addUnsubscribe_run (email : string) (jobId : option string) (w w' : World) :
  addUnsubscribe email jobId w = (Ok tt, w') ->
  exists domain,
    email_domain email = Ok domain
    /\ w_unsubscribes w'
       = w_unsubscribes w ++ [ledger_entry email domain (w_now w) jobId]
    /\ w_jobs w' = w_jobs w /\ w_prospects w' = w_prospects w.
Proof.
  unfold addUnsubscribe, field_value, bind, lift, ret, throw, store_call.
  destruct (email_domain email) as [d | e]; [| discriminate].
  destruct jobId as [j |]; [| discriminate].
  intro H. exists d. split; [reflexivity |].
  destruct (w_faults w) as [| [] fs]; try discriminate;
    injection H as H; subst w'; simpl; auto.
Qed.

Lemma addUnsubscribe_available (email domain jobId : string) (w : World) :
  w_faults w = [] -> email_domain email = Ok domain ->
  addUnsubscribe email (Some jobId) w
  = (Ok tt, set_unsubscribes
              (w_unsubscribes w ++ [ledger_entry email domain (w_now w) (Some jobId)]) w).
Proof.
  intros Hf Hd. unfold addUnsubscribe, field_value, bind, lift, ret, store_call.
  rewrite Hd, Hf. reflexivity.
Qed.

(** Without a job id the ledger entry is refused before the store is
    called. *)
Lemma addUnsubscribe_undefined (email : string) (w : World) :
  addUnsubscribe email None w
  = (match email_domain email with
     | Ok _ => Throw invalid_field_value
     | Throw e => Throw e
     end, w).
Proof.
  unfold addUnsubscribe, field_value, bind, lift, throw.
  destruct (email_domain email); reflexivity.
Qed.

Lemma ledger_has_domain_app (a b : list Unsubscribe) (domain : string) :
  ledger_has_domain (a ++ b) domain = ledger_has_domain a domain || ledger_has_domain b domain.
Proof. unfold ledger_has_domain. apply existsb_app. Qed.

Lemma ledger_has_email_app (a b : list Unsubscribe) (email : string) :
  ledger_has_email (a ++ b) email = ledger_has_email a email || ledger_has_email b email.
Proof. unfold ledger_has_email. apply existsb_app. Qed.

Lemma suppressed_by_domain (ledger : list Unsubscribe) (email domain : string) :
  email_domain email = Ok domain -> ledger_has_domain ledger domain = true ->
  suppressed ledger email = Some true.
Proof.
  intros Hd Hl. unfold suppressed. rewrite Hd, Hl, orb_true_r. reflexivity.
Qed.

(** X12: an unsubscribed address takes its whole domain with it.  Once
    [addUnsubscribe] has recorded an address, every address with the same
    domain (letter case apart) is reported as unsubscribed, the address
    itself included, and [isUnsubscribed] says so when the store answers. *)
Theorem unsubscribed_address_suppresses_its_domain (email other : string)
        (jobId : option string) (w w' : World) :
  addUnsubscribe email jobId w = (Ok tt, w') ->
  email_domain other = email_domain email ->
  suppressed (w_unsubscribes w') email = Some true
  /\ suppressed (w_unsubscribes w') other = Some true
  /\ (w_faults w' = [] -> isUnsubscribed other w' = (Ok true, w')).
Proof.
  intros Hadd Hsame. apply addUnsubscribe_run in Hadd.
  destruct Hadd as (domain & Hd & Hl & _).
  assert (Hhas : ledger_has_domain (w_unsubscribes w') domain = true).
  { rewrite Hl, ledger_has_domain_app. apply orb_true_iff. right.
    unfold ledger_has_domain. simpl. rewrite String.eqb_refl. reflexivity. }
  rewrite Hd in Hsame.
  assert (Ho : suppressed (w_unsubscribes w') other = Some true)
    by (eapply suppressed_by_domain; eassumption).
  split; [eapply suppressed_by_domain; eassumption |].
  split; [exact Ho |].
  intro Hf. apply isUnsubscribed_available; assumption.
Qed.

(** X12, witness: [info@foo.com] is recorded, [Sales@FOO.com] is asked. *)
Lemma unsubscribed_address_suppresses_its_domain_witness :
  suppressed (w_unsubscribes Scenario.after_unsubscribe) "info@foo.com" = Some true
  /\ suppressed (w_unsubscribes Scenario.after_unsubscribe) "Sales@FOO.com" = Some true
  /\ (w_faults Scenario.after_unsubscribe = [] ->
      isUnsubscribed "Sales@FOO.com" Scenario.after_unsubscribe
      = (Ok true, Scenario.after_unsubscribe)).
Proof.
  exact (unsubscribed_address_suppresses_its_domain "info@foo.com" "Sales@FOO.com"
           (Some "j1") (Scenario.world [] [] [] []) Scenario.after_unsubscribe eq_refl eq_refl).
Defined.

Lemma lower_char_idem (c : ascii) : Js.lower_char (Js.lower_char c) = Js.lower_char c.
Proof.
  destruct c as [[|] [|] [|] [|] [|] [|] [|] [|]]; reflexivity.
Qed.

Lemma toLowerCase_idem (s : string) : Js.toLowerCase (Js.toLowerCase s) = Js.toLowerCase s.
Proof.
  unfold Js.toLowerCase. induction s as [| a r IH]; simpl; [reflexivity |].
  rewrite lower_char_idem, IH. reflexivity.
Qed.

Lemma toLowerCase_drop (n : nat) (s : string) :
  Js.toLowerCase (Js.drop n s) = Js.drop n (Js.toLowerCase s).
Proof.
  unfold Js.toLowerCase. revert s. induction n as [| k IH]; intros [| a r]; simpl; auto.
Qed.

(** A domain that [extractDomain] returns is in lower case. *)
Lemma extractDomain_lower_case (P : Platform) (url domain : string) :
  extractDomain P url = Some domain -> Js.toLowerCase domain = domain.
Proof.
  unfold extractDomain. destruct (Js.falsy url); [discriminate |]. cbv zeta.
  destruct (new_URL P _) as [parsed |]; [| discriminate].
  intro H. injection H as H. subst domain. unfold strip_www.
  destruct (Js.startsWith "www." _).
  - rewrite toLowerCase_drop, toLowerCase_idem. reflexivity.
  - apply toLowerCase_idem.
Qed.

Lemma split_without (c : ascii) (s : string) :
  includes_char c s = false -> Js.split c s = [s].
Proof.
  unfold includes_char. induction s as [| a r IH]; simpl; [reflexivity |].
  intro H. apply orb_false_iff in H. destruct H as (Ha & Hr).
  rewrite Ascii.eqb_sym in Ha. rewrite Ha, (IH Hr). reflexivity.
Qed.

Lemma split_at_first (c : ascii) (a b : string) :
  includes_char c a = false ->
  Js.split c (a ++ String c b) = a :: Js.split c b.
Proof.
  unfold includes_char. induction a as [| x r IH]; simpl.
  - intros _. rewrite Ascii.eqb_refl. reflexivity.
  - intro H. apply orb_false_iff in H. destruct H as (Hx & Hr).
    rewrite Ascii.eqb_sym in Hx. rewrite Hx, (IH Hr). reflexivity.
Qed.

Lemma email_domain_of_address (local domain : string) :
  includes_char "@" local = false -> includes_char "@" domain = false ->
  email_domain (local ++ "@" ++ domain) = Ok (Js.toLowerCase domain).
Proof.
  intros Hl Hd. unfold email_domain.
  change (local ++ "@" ++ domain)%string with (local ++ String "@" domain)%string.
  rewrite (split_at_first _ _ _ Hl), (split_without _ _ Hd). reflexivity.
Qed.

Lemma candidates_on_domain (domain : string) :
  includes_char "@" domain = false ->
  Forall (fun c => email_domain c = Ok (Js.toLowerCase domain)) (candidates_on domain).
Proof.
  intro Hd. unfold candidates_on. apply Forall_forall. intros c Hc.
  apply in_map_iff in Hc. destruct Hc as (l & Hc & Hl). subst c.
  apply email_domain_of_address; [| exact Hd].
  unfold LOCAL_PARTS in Hl. simpl in Hl.
  repeat (destruct Hl as [Hl | Hl]; [subst l; reflexivity |]). contradiction.
Qed.

Lemma first_unsuppressed_none (ledger : list Unsubscribe) (candidates : list string) :
  Forall (fun c => suppressed ledger c = Some true) candidates ->
  first_unsuppressed ledger candidates = None.
Proof.
  intro H. induction H as [| c r Hc _ IH]; simpl; [reflexivity |].
  rewrite Hc. exact IH.
Qed.

(** X13: suppression is by domain, so one unsubscribed address closes the
    whole domain to discovery.  For a prospect whose website gives a domain
    (without [$] and [@]) that the ledger records, with the store
    available, [discoverEmailForProspect] answers [no_email] and no address:
    none of the six candidates is offered. *)
Theorem discovery_finds_nothing_on_a_recorded_domain (P : Platform) (prospect : Prospect)
        (url domain : string) (w : World) :
  p_website prospect = Some url -> Js.falsy url = false ->
  extractDomain P url = Some domain ->
  no_dollar domain = true -> includes_char "@" domain = false ->
  w_faults w = [] ->
  ledger_has_domain (w_unsubscribes w) domain = true ->
  discoverEmailForProspect P prospect w = (Ok (None, no_email), w).
Proof.
  intros Hw Hu Hd Hdollar Hat Hf Hl.
  rewrite (discoverEmailForProspect_available _ _ _ Hf), Hw.
  cbn [Js.falsy_opt]. rewrite Hu, Hd.
  destruct (Js.falsy domain); [reflexivity |].
  rewrite (generateInferredEmails_plain _ Hdollar).
  rewrite first_unsuppressed_none; [reflexivity |].
  eapply Forall_impl; [| apply (candidates_on_domain _ Hat)].
  intros c Hc. rewrite (extractDomain_lower_case _ _ _ Hd) in Hc.
  eapply suppressed_by_domain; eassumption.
Qed.

(** X13, witness: the prospect [foo] after [info@foo.com] was recorded. *)
Lemma discovery_finds_nothing_on_a_recorded_domain_witness :
  discoverEmailForProspect Ref.quiet Scenario.foo Scenario.after_unsubscribe
  = (Ok (None, no_email), Scenario.after_unsubscribe).
Proof.
  exact (discovery_finds_nothing_on_a_recorded_domain Ref.quiet Scenario.foo
           "http://foo.com" "foo.com" Scenario.after_unsubscribe
           eq_refl eq_refl eq_refl eq_refl eq_refl eq_refl eq_refl).
Defined.

(* ------------------------------------------------------------------ *)
(** *** No entry point removes a ledger entry *)

#[export] Instance ledger_extended_chained : Chained ledger_extended.
Proof.
  unfold ledger_extended. split.
  - intro w. exists []. rewrite app_nil_r. reflexivity.
  - intros a b c (l1 & H1) (l2 & H2). exists (l1 ++ l2).
    rewrite H2, H1, app_assoc. reflexivity.
  - intros w b fs _. exists []. simpl. rewrite app_nil_r. reflexivity.
Qed.

Lemma same_ledger_extended {A} (m : M A) : post same_ledger m -> post ledger_extended m.
Proof.
  intros H w. specialize (H w). unfold same_ledger in H. unfold ledger_extended.
  exists []. rewrite app_nil_r. exact H.
Qed.

Lemma addUnsubscribe_extends (email : string) (jobId : option string) :
  post ledger_extended (addUnsubscribe email jobId).
Proof.
  intro w. unfold addUnsubscribe, field_value, bind, lift, ret, throw, store_call,
    ledger_extended.
  destruct (email_domain email) as [d | e];
    [| exists []; simpl; rewrite app_nil_r; reflexivity].
  destruct jobId as [j |]; [| exists []; simpl; rewrite app_nil_r; reflexivity].
  destruct (w_faults w) as [| [] fs]; simpl;
    first [ eexists; reflexivity | exists []; rewrite app_nil_r; reflexivity ].
Qed.

Lemma update_prospect_same_ledger (prospectId : string) (f : nat -> Prospect -> Prospect) :
  post same_ledger (update_prospect prospectId f).
Proof. frame_writer. Qed.

Lemma updateProspectStatus_same_ledger prospectId status e s :
  post same_ledger (updateProspectStatus prospectId status e s).
Proof. frame_writer. Qed.

Lemma update_job_same_ledger (jobId : string) (f : nat -> Job -> Job) :
  post same_ledger (update_job jobId f).
Proof. frame_writer. Qed.

Section LedgerFrames.
Variable P : Platform.

Lemma handleProspecting_same_ledger job : post same_ledger (handleProspecting P job).
Proof. unfold handleProspecting. chain; frame_writer. Qed.

Lemma handleEmailDiscovery_same_ledger job : post same_ledger (handleEmailDiscovery P job).
Proof.
  unfold handleEmailDiscovery. chain;
    try (apply update_discovered_frame; [exact _ | intros]); frame_writer.
Qed.

Lemma handleSending_same_ledger job : post same_ledger (handleSending P job).
Proof.
  unfold handleSending. chain; frame_writer.
Qed.

Lemma process_guarded_same_ledger job : post same_ledger (process_guarded P job).
Proof.
  unfold process_guarded. apply post_try_catch; [| intro; frame_writer].
  unfold processJob. destruct (job_status job);
    first [ apply handleProspecting_same_ledger | apply handleEmailDiscovery_same_ledger
          | apply handleSending_same_ledger | apply post_ret ].
Qed.

End LedgerFrames.

Ltac response_post :=
  match goal with
  | |- ?R ?w (snd (match ?m ?w with _ => _ end)) =>
      let H := fresh "Hpost" in
      assert (H : post R m);
      [| specialize (H w); destruct (m w) as [[? | ?] ?]; exact H]
  end.

Lemma cron_GET_same_ledger (P : Platform) (authHeader : option string) (w : World) :
  same_ledger w (snd (cron_GET P authHeader w)).
Proof.
  unfold cron_GET. destruct (cron_unauthorized P authHeader); [reflexivity |].
  response_post. chain. apply post_for_each. intro j. apply process_guarded_same_ledger.
Qed.

Lemma jobs_POST_same_ledger (P : Platform) (body : outcome CreateJobRequest) (w : World) :
  same_ledger w (snd (jobs_POST P body w)).
Proof. unfold jobs_POST. response_post. chain; frame_writer. Qed.

Lemma status_PATCH_same_ledger (jobId : string) (body : outcome StatusBody) (w : World) :
  same_ledger w (snd (status_PATCH jobId body w)).
Proof.
  unfold status_PATCH. response_post. chain; apply update_job_same_ledger.
Qed.

Lemma unsubscribe_GET_extends (P : Platform) (token : option string) (w : World) :
  ledger_extended w (snd (unsubscribe_GET P token w)).
Proof.
  unfold unsubscribe_GET. destruct (Js.falsy_opt token); [apply chained_refl |].
  cbv zeta. response_post.
  chain; first [ apply addUnsubscribe_extends
               | apply same_ledger_extended; apply update_prospect_same_ledger ].
Qed.

Lemma handleSendGridEvent_extends (eventData : SendGridEvent) :
  post ledger_extended (handleSendGridEvent eventData).
Proof.
  unfold handleSendGridEvent. cbv zeta.
  destruct (Js.falsy_opt _ || Js.falsy_opt _); [apply post_ret |].
  apply post_bind; [apply post_store_read | intro snap].
  destruct snap as [doc |]; [| apply post_ret].
  destruct (ev_event eventData) as [eventType |]; [| apply post_ret].
  destruct ((eventType =? "bounce") || (eventType =? "dropped")).
  - chain; apply same_ledger_extended;
      first [ apply updateProspectStatus_same_ledger | apply update_prospect_same_ledger ].
  - destruct (eventType =? "unsubscribe"); [| apply post_ret].
    chain; first [ apply addUnsubscribe_extends
                 | apply same_ledger_extended;
                   first [ apply updateProspectStatus_same_ledger
                         | apply update_prospect_same_ledger ] ].
Qed.

Lemma suppressed_stays (ledger added : list Unsubscribe) (email : string) :
  suppressed ledger email = Some true -> suppressed (ledger ++ added) email = Some true.
Proof.
  unfold suppressed. destruct (email_domain email) as [d | e]; [| discriminate].
  intro H. injection H as H. rewrite ledger_has_email_app, ledger_has_domain_app.
  apply orb_true_iff in H. f_equal.
  destruct H as [H | H]; rewrite H; rewrite ?orb_true_r; reflexivity.
Qed.

(** X14: no entry point removes or rewrites an entry of the suppression
    ledger.  A scheduler tick, a job creation and a status update leave the
    ledger as it is; an unsubscribe request and a provider event leave the
    entries that were there, in order, and may add to them.  So an address
    the ledger suppresses stays suppressed after any of them. *)
Theorem ledger_entries_are_never_removed :
  (forall P authHeader w,
      w_unsubscribes (snd (cron_GET P authHeader w)) = w_unsubscribes w)
  /\ (forall P body w, w_unsubscribes (snd (jobs_POST P body w)) = w_unsubscribes w)
  /\ (forall jobId body w,
        w_unsubscribes (snd (status_PATCH jobId body w)) = w_unsubscribes w)
  /\ (forall P token w,
        exists added,
          w_unsubscribes (snd (unsubscribe_GET P token w)) = w_unsubscribes w ++ added)
  /\ (forall eventData w,
        exists added,
          w_unsubscribes (snd (handleSendGridEvent eventData w)) = w_unsubscribes w ++ added)
  /\ (forall ledger added email,
        suppressed ledger email = Some true ->
        suppressed (ledger ++ added) email = Some true).
Proof.
  split; [exact cron_GET_same_ledger |].
  split; [exact jobs_POST_same_ledger |].
  split; [exact status_PATCH_same_ledger |].
  split; [exact unsubscribe_GET_extends |].
  split; [exact handleSendGridEvent_extends |].
  exact suppressed_stays.
Qed.

(* ================================================================== *)
(** ** The unsubscribe link for a prospect the store does not know *)

(** X15: an unsubscribe request for a prospect the store does not know
    records nothing.  With the store available, for a token that decodes to
    an unknown prospect id and an address, the route calls [addUnsubscribe]
    without a job id; the entry to write then holds [jobId: undefined],
    which the client refuses (an address without [@] has thrown before
    that), and the request is answered with 500: the ledger, the prospects
    and the jobs are as they were. *)
Theorem unsubscribe_of_unknown_prospect_records_nothing (P : Platform) (token : string)
        (w : World) (prospectId email : string) :
  Js.falsy token = false ->
  nth_error (Js.split ":" (decodeBase64Url P token)) 0 = Some prospectId ->
  nth_error (Js.split ":" (decodeBase64Url P token)) 1 = Some email ->
  Js.falsy prospectId = false -> Js.falsy email = false ->
  w_faults w = [] ->
  find (fun p => p_id p =? prospectId) (w_prospects w) = None ->
  unsubscribe_GET P (Some token) w = (Unsub_500, w)
  /\ addUnsubscribe email None w
     = (match email_domain email with
        | Ok _ => Throw invalid_field_value
        | Throw e => Throw e
        end, w).
Proof.
  intros Ht Hid Hem Hfid Hfem Hfaults Hfind.
  split; [| apply addUnsubscribe_undefined].
  unfold unsubscribe_GET. cbn [Js.falsy_opt]. rewrite Ht, Hid, Hem.
  cbn [Js.falsy_opt]. rewrite Hfid, Hfem. cbn [orb].
  rewrite bind_run. unfold get_prospect.
  rewrite (store_read_available (fun w => find (fun p => p_id p =? prospectId)
                                               (w_prospects w)) w Hfaults).
  rewrite Hfind, bind_run, addUnsubscribe_undefined.
  destruct (email_domain email); reflexivity.
Qed.

(** X15, witness: the token of [other:info@foo.com] on an empty store. *)
Lemma unsubscribe_of_unknown_prospect_records_nothing_witness :
  unsubscribe_GET Ref.quiet (Some "b3RoZXI6aW5mb0Bmb28uY29t") (Scenario.world [] [] [] [])
  = (Unsub_500, Scenario.world [] [] [] []).
Proof.
  exact (proj1 (unsubscribe_of_unknown_prospect_records_nothing Ref.quiet
                  "b3RoZXI6aW5mb0Bmb28uY29t" (Scenario.world [] [] [] [])
                  "other" "info@foo.com"
                  eq_refl eq_refl eq_refl eq_refl eq_refl eq_refl eq_refl)).
Defined.

(* ================================================================== *)
(** ** The report of a batch *)

(** X19: [batchSendEmails] reports on the empty batch only.  For the empty
    batch it returns the report of no message sent, none failed and no
    error, without a call of the store or of the mail provider; for every
    other batch the call of the sender for the first prospect throws on its
    unbound identifier, outside any [try], so the batch throws too: no
    report is returned, and nothing has been sent or written. *)
Theorem batchSendEmails_reports_on_the_empty_batch_only (P : Platform)
        (prospects : list Prospect) (jobId : option string) (w : World) :
  batchSendEmails P prospects jobId w
  = match prospects with
    | [] => (Ok (mkBatchResult 0 0 []), w)
    | _ :: _ => (Throw (ReferenceError "prospect"), w)
    end.
Proof.
  destruct prospects as [| p rest].
  - apply batchSendEmails_empty.
  - apply batchSendEmails_throws. discriminate.
Qed.

(* ================================================================== *)
(** ** Provider events *)

Lemma find_In_existsb_id (f : Prospect -> bool) (l : list Prospect) (doc : Prospect) :
  find f l = Some doc -> existsb (fun p => p_id p =? p_id doc) l = true.
Proof.
  intro H. apply find_some in H. destruct H as (Hin & _).
  apply existsb_id_In. apply in_map. exact Hin.
Qed.

(** The handler on an event whose message id a prospect carries, with the
    store available. *)
Lemma handleSendGridEvent_found (eventData : SendGridEvent) (w : World)
      (messageId email : string) (doc : Prospect) :
  event_messageId (ev_sg_message_id eventData) = Some messageId ->
  Js.falsy messageId = false ->
  ev_email eventData = Some email -> Js.falsy email = false ->
  w_faults w = [] ->
  find (carries_messageId messageId) (w_prospects w) = Some doc ->
  handleSendGridEvent eventData w
  = match ev_event eventData with
    | Some eventType =>
        if (eventType =? "bounce") || (eventType =? "dropped") then
          (Ok tt,
           set_prospects
             (map (fun p => if p_id p =? p_id doc
                            then set_prospect_bounced
                                   (Some (bounce_reason (ev_reason eventData) eventType))
                                   (w_now w)
                                   (set_prospect_status bounced (Some email) (Some inferred)
                                                        (w_now w) p)
                            else p) (w_prospects w)) w)
        else if eventType =? "unsubscribe" then
          match email_domain email with
          | Ok domain =>
              (Ok tt,
               set_prospects
                 (map (fun p => if p_id p =? p_id doc
                                then set_prospect_unsubscribedAt (w_now w)
                                       (set_prospect_status unsubscribed (Some email)
                                                            (Some inferred) (w_now w) p)
                                else p) (w_prospects w))
                 (set_unsubscribes
                    (w_unsubscribes w
                     ++ [ledger_entry email domain (w_now w) (Some (p_jobId doc))]) w))
          | Throw e => (Throw e, w)
          end
        else (Ok tt, w)
    | None => (Ok tt, w)
    end.
Proof.
  intros Hm Hfm He Hfe Hf Hfind.
  pose proof (find_In_existsb_id _ _ _ Hfind) as Hex.
  unfold handleSendGridEvent. rewrite Hm, He. cbn [Js.falsy_opt]. rewrite Hfm, Hfe.
  cbn [orb]. cbv zeta. rewrite bind_run.
  unfold find_by_messageId.
  rewrite (store_read_available
             (fun w => find (fun p => match p_sendGridMessageId p with
                                      | Some m => m =? messageId
                                      | None => false
                                      end) (w_prospects w)) w Hf).
  change (find _ (w_prospects w)) with (find (carries_messageId messageId) (w_prospects w)).
  rewrite Hfind.
  destruct (ev_event eventData) as [eventType |]; [| reflexivity].
  destruct ((eventType =? "bounce") || (eventType =? "dropped")).
  - rewrite updateProspectStatus_key.
    rewrite (update_prospect_twice (p_id doc)) by (auto; reflexivity). reflexivity.
  - destruct (eventType =? "unsubscribe"); [| reflexivity].
    rewrite bind_run.
    destruct (email_domain email) as [d | e] eqn:Hd.
    + rewrite (addUnsubscribe_available _ _ _ _ Hf Hd).
      rewrite updateProspectStatus_key.
      rewrite (update_prospect_twice (p_id doc)) by (auto; reflexivity). reflexivity.
    + unfold addUnsubscribe, bind, lift. rewrite Hd. reflexivity.
Qed.

Lemma bounce_reason_bound (reason : option string) (eventType : string) :
  bounce_reason reason eventType = eventType
  \/ (String.length (bounce_reason reason eventType) <= 500)%nat.
Proof.
  unfold bounce_reason, or_default.
  destruct reason as [r |]; cbn [option_map]; [| left; reflexivity].
  destruct (Js.falsy (Js.substring0 500 r)); [left; reflexivity | right].
  apply substring0_length.
Qed.

(** X20: a bounce reported by the provider.  For a [bounce] or [dropped]
    event of a message that a prospect carries, with the store available,
    the prospect is marked [bounced] at the time of the event, with the
    reason of the event cut to 500 characters (the event type when there is
    none), and the address of the event becomes its discovered email; no
    other prospect changes, and neither the jobs (their [bounced] counter
    included) nor the ledger change. *)
Theorem bounce_event_marks_the_prospect_bounced (eventData : SendGridEvent) (w : World)
        (messageId email eventType : string) (doc : Prospect) :
  event_messageId (ev_sg_message_id eventData) = Some messageId ->
  Js.falsy messageId = false ->
  ev_email eventData = Some email -> Js.falsy email = false ->
  ev_event eventData = Some eventType ->
  eventType = "bounce" \/ eventType = "dropped" ->
  w_faults w = [] ->
  find (carries_messageId messageId) (w_prospects w) = Some doc ->
  fst (handleSendGridEvent eventData w) = Ok tt
  /\ prospects_changed (p_id doc)
       (fun p p' => p_status p' = bounced
                    /\ p_bouncedAt p' = Some (w_now w)
                    /\ p_bounceReason p' = Some (bounce_reason (ev_reason eventData) eventType)
                    /\ (bounce_reason (ev_reason eventData) eventType = eventType
                        \/ (String.length (bounce_reason (ev_reason eventData) eventType)
                            <= 500)%nat)
                    /\ p_discoveredEmail p' = Some email
                    /\ same_listing p p')
       w (snd (handleSendGridEvent eventData w))
  /\ w_jobs (snd (handleSendGridEvent eventData w)) = w_jobs w
  /\ w_unsubscribes (snd (handleSendGridEvent eventData w)) = w_unsubscribes w.
Proof.
  intros Hm Hfm He Hfe Hev Htype Hf Hfind.
  rewrite (handleSendGridEvent_found _ _ _ _ _ Hm Hfm He Hfe Hf Hfind), Hev.
  assert (Hb : (eventType =? "bounce") || (eventType =? "dropped") = true).
  { destruct Htype; subst eventType; reflexivity. }
  rewrite Hb. cbn [fst snd]. repeat split.
  unfold prospects_changed. simpl. apply Forall2_map_r. intro p.
  destruct (p_id p =? p_id doc); [| reflexivity].
  pose proof (bounce_reason_bound (ev_reason eventData) eventType) as Hr.
  unfold same_listing, set_prospect_status. simpl. rewrite Hfe. simpl.
  repeat split; auto.
Qed.

(** X20, witness: a bounce of the message [m1] that prospect [p1] carries. *)
Lemma bounce_event_marks_the_prospect_bounced_witness :
  fst (handleSendGridEvent
         (mkEvent (Some "info@foo.com") (Some "bounce") (Some "m1.filter.7")
                  (Some "mailbox full"))
         (Scenario.world [] [set_prospect_sent "m1" 0 Scenario.ready] [] []))
  = Ok tt.
Proof.
  exact (proj1 (bounce_event_marks_the_prospect_bounced
                  (mkEvent (Some "info@foo.com") (Some "bounce") (Some "m1.filter.7")
                           (Some "mailbox full"))
                  (Scenario.world [] [set_prospect_sent "m1" 0 Scenario.ready] [] [])
                  "m1" "info@foo.com" "bounce" (set_prospect_sent "m1" 0 Scenario.ready)
                  eq_refl eq_refl eq_refl eq_refl eq_refl (or_introl eq_refl)
                  eq_refl eq_refl)).
Defined.

(** X21: an unsubscribe reported by the provider.  For an [unsubscribe]
    event of a message that a prospect carries, with the store available:
    when the address of the event has a domain, the address is recorded in
    the ledger with that domain and the job of the prospect, it is
    suppressed from then on, and the prospect is marked [unsubscribed] at
    the time of the event; when the address has no [@] the handler throws
    and nothing is written.  The jobs are never changed. *)
Theorem unsubscribe_event_is_recorded (eventData : SendGridEvent) (w : World)
        (messageId email : string) (doc : Prospect) :
  event_messageId (ev_sg_message_id eventData) = Some messageId ->
  Js.falsy messageId = false ->
  ev_email eventData = Some email -> Js.falsy email = false ->
  ev_event eventData = Some "unsubscribe" ->
  w_faults w = [] ->
  find (carries_messageId messageId) (w_prospects w) = Some doc ->
  w_jobs (snd (handleSendGridEvent eventData w)) = w_jobs w
  /\ match email_domain email with
     | Ok domain =>
         fst (handleSendGridEvent eventData w) = Ok tt
         /\ w_unsubscribes (snd (handleSendGridEvent eventData w))
            = w_unsubscribes w ++ [ledger_entry email domain (w_now w) (Some (p_jobId doc))]
         /\ suppressed (w_unsubscribes (snd (handleSendGridEvent eventData w))) email
            = Some true
         /\ prospects_changed (p_id doc)
              (fun p p' => p_status p' = unsubscribed
                           /\ p_unsubscribedAt p' = Some (w_now w)
                           /\ p_discoveredEmail p' = Some email
                           /\ same_listing p p')
              w (snd (handleSendGridEvent eventData w))
     | Throw e => handleSendGridEvent eventData w = (Throw e, w)
     end.
Proof.
  intros Hm Hfm He Hfe Hev Hf Hfind.
  rewrite (handleSendGridEvent_found _ _ _ _ _ Hm Hfm He Hfe Hf Hfind), Hev.
  cbn [String.eqb Ascii.eqb Bool.eqb orb].
  change (("unsubscribe" =? "bounce") || ("unsubscribe" =? "dropped")) with false.
  change ("unsubscribe" =? "unsubscribe") with true. cbv iota.
  destruct (email_domain email) as [d | e] eqn:Hd; cbn [fst snd]; [| split; reflexivity].
  split; [reflexivity |]. split; [reflexivity |]. split; [reflexivity |]. split.
  - simpl. eapply suppressed_by_domain; [exact Hd |].
    rewrite ledger_has_domain_app. apply orb_true_iff. right.
    unfold ledger_has_domain. simpl. rewrite String.eqb_refl. reflexivity.
  - unfold prospects_changed. simpl. apply Forall2_map_r. intro p.
    destruct (p_id p =? p_id doc); [| reflexivity].
    unfold same_listing, set_prospect_status. simpl. rewrite Hfe. simpl. auto 15.
Qed.

(** X21, witness: an unsubscribe for the message [m1] of prospect [p1]. *)
Lemma unsubscribe_event_is_recorded_witness :
  suppressed
    (w_unsubscribes
       (snd (handleSendGridEvent
               (mkEvent (Some "info@foo.com") (Some "unsubscribe") (Some "m1.filter.7") None)
               (Scenario.world [] [set_prospect_sent "m1" 0 Scenario.ready] [] []))))
    "info@foo.com"
  = Some true.
Proof.
  exact (proj1 (proj2 (proj2 (proj2
    (unsubscribe_event_is_recorded
       (mkEvent (Some "info@foo.com") (Some "unsubscribe") (Some "m1.filter.7") None)
       (Scenario.world [] [set_prospect_sent "m1" 0 Scenario.ready] [] [])
       "m1" "info@foo.com" (set_prospect_sent "m1" 0 Scenario.ready)
       eq_refl eq_refl eq_refl eq_refl eq_refl eq_refl eq_refl))))).
Defined.

Lemma handleSendGridEvent_same_jobs (eventData : SendGridEvent) :
  post same_jobs (handleSendGridEvent eventData).
Proof.
  unfold handleSendGridEvent. cbv zeta.
  destruct (Js.falsy_opt _ || Js.falsy_opt _); [apply post_ret |].
  apply post_bind; [apply post_store_read | intro snap].
  destruct snap as [doc |]; [| apply post_ret].
  destruct (ev_event eventData) as [eventType |]; [| apply post_ret].
  destruct ((eventType =? "bounce") || (eventType =? "dropped")).
  - chain; frame_writer.
  - destruct (eventType =? "unsubscribe"); [| apply post_ret].
    chain; frame_writer.
Qed.

Lemma handleSendGridEvent_other (eventData : SendGridEvent) (R : World -> World -> Prop)
      {HR : Chained R} :
  match ev_event eventData with Some t => acted_on t = false | None => True end ->
  post R (handleSendGridEvent eventData).
Proof.
  intro Ht. unfold handleSendGridEvent. cbv zeta.
  destruct (Js.falsy_opt _ || Js.falsy_opt _); [apply post_ret |].
  apply post_bind; [apply post_store_read | intro snap].
  destruct snap as [doc |]; [| apply post_ret].
  destruct (ev_event eventData) as [eventType |]; [| apply post_ret].
  unfold acted_on in Ht. apply orb_false_iff in Ht. destruct Ht as (Hb & Hu).
  rewrite Hb, Hu. apply post_ret.
Qed.

(** X22: what provider events never do.  No event changes a job record, so
    the counters of a job do not follow the bounces and the unsubscribes
    the provider reports.  An event without a message id or without an
    address is dropped without a call of the store; an event whose message
    id no prospect carries, and an event of any type other than [bounce],
    [dropped] and [unsubscribe] ([delivered] for one), change no prospect
    and no ledger entry. *)
Theorem provider_events_never_change_jobs :
  (forall eventData w, w_jobs (snd (handleSendGridEvent eventData w)) = w_jobs w)
  /\ (forall eventData w,
        Js.falsy_opt (event_messageId (ev_sg_message_id eventData)) = true
        \/ Js.falsy_opt (ev_email eventData) = true ->
        handleSendGridEvent eventData w = (Ok tt, w))
  /\ (forall eventData w messageId,
        event_messageId (ev_sg_message_id eventData) = Some messageId ->
        find (carries_messageId messageId) (w_prospects w) = None ->
        w_prospects (snd (handleSendGridEvent eventData w)) = w_prospects w
        /\ w_unsubscribes (snd (handleSendGridEvent eventData w)) = w_unsubscribes w)
  /\ (forall eventData w,
        match ev_event eventData with Some t => acted_on t = false | None => True end ->
        w_prospects (snd (handleSendGridEvent eventData w)) = w_prospects w
        /\ w_unsubscribes (snd (handleSendGridEvent eventData w)) = w_unsubscribes w)
  /\ acted_on "delivered" = false.
Proof.
  split; [exact handleSendGridEvent_same_jobs |].
  split; [| split; [| split; [| reflexivity]]].
  - intros eventData w H. unfold handleSendGridEvent. cbv zeta.
    destruct H as [H | H]; rewrite H; rewrite ?orb_true_r; reflexivity.
  - intros eventData w messageId Hm Hfind.
    unfold handleSendGridEvent. cbv zeta. rewrite Hm.
    destruct (Js.falsy_opt (Some messageId) || Js.falsy_opt (ev_email eventData));
      [split; reflexivity |].
    rewrite bind_run. unfold find_by_messageId.
    destruct (store_call _ w) as [[snap | e] w1] eqn:E;
      (apply store_read_inv in E; [| reflexivity]);
      destruct E as (Ho & _ & Hp & Hl & _); [| simpl; auto].
    destruct Ho as [Ho | Ho]; [| discriminate]. injection Ho as Ho.
    change (snap = find (carries_messageId messageId) (w_prospects w)) in Ho.
    rewrite Hfind in Ho. subst snap. simpl. auto.
  - intros eventData w Ht. split.
    + apply (handleSendGridEvent_other eventData same_prospects Ht w).
    + apply (handleSendGridEvent_other eventData same_ledger Ht w).
Qed.

(* ================================================================== *)
(** ** The business finder and the prospecting stage *)

Lemma length_slice0 {A} (n : Z) (l : list A) :
  (0 <= n)%Z -> (Z.of_nat (List.length (slice0 n l)) <= n)%Z.
Proof.
  intro H. unfold slice0. destruct (Z.ltb_spec n 0); [lia |].
  rewrite length_firstn. lia.
Qed.

Lemma searchBusinesses_cap (P : Platform) (niche targetZip targetCountry : string)
      (radiusKm maxBusinesses : Z) (result : list PlacesBusiness) :
  searchBusinesses P niche targetZip targetCountry radiusKm maxBusinesses = Ok result ->
  (0 <= maxBusinesses)%Z ->
  (Z.of_nat (List.length result) <= maxBusinesses)%Z.
Proof.
  unfold searchBusinesses. intros H Hmax.
  destruct (geocodeLocation P targetZip targetCountry) as [loc | e]; [| discriminate].
  destruct (Js.falsy_opt (GOOGLE_PLACES_API_KEY P)); [discriminate |].
  cbv zeta in H.
  destruct (places_searchText P _ _ _ _ _) as [res | e]; [| discriminate].
  destruct (negb (res_ok res)); [discriminate |].
  destruct (res_places res) as [places |];
    [| injection H as H; subst result; simpl; exact Hmax].
  destruct (truthy_string (res_nextPageToken res)) as [token |].
  - destruct (Z.of_nat (List.length (map (clean_place P) places)) <? maxBusinesses)%Z.
    + destruct (fetchNextPage P token _) as [next | e]; [| discriminate].
      injection H as H. subst result. apply length_slice0. exact Hmax.
    + injection H as H. subst result. apply length_slice0. exact Hmax.
  - injection H as H. subst result. apply length_slice0. exact Hmax.
Qed.

Lemma searchBusinesses_without_key (P : Platform) (niche targetZip targetCountry : string)
      (radiusKm maxBusinesses : Z) :
  Js.falsy_opt (GOOGLE_PLACES_API_KEY P) = true ->
  exists e, searchBusinesses P niche targetZip targetCountry radiusKm maxBusinesses = Throw e.
Proof.
  intro H. unfold searchBusinesses, geocodeLocation. rewrite H. eexists. reflexivity.
Qed.

(** X23: the business finder respects the cap.  [searchBusinesses] never
    returns more businesses than [maxBusinesses] (for a cap that is not
    negative, as every sanitized cap is), whatever the provider answers,
    and the radius it sends for a sanitized radius is that radius in
    metres, between 1000 and 50000: the 50 km limit of the provider never
    cuts it.  Without an API key it throws, whatever the providers would
    answer; an answer of the first search that is not [ok] makes it throw,
    and an answer without a list of places gives the empty list. *)
Theorem searchBusinesses_respects_the_cap (P : Platform)
        (niche targetZip targetCountry : string) (radiusKm maxBusinesses : Z) :
  (forall result,
      searchBusinesses P niche targetZip targetCountry radiusKm maxBusinesses = Ok result ->
      (0 <= maxBusinesses)%Z ->
      (Z.of_nat (List.length result) <= maxBusinesses)%Z)
  /\ (forall n, radiusKmToMeters (sanitizeRadius n) = (1000 * sanitizeRadius n)%Z
                /\ (1000 <= radiusKmToMeters (sanitizeRadius n) <= 50000)%Z)
  /\ (Js.falsy_opt (GOOGLE_PLACES_API_KEY P) = true ->
      exists e,
        searchBusinesses P niche targetZip targetCountry radiusKm maxBusinesses = Throw e)
  /\ (forall location res,
        geocodeLocation P targetZip targetCountry = Ok location ->
        places_searchText P (niche ++ " near " ++ targetZip ++ ", " ++ targetCountry)%string
                          (geo_lat location) (geo_lng location)
                          (radiusKmToMeters radiusKm) (Z.min maxBusinesses 20) = Ok res ->
        (res_ok res = false ->
         exists e,
           searchBusinesses P niche targetZip targetCountry radiusKm maxBusinesses = Throw e)
        /\ (res_ok res = true -> res_places res = None ->
            searchBusinesses P niche targetZip targetCountry radiusKm maxBusinesses = Ok [])).
Proof.
  split; [intros result; apply searchBusinesses_cap |].
  split.
  { intro n. pose proof (sanitizeRadius_range n). unfold radiusKmToMeters. lia. }
  split; [apply searchBusinesses_without_key |].
  intros location res Hgeo Hsearch.
  unfold searchBusinesses. rewrite Hgeo, (geocodeLocation_needs_key _ _ _ _ Hgeo).
  cbv zeta. rewrite Hsearch. split.
  - intro Hok. rewrite Hok. eexists. reflexivity.
  - intros Hok Hnone. rewrite Hok, Hnone. reflexivity.
Qed.

(** The commit of no prospect writes nothing. *)
Lemma batchCreateProspects_nothing (P : Platform) (jobId : option string) (w : World) :
  w_faults w = [] -> batchCreateProspects P jobId [] w = (Ok tt, w).
Proof.
  intro Hf. unfold batchCreateProspects, store_call. cbn [existsb]. rewrite Hf.
  destruct w as [js ps us now fr fa ob]. unfold set_fresh, set_prospects. simpl.
  rewrite Nat.add_0_r, app_nil_r. reflexivity.
Qed.

(** Every prospect the finder hands over holds [undefined] properties. *)
Lemma prospect_data_holds_undefined (jobId jobId' : option string)
      (business : PlacesBusiness) :
  holds_undefined jobId (prospect_data jobId' business) = true.
Proof.
  unfold holds_undefined, prospect_data. cbn.
  destruct jobId, (b_website business), (b_phone business), (b_rating business),
    (b_reviewCount business); reflexivity.
Qed.

Lemma getProspectsFromPlaces_undefined (P : Platform) (jobId jobId' : option string)
      (job : Job) (data : list ProspectData) :
  getProspectsFromPlaces P jobId' job = Ok data ->
  Forall (fun d => holds_undefined jobId d = true) data.
Proof.
  unfold getProspectsFromPlaces.
  destruct (searchBusinesses P _ _ _ _ _) as [bs | e]; [| discriminate].
  intro H. injection H as H. subst data. apply Forall_forall. intros d Hd.
  apply in_map_iff in Hd. destruct Hd as (b & Hb & _). subst d.
  apply prospect_data_holds_undefined.
Qed.

Lemma stats_increment_zero (field : StatField) (s : Stats) : stats_increment field 0 s = s.
Proof. destruct s, field; simpl; rewrite Z.add_0_r; reflexivity. Qed.

(** The prospecting stage on an available store, for a job on record that
    carries its id: the job reaches [discovering] when the finder returns
    no business, and is marked [failed] otherwise. *)
Lemma handleProspecting_available (P : Platform) (job : Job) (w : World) :
  job_id_stored job = true ->
  w_faults w = [] -> In (job_id job) (map job_id (w_jobs w)) ->
  handleProspecting P job w
  = (Ok tt,
     set_jobs
       (map (fun j =>
               if job_id j =? job_id job
               then set_job_status
                      (match getProspectsFromPlaces P (Some (job_id job)) job with
                       | Ok [] => discovering
                       | _ => failed
                       end) (w_now w)
                      (if JobStatus_eqb (job_status job) draft
                       then set_job_status prospecting (w_now w) j else j)
               else j)
            (w_jobs w)) w).
Proof.
  intros Hid Hf Hin. unfold handleProspecting, job_dot_id. rewrite Hid.
  assert (Hfirst :
    forall k : M unit,
      ((if JobStatus_eqb (job_status job) draft
        then updateJobStatus (Some (job_id job)) prospecting else ret tt) ;; k) w
      = k (set_jobs (map (fun j => if job_id j =? job_id job
                                   then (if JobStatus_eqb (job_status job) draft
                                         then set_job_status prospecting (w_now w) j else j)
                                   else j) (w_jobs w)) w)).
  { intro k. destruct (JobStatus_eqb (job_status job) draft).
    - rewrite updateJobStatus_key. apply update_job_then; assumption.
    - rewrite bind_run. unfold ret. f_equal.
      destruct w as [js ps us now fr fa ob]. unfold set_jobs. simpl. f_equal.
      rewrite <- (map_id js) at 1. apply map_ext. intro j.
      destruct (job_id j =? job_id job); reflexivity. }
  rewrite Hfirst. clear Hfirst.
  set (w1 := set_jobs _ w).
  assert (Hf1 : w_faults w1 = []) by exact Hf.
  assert (Hin1 : In (job_id job) (map job_id (w_jobs w1))).
  { unfold w1. simpl.
    rewrite (map_update_same job_id (fun j => job_id j =? job_id job)
               (fun j => if JobStatus_eqb (job_status job) draft
                         then set_job_status prospecting (w_now w) j else j)).
    - exact Hin.
    - intro j. destruct (JobStatus_eqb (job_status job) draft); reflexivity. }
  assert (Hfail :
    updateJobStatus (Some (job_id job)) failed w1
    = (Ok tt,
       set_jobs
         (map (fun j => if job_id j =? job_id job
                        then set_job_status failed (w_now w)
                               (if JobStatus_eqb (job_status job) draft
                                then set_job_status prospecting (w_now w) j else j)
                        else j) (w_jobs w)) w)).
  { rewrite (updateJobStatus_available _ _ _ Hf1 Hin1).
    unfold w1. simpl. rewrite map_job_update_twice; [reflexivity |].
    intro j. destruct (JobStatus_eqb (job_status job) draft); reflexivity. }
  unfold try_catch. rewrite bind_run. unfold lift.
  pose proof (getProspectsFromPlaces_undefined P (Some (job_id job)) (Some (job_id job)) job)
    as Hundef.
  destruct (getProspectsFromPlaces P (Some (job_id job)) job) as [[| d data] | e].
  - rewrite bind_run, (batchCreateProspects_nothing _ _ _ Hf1).
    rewrite !incrementJobStat_key, updateJobStatus_key.
    rewrite update_job_then by assumption.
    rewrite update_job_then
      by (simpl; try apply In_ids_update; try assumption; reflexivity).
    rewrite update_job_available
      by (simpl; repeat (apply In_ids_update; [reflexivity |]); assumption).
    simpl. unfold w1. simpl. f_equal.
    destruct w as [js ps us now fr fa ob]. unfold set_jobs. simpl. f_equal.
    rewrite !map_map. apply map_ext. intro j.
    destruct (job_id j =? job_id job) eqn:E.
    + destruct (JobStatus_eqb (job_status job) draft); simpl; rewrite E; simpl;
        rewrite E; simpl; rewrite E; unfold set_job_status, set_job_stats;
        cbn -[stats_increment]; rewrite !stats_increment_zero; reflexivity.
    + rewrite !E. reflexivity.
  - specialize (Hundef _ eq_refl). inversion Hundef as [| x l Hd _]; subst.
    rewrite bind_run. unfold batchCreateProspects. cbn [existsb]. rewrite Hd.
    cbn [orb]. exact Hfail.
  - exact Hfail.
Qed.

Lemma getProspectsFromPlaces_cap (P : Platform) (jobId : option string) (job : Job)
      (data : list ProspectData) :
  getProspectsFromPlaces P jobId job = Ok data ->
  (0 <= job_maxBusinesses job)%Z ->
  (Z.of_nat (List.length data) <= job_maxBusinesses job)%Z.
Proof.
  unfold getProspectsFromPlaces. intros H Hmax.
  destruct (searchBusinesses P _ _ _ _ _) as [bs | e] eqn:E; [| discriminate].
  injection H as H. subst data. rewrite length_map.
  eapply searchBusinesses_cap; eassumption.
Qed.

(** X24: a prospecting tick stores no prospect.  Every prospect the
    business finder hands over holds [undefined] properties (the six that
    discovery and sending fill later), which the store client refuses, so a
    result that is not empty is never written.  On an available store, for
    a job on record that carries its id, the handler returns; the prospect
    collection is as it was; the job is in [discovering] when the finder
    returned no business and [failed] when it returned some or threw; its
    counters and its settings stay, and no other job changes.  The finder
    returns at most as many prospects as the cap of the job. *)
Theorem prospecting_tick_stores_no_prospect (P : Platform) (job : Job) (w : World) :
  job_id_stored job = true ->
  w_faults w = [] -> In (job_id job) (map job_id (w_jobs w)) ->
  fst (handleProspecting P job w) = Ok tt
  /\ w_prospects (snd (handleProspecting P job w)) = w_prospects w
  /\ Forall2 (fun j j' =>
                if job_id j =? job_id job
                then job_status j'
                     = match getProspectsFromPlaces P (job_dot_id job) job with
                       | Ok [] => discovering
                       | _ => failed
                       end
                     /\ job_stats j' = job_stats j
                     /\ same_campaign j j'
                else j' = j)
             (w_jobs w) (w_jobs (snd (handleProspecting P job w)))
  /\ (forall data,
        getProspectsFromPlaces P (job_dot_id job) job = Ok data ->
        Forall (fun d => holds_undefined (job_dot_id job) d = true) data
        /\ ((0 <= job_maxBusinesses job)%Z ->
            (Z.of_nat (List.length data) <= job_maxBusinesses job)%Z)
        /\ (data <> [] ->
            fst (batchCreateProspects P (job_dot_id job) data w)
            = Throw invalid_field_value)).
Proof.
  intros Hid Hf Hin. rewrite (handleProspecting_available _ _ _ Hid Hf Hin).
  unfold job_dot_id. rewrite Hid. cbn [fst snd].
  split; [reflexivity |]. split; [reflexivity |]. split.
  - simpl. apply Forall2_map_r. intro j.
    destruct (job_id j =? job_id job); [| reflexivity].
    unfold same_campaign.
    destruct (JobStatus_eqb (job_status job) draft); simpl; repeat split; auto.
  - intros data Hdata.
    pose proof (getProspectsFromPlaces_undefined P (Some (job_id job)) _ _ _ Hdata) as Hu.
    split; [exact Hu |]. split.
    + apply (getProspectsFromPlaces_cap P _ job data Hdata).
    + intro Hne. unfold batchCreateProspects.
      destruct data as [| d r]; [contradiction |].
      inversion Hu as [| x l Hd _]; subst. cbn [existsb]. rewrite Hd. reflexivity.
Qed.

(** X24, witness: a draft job, three pages of businesses, a cap of three:
    the handler returns and no prospect is stored. *)
Lemma prospecting_tick_stores_no_prospect_witness :
  fst (handleProspecting Scenario.paged (Scenario.job "j1" draft 1)
                         (Scenario.world [Scenario.job "j1" draft 1] [] [] []))
  = Ok tt
  /\ w_prospects (snd (handleProspecting Scenario.paged (Scenario.job "j1" draft 1)
                         (Scenario.world [Scenario.job "j1" draft 1] [] [] [])))
     = [].
Proof.
  destruct (prospecting_tick_stores_no_prospect Scenario.paged
              (Scenario.job "j1" draft 1)
              (Scenario.world [Scenario.job "j1" draft 1] [] [] [])
              eq_refl eq_refl (or_introl eq_refl)) as (H1 & H2 & _).
  split; [exact H1 | exact H2].
Defined.

(** X24, an example: the finder returns three businesses for the job; the
    tick leaves the job [failed], with its counters at zero, and the
    prospect collection empty. *)
Example prospecting_tick_example :
  option_map (@List.length ProspectData)
             (match getProspectsFromPlaces Scenario.paged (Some "j1")
                      (Scenario.job "j1" draft 1) with
              | Ok data => Some data
              | Throw _ => None
              end) = Some 3%nat
  /\ map (fun j => (job_status j, job_stats j))
         (w_jobs (snd (cron_GET Scenario.paged None
                         (Scenario.world [Scenario.job "j1" draft 1] [] [] []))))
     = [(failed, zero_stats)]
  /\ w_prospects (snd (cron_GET Scenario.paged None
                         (Scenario.world [Scenario.job "j1" draft 1] [] [] [])))
     = [].
Proof. vm_compute. repeat split; reflexivity. Qed.

(* ================================================================== *)
(** ** The discovering stage *)

Lemma discoverEmailForProspect_discovery (P : Platform) (prospect : Prospect) (w : World) :
  w_faults w = [] ->
  discoverEmailForProspect P prospect w
  = (Ok (discovery_of P (w_unsubscribes w) prospect), w).
Proof. exact (discoverEmailForProspect_available P prospect w). Qed.

Lemma batchDiscoverEmails_available (P : Platform) (prospects : list Prospect) (w : World) :
  w_faults w = [] ->
  batchDiscoverEmails P prospects w
  = (Ok (map (discovery_result P (w_unsubscribes w)) prospects), w).
Proof.
  intro Hf. induction prospects as [| p rest IH]; simpl; [reflexivity |].
  rewrite bind_run, (discoverEmailForProspect_discovery _ _ _ Hf).
  rewrite bind_run, IH. reflexivity.
Qed.

Lemma discovery_of_status (P : Platform) (ledger : list Unsubscribe) (prospect : Prospect) :
  snd (discovery_of P ledger prospect) <> found.
Proof.
  unfold discovery_of.
  destruct (Js.falsy_opt (p_website prospect)); [discriminate |].
  destruct (extractDomain P _) as [d |]; [| discriminate].
  destruct (Js.falsy d); [discriminate |].
  destruct (first_unsuppressed _ _); discriminate.
Qed.

Lemma getProspectsForJob_available (jobId : string) (status : option ProspectStatus)
      (limit : option nat) (w : World) :
  w_faults w = [] ->
  getProspectsForJob (Some jobId) status limit w
  = (Ok (limit_opt limit
           (filter (fun p => (p_jobId p =? jobId) && status_filter status p) (w_prospects w)),
         List.length (filter (fun p => p_jobId p =? jobId) (w_prospects w))), w).
Proof.
  intro Hf. unfold getProspectsForJob, query_value. rewrite bind_run. unfold ret at 1.
  cbv beta iota. rewrite bind_run.
  rewrite (store_read_available
             (fun w => limit_opt limit
                         (filter (fun p => (p_jobId p =? jobId) && status_filter status p)
                                 (w_prospects w))) w Hf).
  rewrite bind_run.
  rewrite (store_read_available
             (fun w => List.length (filter (fun p => p_jobId p =? jobId) (w_prospects w)))
             w Hf).
  reflexivity.
Qed.

Lemma found_ids_distinct (keep : Prospect -> bool) (prospects : list Prospect) :
  NoDup (map p_id prospects) -> NoDup (map p_id (filter keep prospects)).
Proof.
  induction prospects as [| p rest IH]; simpl; intro Hnd; [constructor |].
  inversion Hnd as [| id ids Hfresh Hrest]; subst.
  destruct (keep p); simpl; [| auto].
  constructor; [| auto].
  intro Hin. apply Hfresh. apply in_map_iff in Hin. destruct Hin as (q & Hq & Hin).
  apply filter_In in Hin. apply in_map_iff. exists q. tauto.
Qed.

Lemma first_ids_distinct (n : nat) (prospects : list Prospect) :
  NoDup (map p_id prospects) -> NoDup (map p_id (firstn n prospects)).
Proof.
  intro Hnd. rewrite <- (firstn_skipn n prospects), map_app in Hnd.
  apply NoDup_app_remove_r in Hnd. exact Hnd.
Qed.

Lemma discovery_batch_in (jobId : string) (w : World) (p : Prospect) :
  In p (discovery_batch jobId w) ->
  In p (w_prospects w) /\ p_jobId p = jobId /\ p_status p = found.
Proof.
  unfold discovery_batch. intro H. apply In_firstn in H. apply filter_In in H.
  destruct H as (Hin & Hc). apply andb_true_iff in Hc. destruct Hc as (Ho & Hs).
  apply String.eqb_eq in Ho. repeat split; auto.
  destruct (p_status p); try discriminate; reflexivity.
Qed.

Lemma find_prospect_absent (id : string) (batch : list Prospect) :
  ~ In id (map p_id batch) -> find (fun b => p_id b =? id) batch = None.
Proof.
  induction batch as [| b rest IH]; simpl; [reflexivity |].
  intro H. destruct (String.eqb_spec (p_id b) id) as [E | E]; [tauto |].
  apply IH. tauto.
Qed.

Lemma count_with_email_cons (r : DiscoveryResult) (rest : list DiscoveryResult) :
  count_with_email (r :: rest)
  = ((if Js.falsy_opt (d_discoveredEmail r) then 0 else 1) + count_with_email rest)%Z.
Proof.
  unfold count_with_email. simpl filter.
  destruct (Js.falsy_opt (d_discoveredEmail r)); simpl negb; cbv iota.
  - reflexivity.
  - change (List.length (r :: ?l)) with (S (List.length l)). rewrite Nat2Z.inj_succ. lia.
Qed.

Lemma set_prospects_twice (ps1 ps2 : list Prospect) (w : World) :
  set_prospects ps2 (set_prospects ps1 w) = set_prospects ps2 w.
Proof. reflexivity. Qed.

(** The loop over the discovery results of a batch, on an available store
    that holds every prospect of the batch, each carrying its id and named
    once. *)
Lemma update_discovered_run (P : Platform) (ledger : list Unsubscribe)
      (batch : list Prospect) (count : Z) (w : World) :
  w_faults w = [] ->
  Forall (fun b => p_id_stored b = true) batch ->
  (forall b, In b batch -> In (p_id b) (map p_id (w_prospects w))) ->
  NoDup (map p_id batch) ->
  update_discovered (map (discovery_result P ledger) batch) count w
  = (Ok (count + count_with_email (map (discovery_result P ledger) batch))%Z,
     set_prospects
       (map (fun q => match find (fun b => p_id b =? p_id q) batch with
                      | Some b => record_result (w_now w) (discovery_result P ledger b) q
                      | None => q
                      end) (w_prospects w)) w).
Proof.
  revert count w. induction batch as [| b rest IH]; intros count w Hf Hst Hin Hnd.
  - simpl. unfold ret, count_with_email. simpl. rewrite Z.add_0_r, map_id.
    destruct w; reflexivity.
  - inversion Hst as [| x xs Hb Hst']; subst.
    inversion Hnd as [| x xs Hfresh Hnd']; subst.
    cbn [map update_discovered]. cbv zeta.
    cbn [discovery_result d_prospectId d_status d_discoveredEmail].
    unfold p_dot_id at 1. rewrite Hb. rewrite updateProspectStatus_key.
    rewrite bind_run.
    rewrite update_prospect_available
      by (auto; apply existsb_id_In; apply Hin; left; reflexivity).
    rewrite IH.
    + rewrite count_with_email_cons. simpl w_prospects. simpl w_now.
      rewrite map_map, set_prospects_twice. f_equal.
      * f_equal. cbn [discovery_result d_discoveredEmail].
        destruct (Js.falsy_opt (fst (discovery_of P ledger b))); lia.
      * f_equal. apply map_ext. intro q. simpl find.
        rewrite (String.eqb_sym (p_id b) (p_id q)).
        destruct (String.eqb_spec (p_id q) (p_id b)) as [E | E].
        -- simpl p_id. rewrite E, (find_prospect_absent _ _ Hfresh). reflexivity.
        -- reflexivity.
    + exact Hf.
    + exact Hst'.
    + intros b' Hb'. simpl w_prospects.
      rewrite (map_update_same p_id (fun p => p_id p =? p_id b)) by reflexivity.
      apply Hin. right. exact Hb'.
    + exact Hnd'.
Qed.

Lemma owners_kept_count (jobId : string) (g : Prospect -> Prospect) (l : list Prospect) :
  (forall p, p_jobId (g p) = p_jobId p) ->
  List.length (filter (fun p => p_jobId p =? jobId) (map g l))
  = List.length (filter (fun p => p_jobId p =? jobId) l).
Proof.
  intro Hg. induction l as [| p r IH]; simpl; [reflexivity |].
  rewrite Hg. destruct (p_jobId p =? jobId); simpl; congruence.
Qed.

Lemma discovery_batch_page (jobId : string) (w : World) :
  limit_opt (Some EMAIL_DISCOVERY_BATCH_SIZE)
            (filter (fun p => (p_jobId p =? jobId) && status_filter (Some found) p)
                    (w_prospects w))
  = discovery_batch jobId w.
Proof. reflexivity. Qed.

(** The discovering stage on an available store, for a job that carries
    its id, a batch that is not empty and prospects that each have a key of
    their own and carry it as their id. *)
Lemma handleEmailDiscovery_available (P : Platform) (job : Job) (w : World) :
  job_id_stored job = true ->
  w_faults w = [] -> In (job_id job) (map job_id (w_jobs w)) ->
  NoDup (map p_id (w_prospects w)) ->
  discovery_batch (job_id job) w <> [] ->
  Forall (fun q => p_id_stored q = true) (discovery_batch (job_id job) w) ->
  let batch := discovery_batch (job_id job) w in
  let ledger := w_unsubscribes w in
  handleEmailDiscovery P job w
  = (Ok tt,
     set_jobs
       (map (fun j => if job_id j =? job_id job
                      then set_job_stats
                             (stats_increment F_withEmail
                                (count_with_email (map (discovery_result P ledger) batch)))
                             (w_now w) j
                      else j) (w_jobs w))
       (set_prospects
          (map (fun q => match find (fun b => p_id b =? p_id q) batch with
                         | Some b => record_result (w_now w) (discovery_result P ledger b) q
                         | None => q
                         end) (w_prospects w)) w)).
Proof.
  intros Hid Hf Hin Hnd Hne Hst batch ledger. subst batch ledger.
  unfold handleEmailDiscovery, job_dot_id. rewrite Hid. unfold try_catch.
  rewrite bind_run, (getProspectsForJob_available _ _ _ _ Hf), discovery_batch_page.
  cbv beta iota zeta. cbn [fst snd].
  assert (Hlen : (List.length (discovery_batch (job_id job) w) =? 0)%nat = false).
  { destruct (discovery_batch (job_id job) w); [contradiction | reflexivity]. }
  rewrite Hlen.
  rewrite bind_run, (batchDiscoverEmails_available _ _ _ Hf).
  rewrite bind_run, update_discovered_run; [| exact Hf | exact Hst | |].
  - rewrite incrementJobStat_key, bind_run, update_job_available by assumption.
    set (w3 := set_jobs _ (set_prospects _ w)).
    destruct (List.length (discovery_batch (job_id job) w)
              <? EMAIL_DISCOVERY_BATCH_SIZE)%nat; [| reflexivity].
    rewrite bind_run, (getProspectsForJob_available _ _ _ w3 Hf). cbn [snd].
    assert (Htotal : (List.length (filter (fun p => (p_jobId p =? job_id job)%string)
                                          (w_prospects w3))
                      =? 0)%nat = false).
    { unfold w3, set_jobs, set_prospects. cbn [w_prospects].
      rewrite owners_kept_count.
      - apply (batch_counts (job_id job) (Some found) (Some EMAIL_DISCOVERY_BATCH_SIZE)).
        rewrite discovery_batch_page. exact Hne.
      - intro p. destruct (find _ _); reflexivity. }
    rewrite Htotal. reflexivity.
  - intros b Hb. apply in_map. apply (discovery_batch_in _ _ _ Hb).
  - unfold discovery_batch. apply first_ids_distinct, found_ids_distinct. exact Hnd.
Qed.

(** The discovering stage when the first prospect of its batch carries no
    id: the first update throws, and the handler marks the job [failed]. *)
Lemma handleEmailDiscovery_without_id (P : Platform) (job : Job) (w : World)
      (q : Prospect) (rest : list Prospect) :
  job_id_stored job = true ->
  w_faults w = [] -> In (job_id job) (map job_id (w_jobs w)) ->
  discovery_batch (job_id job) w = q :: rest -> p_id_stored q = false ->
  handleEmailDiscovery P job w
  = (Ok tt,
     set_jobs (map (fun j => if job_id j =? job_id job
                             then set_job_status failed (w_now w) j else j)
                   (w_jobs w)) w).
Proof.
  intros Hid Hf Hin Hb Hq.
  unfold handleEmailDiscovery, job_dot_id. rewrite Hid. unfold try_catch.
  rewrite bind_run, (getProspectsForJob_available _ _ _ _ Hf), discovery_batch_page.
  cbv beta iota zeta. cbn [fst snd]. rewrite Hb. cbn [List.length Nat.eqb].
  rewrite bind_run, (batchDiscoverEmails_available _ _ _ Hf).
  rewrite bind_run. cbn [map update_discovered]. cbv zeta.
  cbn [discovery_result d_prospectId]. unfold p_dot_id at 1. rewrite Hq.
  rewrite bind_run, updateProspectStatus_undefined.
  apply (updateJobStatus_available _ _ _ Hf Hin).
Qed.

Lemma find_prospect_of (batch : list Prospect) (q : Prospect) :
  In q batch -> NoDup (map p_id batch) ->
  find (fun b => p_id b =? p_id q) batch = Some q.
Proof.
  induction batch as [| b rest IH]; simpl; intros Hin Hnd; [contradiction |].
  inversion Hnd as [| x xs Hfresh Hnd']; subst.
  destruct Hin as [Hin | Hin].
  - subst b. rewrite String.eqb_refl. reflexivity.
  - destruct (String.eqb_spec (p_id b) (p_id q)) as [E | E]; [| auto].
    exfalso. apply Hfresh. rewrite E. apply in_map. exact Hin.
Qed.

Lemma Forall2_map_in {A} (Q : A -> A -> Prop) (f : A -> A) (l : list A) :
  (forall a, In a l -> Q a (f a)) -> Forall2 Q l (map f l).
Proof.
  induction l as [| a r IH]; simpl; intro H; constructor; auto.
Qed.

(** An address that the discovery returns is not empty and is not
    suppressed. *)
Lemma discovery_of_address (P : Platform) (ledger : list Unsubscribe) (q : Prospect)
      (email : string) :
  fst (discovery_of P ledger q) = Some email ->
  Js.falsy email = false /\ suppressed ledger email = Some false.
Proof.
  unfold discovery_of. intro He.
  destruct (Js.falsy_opt (p_website q)); [discriminate |].
  destruct (extractDomain P _) as [d |]; [| discriminate].
  destruct (Js.falsy d); [discriminate |].
  destruct (first_unsuppressed ledger (generateInferredEmails d)) as [e |] eqn:Ee;
    [| discriminate].
  injection He as He. subst e.
  destruct (first_unsuppressed_sound _ _ _ Ee) as (Hc & Hs). split; [| exact Hs].
  unfold generateInferredEmails, EMAIL_PATTERNS in Hc. simpl in Hc.
  repeat (destruct Hc as [Hc | Hc]; [subst email; reflexivity |]). contradiction.
Qed.

(** X25: a discovery tick records its results under the ids the prospect
    documents carry.  On an available store, for a job on record that
    carries its id, prospects with distinct keys and a batch that is not
    empty (the first 50 prospects of the job in [found]): when every
    prospect of the batch carries its id, the handler returns, every
    prospect of the batch gets the status the discovery computed for it
    against the ledger ([email_found], [no_email] or [no_website], never
    [found]) and, when there is one, the address as its discovered email,
    every other prospect is untouched, the [withEmail] counter of the job
    grows by the number of addresses found, and nothing else of the job
    changes, its status included.  When the first prospect of the batch
    carries no id, as every document the repository writes, the first
    update throws: the job is marked [failed] and no prospect and no
    counter changes. *)
Theorem discovery_tick_records_results_by_id (P : Platform) (job : Job) (w : World) :
  job_id_stored job = true ->
  w_faults w = [] -> In (job_id job) (map job_id (w_jobs w)) ->
  NoDup (map p_id (w_prospects w)) ->
  discovery_batch (job_id job) w <> [] ->
  let batch := discovery_batch (job_id job) w in
  let ledger := w_unsubscribes w in
  let w' := snd (handleEmailDiscovery P job w) in
  (Forall (fun q => p_id_stored q = true) batch ->
   fst (handleEmailDiscovery P job w) = Ok tt
   /\ Forall2 (fun q q' =>
                 (In q batch ->
                  p_status q' = snd (discovery_of P ledger q)
                  /\ p_status q' <> found
                  /\ (forall email, fst (discovery_of P ledger q) = Some email ->
                                    p_discoveredEmail q' = Some email
                                    /\ suppressed ledger email = Some false)
                  /\ (fst (discovery_of P ledger q) = None ->
                      p_discoveredEmail q' = p_discoveredEmail q)
                  /\ same_listing q q')
                 /\ (~ In q batch -> q' = q))
              (w_prospects w) (w_prospects w')
   /\ Forall2 (fun j j' =>
                 if job_id j =? job_id job
                 then s_withEmail (job_stats j')
                      = (s_withEmail (job_stats j)
                         + count_with_email (map (discovery_result P ledger) batch))%Z
                      /\ other_counters_kept F_withEmail (job_stats j) (job_stats j')
                      /\ job_status j' = job_status j
                      /\ same_campaign j j'
                 else j' = j)
              (w_jobs w) (w_jobs w')
   /\ w_unsubscribes w' = w_unsubscribes w)
  /\ (forall q rest,
        batch = q :: rest -> p_id_stored q = false ->
        fst (handleEmailDiscovery P job w) = Ok tt
        /\ w_prospects w' = w_prospects w
        /\ w_unsubscribes w' = w_unsubscribes w
        /\ Forall2 (fun j j' =>
                      if job_id j =? job_id job
                      then job_status j' = failed /\ job_stats j' = job_stats j
                           /\ same_campaign j j'
                      else j' = j)
                   (w_jobs w) (w_jobs w')).
Proof.
  intros Hid Hf Hin Hnd Hne batch ledger w'. subst w'. split.
  - intro Hst.
    rewrite (handleEmailDiscovery_available P job w Hid Hf Hin Hnd Hne Hst).
    cbn [fst snd]. fold batch. fold ledger.
    assert (Hbatch : NoDup (map p_id batch)).
    { unfold batch, discovery_batch. apply first_ids_distinct, found_ids_distinct.
      exact Hnd. }
    split; [reflexivity |]. split; [| split; [| reflexivity]].
    + cbn [w_prospects set_jobs set_prospects].
      apply Forall2_map_in. intros q Hq. split.
      * intro Hqb. rewrite (find_prospect_of batch q Hqb Hbatch).
        unfold record_result, discovery_result. cbn [d_status d_discoveredEmail].
        split; [reflexivity |]. split; [apply discovery_of_status |].
        split; [| split].
        -- intros email He. rewrite He.
           destruct (discovery_of_address _ _ _ _ He) as (Hne' & Hs).
           split; [| exact Hs].
           unfold set_prospect_status, truthy_string. simpl.
           rewrite ?Hne'. simpl. rewrite ?Hne'. reflexivity.
        -- intro Hn. rewrite Hn. reflexivity.
        -- unfold same_listing. simpl. auto 15.
      * intro Hnb. rewrite find_prospect_absent; [reflexivity |].
        intro Hi. apply Hnb. apply in_map_iff in Hi. destruct Hi as (b & Hb & Hbin).
        assert (b = q); [| subst b; exact Hbin].
        apply (NoDup_map_same p_id (w_prospects w) b q Hnd); auto.
        apply (discovery_batch_in _ _ _ Hbin).
    + cbn [w_jobs set_jobs]. apply Forall2_map_r. intro j.
      destruct (job_id j =? job_id job); [| reflexivity].
      unfold other_counters_kept, same_campaign. simpl. auto 20.
  - intros q rest Hb Hq.
    rewrite (handleEmailDiscovery_without_id P job w q rest Hid Hf Hin Hb Hq).
    cbn [fst snd]. repeat split.
    simpl. apply Forall2_map_r. intro j.
    destruct (job_id j =? job_id job); [| reflexivity].
    unfold same_campaign. simpl. auto 12.
Qed.

(** X25, witness: the job in [discovering] with the prospect [foo], which
    carries its id. *)
Lemma discovery_tick_records_results_by_id_witness :
  fst (handleEmailDiscovery Ref.quiet (Scenario.job "j1" discovering 1)
                            Scenario.discovering_foo) = Ok tt.
Proof.
  refine (proj1 (proj1 (discovery_tick_records_results_by_id Ref.quiet
                   (Scenario.job "j1" discovering 1) Scenario.discovering_foo
                   eq_refl eq_refl (or_introl eq_refl) _ _) _)).
  - repeat constructor. simpl. tauto.
  - discriminate.
  - repeat constructor.
Defined.

(** X25, an example: the same job with the prospect as the repository
    writes it, without id.  The tick marks the job [failed]; the prospect
    stays in [found]. *)
Example discovery_tick_without_id_example :
  map (fun j => (job_status j, job_stats j))
      (w_jobs (snd (cron_GET Ref.quiet None
                      (Scenario.world [Scenario.job "j1" discovering 1]
                         [Scenario.written_prospect "p1" "j1" found
                            (Some "http://foo.com") None] [] []))))
  = [(failed, zero_stats)]
  /\ map (fun p => (p_status p, p_discoveredEmail p))
         (w_prospects (snd (cron_GET Ref.quiet None
                         (Scenario.world [Scenario.job "j1" discovering 1]
                            [Scenario.written_prospect "p1" "j1" found
                               (Some "http://foo.com") None] [] []))))
     = [(found, None)].
Proof. vm_compute. split; reflexivity. Qed.

Lemma handleEmailDiscovery_nothing_left (P : Platform) (job : Job) (w : World) :
  job_id_stored job = true ->
  w_faults w = [] -> In (job_id job) (map job_id (w_jobs w)) ->
  discovery_batch (job_id job) w = [] ->
  handleEmailDiscovery P job w
  = (Ok tt,
     set_jobs (map (fun j => if job_id j =? job_id job
                             then set_job_status sending (w_now w) j else j)
                   (w_jobs w)) w).
Proof.
  intros Hid Hf Hin Hempty.
  unfold handleEmailDiscovery, job_dot_id. rewrite Hid. unfold try_catch.
  rewrite bind_run, (getProspectsForJob_available _ _ _ _ Hf), discovery_batch_page.
  cbv beta iota zeta. cbn [fst snd]. rewrite Hempty. cbn [List.length Nat.eqb].
  rewrite (updateJobStatus_available _ _ _ Hf Hin). reflexivity.
Qed.

(** Without an id the handler throws, and nothing has been written. *)
Lemma handleEmailDiscovery_undefined (P : Platform) (job : Job) (w : World) :
  job_id_stored job = false ->
  handleEmailDiscovery P job w = (Throw invalid_path, w).
Proof. intro Hid. unfold handleEmailDiscovery, job_dot_id. rewrite Hid. reflexivity. Qed.

(** X26: a job leaves [discovering] only on a tick that finds nothing to
    discover.  On an available store with the job on record, when no
    prospect of the job is in [found] the discovering handler, given the
    job with its id, moves the job to [sending] and changes nothing else:
    not a counter, not a prospect, not the ledger.  Given the job without
    its id, the handler throws and has written nothing. *)
Theorem discovery_with_nothing_left_moves_to_sending (P : Platform) (job : Job) (w : World) :
  w_faults w = [] -> In (job_id job) (map job_id (w_jobs w)) ->
  discovery_batch (job_id job) w = [] ->
  (job_id_stored job = true ->
   fst (handleEmailDiscovery P job w) = Ok tt
   /\ Forall2 (fun j j' =>
                 if job_id j =? job_id job
                 then job_status j' = sending /\ job_stats j' = job_stats j
                      /\ same_campaign j j'
                 else j' = j)
              (w_jobs w) (w_jobs (snd (handleEmailDiscovery P job w)))
   /\ w_prospects (snd (handleEmailDiscovery P job w)) = w_prospects w
   /\ w_unsubscribes (snd (handleEmailDiscovery P job w)) = w_unsubscribes w)
  /\ (job_id_stored job = false ->
      handleEmailDiscovery P job w = (Throw invalid_path, w)).
Proof.
  intros Hf Hin Hempty. split.
  - intro Hid. rewrite (handleEmailDiscovery_nothing_left _ _ _ Hid Hf Hin Hempty).
    cbn [fst snd]. repeat split.
    simpl. apply Forall2_map_r. intro j.
    destruct (job_id j =? job_id job); [| reflexivity].
    unfold same_campaign. simpl. auto 12.
  - apply handleEmailDiscovery_undefined.
Qed.

(** X26, witness: a job in [discovering] whose only prospect has its
    address already. *)
Lemma discovery_with_nothing_left_moves_to_sending_witness :
  fst (handleEmailDiscovery Ref.quiet (Scenario.job "j1" discovering 1)
         (Scenario.world [Scenario.job "j1" discovering 1] [Scenario.ready] [] []))
  = Ok tt.
Proof.
  exact (proj1 (proj1 (discovery_with_nothing_left_moves_to_sending Ref.quiet
                  (Scenario.job "j1" discovering 1)
                  (Scenario.world [Scenario.job "j1" discovering 1] [Scenario.ready] [] [])
                  eq_refl (or_introl eq_refl) eq_refl) eq_refl)).
Defined.

(* ================================================================== *)
(** ** Who may trigger a tick and a manual send *)

(** X29: the two guards of production.  Outside production every tick and
    every manual send is authorized.  In production a tick is authorized
    exactly when the [authorization] header is [Bearer ] followed by the
    configured secret; when no secret is configured the text compared with
    is [Bearer undefined], so that header is authorized.  In production a
    manual send is authorized exactly when the [x-debug-api-key] header is
    the configured key, and always when no key or an empty key is
    configured.  A request that is not authorized is answered with 401 and
    changes nothing. *)
Theorem production_guards (P : Platform) (w : World) :
  (NODE_ENV P <> Some "production" ->
   forall header, cron_unauthorized P header = false /\ send_unauthorized P header = false)
  /\ (NODE_ENV P = Some "production" ->
      forall header,
        cron_unauthorized P header = false
        <-> header = Some ("Bearer " ++ match CRON_SECRET P with
                                        | Some secret => secret
                                        | None => "undefined"
                                        end)%string)
  /\ (NODE_ENV P = Some "production" ->
      forall key header,
        DEBUG_API_KEY P = Some key -> Js.falsy key = false ->
        (send_unauthorized P header = false <-> header = Some key))
  /\ (Js.falsy_opt (DEBUG_API_KEY P) = true ->
      forall header, send_unauthorized P header = false)
  /\ (forall header, cron_unauthorized P header = true ->
                     cron_GET P header w = (Cron_401, w))
  /\ (forall header body, send_unauthorized P header = true ->
                          send_POST P header body w = (Send_401, w)).
Proof.
  split; [| split; [| split; [| split; [| split]]]].
  - intros Henv header. unfold cron_unauthorized, send_unauthorized.
    destruct (NODE_ENV P) as [env |]; [| split; reflexivity].
    assert (He : (env =? "production") = false).
    { apply String.eqb_neq. intro E. apply Henv. rewrite E. reflexivity. }
    rewrite He. split; [reflexivity |].
    destruct (truthy_string (DEBUG_API_KEY P)); reflexivity.
  - intros Henv header. unfold cron_unauthorized. rewrite Henv.
    cbn [String.eqb Ascii.eqb Bool.eqb andb].
    change ("production" =? "production") with true. cbn [andb].
    rewrite negb_false_iff.
    destruct header as [h |]; [| split; discriminate].
    rewrite String.eqb_eq. split; congruence.
  - intros Henv key header Hkey Hfalsy. unfold send_unauthorized, truthy_string.
    rewrite Henv, Hkey, Hfalsy.
    change ("production" =? "production") with true. cbn [andb].
    rewrite negb_false_iff.
    destruct header as [h |]; [| split; discriminate].
    rewrite String.eqb_eq. split; congruence.
  - intros Hkey header. unfold send_unauthorized, truthy_string.
    destruct (DEBUG_API_KEY P) as [key |]; cbn [Js.falsy_opt] in Hkey.
    + rewrite Hkey. destruct (NODE_ENV P); reflexivity.
    + destruct (NODE_ENV P); reflexivity.
  - intros header H. unfold cron_GET. rewrite H. reflexivity.
  - intros header body H. unfold send_POST. rewrite H. reflexivity.
Qed.

(** X30: the manual send acts only on a job in [sending].  When the job id
    of the request names no job, or a job in any other status, no message
    is handed to the mail provider and no prospect record changes; the
    answer is never the report of a batch. *)
Theorem manual_send_needs_a_job_in_sending (P : Platform) (debugHeader : option string)
        (jobId : string) (w : World) :
  (forall job, find (fun j => job_id j =? jobId) (w_jobs w) = Some job ->
               job_status job <> sending) ->
  w_outbox (snd (send_POST P debugHeader (Ok (Some jobId)) w)) = w_outbox w
  /\ w_prospects (snd (send_POST P debugHeader (Ok (Some jobId)) w)) = w_prospects w
  /\ (forall results, fst (send_POST P debugHeader (Ok (Some jobId)) w) <> Send_200 results)
  /\ fst (send_POST P debugHeader (Ok (Some jobId)) w) <> Send_200_nothing.
Proof.
  intro Hjob.
  assert (Hrun : exists r w1,
             send_POST P debugHeader (Ok (Some jobId)) w = (r, w1)
             /\ w_outbox w1 = w_outbox w /\ w_prospects w1 = w_prospects w
             /\ (forall results, r <> Send_200 results) /\ r <> Send_200_nothing).
  { unfold send_POST.
    destruct (send_unauthorized P debugHeader);
      [eexists; eexists; split; [reflexivity |]; repeat split; discriminate |].
    unfold bind at 1. unfold lift. cbn [Js.falsy_opt].
    destruct (Js.falsy jobId);
      [eexists; eexists; split; [reflexivity |]; repeat split; discriminate |].
    rewrite bind_run. unfold getJob.
    destruct (store_call _ w) as [[job | e] w1] eqn:E;
      (apply store_read_inv in E; [| reflexivity]);
      destruct E as (Ho & Hj & Hp & _ & Hout & _);
      [| eexists; eexists; split; [reflexivity |]; repeat split; auto; discriminate].
    destruct Ho as [Ho | Ho]; [| discriminate]. injection Ho as Ho.
    destruct job as [job |];
      [| eexists; eexists; split; [reflexivity |]; repeat split; auto; discriminate].
    symmetry in Ho. specialize (Hjob job Ho).
    destruct (job_status job) eqn:Es; try contradiction;
      (eexists; eexists; split; [reflexivity |]; repeat split; auto; discriminate). }
  destruct Hrun as (r & w1 & Hrun & Hout & Hp & Hr & Hn). rewrite Hrun. cbn [fst snd].
  auto.
Qed.

(** X30, witness: a manual send for a job that is still in [draft]. *)
Lemma manual_send_needs_a_job_in_sending_witness :
  w_outbox (snd (send_POST Ref.quiet None (Ok (Some "j1"))
                           (Scenario.world [Scenario.job "j1" draft 1] [Scenario.ready] [] [])))
  = [].
Proof.
  refine (proj1 (manual_send_needs_a_job_in_sending Ref.quiet None "j1"
                   (Scenario.world [Scenario.job "j1" draft 1] [Scenario.ready] [] []) _)).
  intros job H. injection H as H. subst job. discriminate.
Defined.

(* ================================================================== *)
(** ** Jobs as the repository writes them *)

(** The prospecting stage for a job without id, on an available store:
    every path ends in a call that is handed [undefined] as the document
    path, and nothing is written. *)
Lemma handleProspecting_undefined (P : Platform) (job : Job) (w : World) :
  job_id_stored job = false -> w_faults w = [] ->
  handleProspecting P job w = (Throw invalid_path, w).
Proof.
  intros Hid Hf. unfold handleProspecting, job_dot_id. rewrite Hid.
  destruct (JobStatus_eqb (job_status job) draft); [reflexivity |].
  rewrite bind_run. unfold ret at 1. cbv beta iota.
  unfold try_catch. rewrite bind_run. unfold lift.
  pose proof (getProspectsFromPlaces_undefined P None None job) as Hundef.
  destruct (getProspectsFromPlaces P None job) as [[| d data] | e].
  - rewrite bind_run, (batchCreateProspects_nothing _ _ _ Hf). reflexivity.
  - specialize (Hundef _ eq_refl). inversion Hundef as [| x l Hd _]; subst.
    rewrite bind_run. unfold batchCreateProspects. cbn [existsb]. rewrite Hd.
    reflexivity.
  - reflexivity.
Qed.

Lemma processJob_undefined (P : Platform) (job : Job) (w : World) :
  job_id_stored job = false -> is_active job = true -> w_faults w = [] ->
  processJob P job w = (Throw invalid_path, w).
Proof.
  intros Hid Ha Hf. unfold processJob, is_active in *.
  destruct (job_status job); try discriminate.
  - apply handleProspecting_undefined; assumption.
  - apply handleProspecting_undefined; assumption.
  - apply handleEmailDiscovery_undefined; assumption.
  - apply handleSending_undefined; assumption.
Qed.

(** X31: a job that was created through the API is never processed.
    [createJob] stores no [id] field and the tick reads the jobs with
    [doc.data()], so the job the tick is given has no id.  On an available
    store, when the first active job the tick has loaded carries no id,
    its handler throws on the [undefined] document path, the write that
    should mark the job [failed] throws for the same reason, and the tick
    answers 500 and has written nothing: no job, whatever its place in the
    list, has moved.  A job stored by [POST /api/jobs] carries no id. *)
Theorem tick_over_a_job_without_id_fails (P : Platform) (authHeader : option string)
        (w : World) (job : Job) (rest : list Job) :
  cron_unauthorized P authHeader = false -> w_faults w = [] ->
  active_jobs w = job :: rest -> job_id_stored job = false ->
  cron_GET P authHeader w = (Cron_500, w)
  /\ processJob P job w = (Throw invalid_path, w)
  /\ process_guarded P job w = (Throw invalid_path, w)
  /\ (forall body jobId w0,
        fst (jobs_POST P body w0) = Jobs_201 jobId ->
        exists created,
          w_jobs (snd (jobs_POST P body w0)) = w_jobs w0 ++ [created]
          /\ job_id created = jobId /\ job_dot_id created = None
          /\ is_active created = true).
Proof.
  intros Hauth Hf Hact Hid.
  assert (Ha : is_active job = true).
  { apply (active_jobs_in w job). rewrite Hact. left. reflexivity. }
  pose proof (processJob_undefined P job w Hid Ha Hf) as Hp.
  assert (Hg : process_guarded P job w = (Throw invalid_path, w)).
  { unfold process_guarded, try_catch. rewrite Hp.
    unfold job_dot_id. rewrite Hid. reflexivity. }
  split; [| split; [exact Hp | split; [exact Hg |]]].
  - pose proof (cron_GET_answer P authHeader w Hauth) as Hans.
    rewrite Hf in Hans. cbv zeta in Hans. rewrite Hans, Hact.
    cbn [for_each]. rewrite bind_run, Hg. reflexivity.
  - intros body jobId w0 H201.
    destruct (jobs_POST_201_data _ _ _ _ H201) as (data & Hrun & Hok & Hst & _).
    rewrite Hrun. cbn [snd].
    pose proof (createJob_jobs P data w0) as Hc. rewrite Hok in Hc.
    destruct Hc as (Hc & _). eexists. split; [exact Hc |].
    unfold is_active. cbn. rewrite Hst. auto.
Qed.

(** X31, witness: a store that holds one job in [draft], written without an
    id. *)
Lemma tick_over_a_job_without_id_fails_witness :
  cron_GET Ref.quiet None (Scenario.world [Scenario.written_job "j1" draft 1] [] [] [])
  = (Cron_500, Scenario.world [Scenario.written_job "j1" draft 1] [] [] []).
Proof.
  exact (proj1 (tick_over_a_job_without_id_fails Ref.quiet None
                  (Scenario.world [Scenario.written_job "j1" draft 1] [] [] [])
                  (Scenario.written_job "j1" draft 1) [] eq_refl eq_refl eq_refl eq_refl)).
Defined.

(** X31, an example: a job is created through [POST /api/jobs] on an empty
    store; two ticks later it is still in [draft], and both ticks have
    answered 500. *)
Example created_job_is_never_processed_example :
  fst (jobs_POST Ref.quiet (Ok Scenario.negative_sizes) (Scenario.world [] [] [] []))
  = Jobs_201 "doc000"
  /\ fst (cron_GET Ref.quiet None
            (snd (jobs_POST Ref.quiet (Ok Scenario.negative_sizes)
                            (Scenario.world [] [] [] []))))
     = Cron_500
  /\ map (fun j => (job_id j, job_status j))
         (w_jobs (run_ticks [(Ref.quiet, None); (Ref.quiet, None)]
                    (snd (jobs_POST Ref.quiet (Ok Scenario.negative_sizes)
                                    (Scenario.world [] [] [] [])))))
     = [("doc000", draft)].
Proof. vm_compute. repeat split; reflexivity. Qed.
